(** * Schema synchronisation core of basic-cli

    A shallow embedding of the TypeScript sources
      - src/lib/schema.ts       (compareVersions, readSchemaFromConfig,
                                 extractSchemaFromCode, saveSchemaToConfig,
                                 updateSchemaInCode, generateConfigContent)
      - src/commands/push.tsx   (PushApp, analyzePushAction)
      - src/commands/pull.tsx   (PullApp, analyzePullAction)
      - src/commands/status.tsx (StatusApp, analyzeStatus)
    together with the properties the specification states about them.

    Conventions of the embedding
      - a JavaScript string is a [string]: a sequence of code units below 256;
      - a JavaScript number is an integer [Z] within the range that
        JavaScript prints in plain decimal (versions are integers);
      - an awaited call that may reject returns an [Outcome];
      - the API client is a record of answers, and every call made through it
        is appended to a log, so that "was consulted" is a statement about
        the log. *)

From Stdlib Require Import ZArith Lia Bool Ascii String List.
From stdpp Require Import base option list strings gmap pretty.

Set Warnings "-register-all".

Local Open Scope string_scope.
Local Open Scope Z_scope.
Local Open Scope list_scope.

(** ** JavaScript values and exceptions *)

(** A plain JavaScript value as [JSON.parse] or [convertAstToObject] builds
    it.  An object keeps its properties in insertion order. *)
Inductive JsVal : Type :=
| JUndefined
| JNull
| JBool (b : bool)
| JNum (n : Z)
| JStr (s : string)
| JArr (xs : list JsVal)
| JObj (props : list (string * JsVal)).

(** What a [catch (error)] clause receives: an [Error] instance with its
    [message] and optional [code] (as set by node's fs), or any other value. *)
Inductive Thrown : Type :=
| ErrorObj (msg : string) (code : option string)
| NonError.

Definition Error (msg : string) : Thrown := ErrorObj msg None.

(** [error instanceof Error ? error.message : 'Unknown error'] *)
Definition error_message (e : Thrown) : string :=
  match e with
  | ErrorObj m _ => m
  | NonError => "Unknown error"
  end.

Inductive Outcome (A : Type) : Type :=
| Returns (a : A)
| Throws (e : Thrown).
Arguments Returns {A} a.
Arguments Throws {A} e.

(** ** Dynamic JavaScript operations *)

(** Truthiness, as [!x] and [x && y] see it. *)
Definition truthy (v : JsVal) : bool :=
  match v with
  | JUndefined | JNull => false
  | JBool b => b
  | JNum n => negb (n =? 0)
  | JStr s => negb (String.eqb s "")
  | JArr _ | JObj _ => true
  end.

Definition typeof (v : JsVal) : string :=
  match v with
  | JUndefined => "undefined"
  | JBool _ => "boolean"
  | JNum _ => "number"
  | JStr _ => "string"
  | JNull | JArr _ | JObj _ => "object"
  end.

Fixpoint lookup_prop (key : string) (props : list (string * JsVal)) : JsVal :=
  match props with
  | [] => JUndefined
  | (k, v) :: rest => if String.eqb k key then v else lookup_prop key rest
  end.

(** [v.key] for a key that is neither an index nor a built-in property:
    reading a property of [null] or [undefined] throws a TypeError. *)
Definition get_prop (v : JsVal) (key : string) : Outcome JsVal :=
  match v with
  | JObj props => Returns (lookup_prop key props)
  | JUndefined =>
      Throws (Error ("Cannot read properties of undefined (reading '" +:+ key +:+ "')"))
  | JNull =>
      Throws (Error ("Cannot read properties of null (reading '" +:+ key +:+ "')"))
  | _ => Returns JUndefined
  end.

(** [obj[key] = v] on a plain object: an existing property keeps its place,
    a new one is appended (the key is not [__proto__], whose assignment
    sets the prototype instead). *)
Fixpoint set_prop (key : string) (v : JsVal) (props : list (string * JsVal))
    : list (string * JsVal) :=
  match props with
  | [] => [(key, v)]
  | (k, v') :: rest =>
      if String.eqb k key then (k, v) :: rest else (k, v') :: set_prop key v rest
  end.

(** [String(v)], as a template string converts a value: an array joins its
    elements with commas, [null] and [undefined] elements giving nothing. *)
Fixpoint js_to_string (v : JsVal) : string :=
  match v with
  | JUndefined => "undefined"
  | JNull => "null"
  | JBool b => if b then "true" else "false"
  | JNum n => pretty n
  | JStr s => s
  | JArr xs =>
      (fix join (xs : list JsVal) : string :=
         match xs with
         | [] => ""
         | [x] =>
             match x with
             | JUndefined | JNull => ""
             | _ => js_to_string x
             end
         | x :: xs' =>
             match x with
             | JUndefined | JNull => ""
             | _ => js_to_string x
             end +:+ "," +:+ join xs'
         end) xs
  | JObj _ => "[object Object]"
  end.

(** ** Data model (src/lib/types.ts) *)

(** A schema is a plain object [{ project_id, version, tables }]. *)
Definition Schema : Type := JsVal.

(** [schema.version] of a schema that keeps to the interface, which
    declares it a number: [None] when the property is missing.  A version
    of another type, which [local.version || 0] would hand on as it is, is
    outside the embedding: the theorems about compareVersions itself are
    stated for schemas with a numeric or missing version. *)
Definition version (schema : Schema) : option Z :=
  match schema with
  | JObj props =>
      match lookup_prop "version" props with
      | JNum n => Some n
      | _ => None
      end
  | _ => None
  end.

Record ValidationError : Type := {
  ve_message : string;
  instancePath : string
}.

Record ValidationResult : Type := {
  valid : bool;
  errors : option (list ValidationError)   (* [errors?:] *)
}.

Record CompareResult : Type := { cmp_valid : bool }.

(** The closed set of canonical statuses. *)
Inductive Status : Type :=
| Current | Behind | Ahead | Conflict | Invalid | NoSchema.

Global Instance Status_eq_dec : EqDecision Status.
Proof. solve_decision. Defined.

(** ** Version comparator (src/lib/schema.ts, compareVersions) *)

Inductive VersionStatus : Type := VCurrent | VAhead | VBehind | VEqual.

Global Instance VersionStatus_eq_dec : EqDecision VersionStatus.
Proof. solve_decision. Defined.

Record Comparison : Type := {
  c_status : VersionStatus;
  c_localVersion : Z;
  c_remoteVersion : Z
}.

(** [v || 0] on a number that may be missing. *)
Definition or_zero (v : option Z) : Z :=
  match v with
  | Some n => if n =? 0 then 0 else n
  | None => 0
  end.

Definition compareVersions (local remote : Schema) : Comparison :=
  let localVersion := or_zero (version local) in
  let remoteVersion := or_zero (version remote) in
  let status :=
    if localVersion =? remoteVersion then VEqual
    else if localVersion >? remoteVersion then VAhead
    else VBehind in
  {| c_status := status;
     c_localVersion := localVersion;
     c_remoteVersion := remoteVersion |}.

(** The schema is an object whose [version] is the number [n], or is
    missing, which counts as 0. *)
Definition has_version (schema : Schema) (n : Z) : Prop :=
  exists props,
    schema = JObj props /\
    (lookup_prop "version" props = JNum n \/
     lookup_prop "version" props = JUndefined /\ n = 0).

(** ** The API client as a collaborator *)

Inductive ApiCall : Type :=
| GetProjectSchemaCall (projectId : string)
| PushProjectSchemaCall (projectId : string) (schema : Schema)
| ValidateSchemaCall (schema : Schema)
| CompareSchemaCall (schema : Schema).

Record ApiClient : Type := {
  getProjectSchema : string -> Outcome (option Schema);
  pushProjectSchema : string -> Schema -> Outcome unit;
  validateSchema : Schema -> Outcome ValidationResult;
  compareSchema : Schema -> Outcome CompareResult
}.

(** An asynchronous computation: it may reject, and it extends the log of
    the API calls made so far. *)
Definition Flow (A : Type) : Type := list ApiCall -> Outcome A * list ApiCall.

Definition ret {A} (a : A) : Flow A := fun log => (Returns a, log).

Definition bind {A B} (m : Flow A) (k : A -> Flow B) : Flow B :=
  fun log =>
    match m log with
    | (Returns a, log') => k a log'
    | (Throws e, log') => (Throws e, log')
    end.

Definition try_catch {A} (body : Flow A) (handler : Thrown -> Flow A) : Flow A :=
  fun log =>
    match body log with
    | (Returns a, log') => (Returns a, log')
    | (Throws e, log') => handler e log'
    end.

Definition await {A} (call : ApiCall) (answer : Outcome A) : Flow A :=
  fun log => (answer, log ++ [call]).

Notation "'let*' x ':=' m 'in' k" := (bind m (fun x => k))
  (at level 10, x name, m at level 100, k at level 200).

(** [validation.valid === false && validation.errors]: an array, even an
    empty one, is truthy; a missing property is not. *)
Definition reports_errors (validation : ValidationResult) : bool :=
  negb (valid validation) && bool_decide (is_Some (errors validation)).

(** What [readSchemaFromConfig] hands to the commands. *)
Record SchemaFileResult : Type := {
  schema : Schema;
  projectId : JsVal;             (* [schema.project_id], a truthy value *)
  filePath : string
}.

(** ** Push analyzer (src/commands/push.tsx, analyzePushAction) *)

(** The result record shared by the push and pull analyzers; the pull
    analyzer never sets [validationErrors]. *)
Record ActionResult : Type := {
  status : Status;
  ar_projectId : JsVal;
  localVersion : Z;
  remoteVersion : Z;
  message : list string;
  needsConfirmation : bool;
  confirmationTitle : string;
  confirmationMessage : string;
  validationErrors : option (list ValidationError)
}.

(** [{ ...baseResult, status, message }] *)
Definition baseResult (projectId : JsVal) (comparison : Comparison)
    (st : Status) (msg : list string) : ActionResult :=
  {| status := st;
     ar_projectId := projectId;
     localVersion := c_localVersion comparison;
     remoteVersion := c_remoteVersion comparison;
     message := msg;
     needsConfirmation := false;
     confirmationTitle := "";
     confirmationMessage := "";
     validationErrors := None |}.

Definition with_validationErrors (r : ActionResult)
    (errs : option (list ValidationError)) : ActionResult :=
  {| status := status r; ar_projectId := ar_projectId r;
     localVersion := localVersion r; remoteVersion := remoteVersion r;
     message := message r; needsConfirmation := needsConfirmation r;
     confirmationTitle := confirmationTitle r;
     confirmationMessage := confirmationMessage r;
     validationErrors := errs |}.

Definition with_confirmation (r : ActionResult) (title msg : string)
    : ActionResult :=
  {| status := status r; ar_projectId := ar_projectId r;
     localVersion := localVersion r; remoteVersion := remoteVersion r;
     message := message r; needsConfirmation := true;
     confirmationTitle := title;
     confirmationMessage := msg;
     validationErrors := validationErrors r |}.

Definition analyzePushAction (localConfig : SchemaFileResult) (remoteSchema : Schema)
    (comparison : Comparison) (apiClient : ApiClient) : Flow ActionResult :=
  let base := baseResult (projectId localConfig) comparison in
  match c_status comparison with
  | VAhead =>
      try_catch
        (let* validation := await (ValidateSchemaCall (schema localConfig))
                         (validateSchema apiClient (schema localConfig)) in
         if reports_errors validation then
           ret (with_validationErrors
                  (base Invalid
                     ["Errors found in schema! Please fix:";
                      "Your local schema has validation errors that must be resolved before pushing."])
                  (errors validation))
         else
           ret (with_confirmation
                  (base Ahead
                     ["Your local schema is ahead of the remote version.";
                      "Push your changes to publish them?"])
                  "Push Schema Changes"
                  "This will publish your local schema changes to the remote project."))
        (fun error =>
           ret (base Invalid
                  ["Error validating schema: " +:+ error_message error;
                   "Please check your schema for syntax errors."]))
  | VEqual =>
      if (c_localVersion comparison =? 0) && (c_remoteVersion comparison =? 0) then
        try_catch
          (let* validation := await (ValidateSchemaCall (schema localConfig))
                           (validateSchema apiClient (schema localConfig)) in
           if reports_errors validation then
             ret (with_validationErrors
                    (base Invalid ["Errors found in schema! Please fix:"])
                    (errors validation))
           else
             ret (base Invalid
                    ["Schema changes are valid!";
                     "Please increment your version number to 1";
                     "and run 'basic push' if you are ready to publish your changes."]))
          (fun error =>
             ret (base Invalid
                    ["Error validating schema: " +:+ error_message error]))
      else
        try_catch
          (let* comparisonResult := await (CompareSchemaCall (schema localConfig))
                                 (compareSchema apiClient (schema localConfig)) in
           if cmp_valid comparisonResult then
             ret (base Current ["Schema is up to date!"; "No push needed."])
           else
             ret (base Invalid
                    ["Your local schema differs from the remote schema.";
                     "Please increment your version number before pushing changes."]))
          (fun _ =>
             ret (base Current
                    ["Schema appears to be up to date.";
                     "(Unable to verify schema content - assuming current)"]))
  | VBehind =>
      ret (base Behind
             ["Your local schema is behind the remote version.";
              "Did you mean to pull instead?";
              "Use 'basic pull' to get the latest changes."])
  | VCurrent =>
      ret (base Current ["Schema is up to date!"; "No push needed."])
  end.

(** ** Pull analyzer (src/commands/pull.tsx, analyzePullAction) *)

Definition analyzePullAction (localConfig : SchemaFileResult) (remoteSchema : Schema)
    (comparison : Comparison) (apiClient : ApiClient) : Flow ActionResult :=
  let base := baseResult (projectId localConfig) comparison in
  match c_status comparison with
  | VBehind =>
      ret (with_confirmation
             (base Behind
                ["Your local schema is behind the remote version.";
                 "Pull the latest changes?"])
             "Pull Remote Schema"
             "This will update your local schema to the latest version.")
  | VEqual =>
      if (c_localVersion comparison =? 0) && (c_remoteVersion comparison =? 0) then
        ret (base Current ["Schema is up to date!"; "No pull needed."])
      else
        try_catch
          (let* comparisonResult := await (CompareSchemaCall (schema localConfig))
                                 (compareSchema apiClient (schema localConfig)) in
           if cmp_valid comparisonResult then
             ret (base Current ["Schema is up to date!"; "No pull needed."])
           else
             ret (with_confirmation
                    (base Conflict
                       ["Schema conflicts detected!";
                        "Your local schema differs from the remote schema at the same version.";
                        "Pull the remote version to override local changes?"])
                    "Override Local Changes"
                    "This will replace your local schema with the remote version."))
          (fun _ =>
             ret (base Current
                    ["Schema is up to date!";
                     "No pull needed.";
                     "(Unable to verify schema content - assuming current)"]))
  | VAhead =>
      ret (base Ahead
             ["Your local schema is ahead of the remote version.";
              "Did you mean to push instead?";
              "Use 'basic push' to publish your changes."])
  | VCurrent =>
      ret (base Current ["Schema is up to date!"; "No pull needed."])
  end.

(** ** Status analyzer (src/commands/status.tsx, analyzeStatus) *)

Record StatusResult : Type := {
  sr_status : Status;
  sr_projectId : JsVal;
  sr_localVersion : Z;
  sr_remoteVersion : Z;
  sr_message : list string;
  sr_suggestions : list string;
  sr_validationErrors : option (list ValidationError)
}.

(** The decimal text of a number in a template string. *)
Definition show (n : Z) : string := pretty n.

Definition analyzeStatus (localConfig : SchemaFileResult) (remoteSchema : Schema)
    (comparison : Comparison) (apiClient : ApiClient) : Flow StatusResult :=
  let localSchema := schema localConfig in
  let projectId := projectId localConfig in
  let baseMessage :=
    ["Project ID: " +:+ js_to_string projectId] ++
    (if c_remoteVersion comparison >? 0
     then ["Remote schema version: " +:+ show (c_remoteVersion comparison)]
     else []) in
  let result st msg errs sugg :=
    {| sr_status := st;
       sr_projectId := projectId;
       sr_localVersion := c_localVersion comparison;
       sr_remoteVersion := c_remoteVersion comparison;
       sr_message := baseMessage ++ msg;
       sr_suggestions := sugg;
       sr_validationErrors := errs |} in
  match c_status comparison with
  | VBehind =>
      ret (result Behind
             ["Schema is out of date! Current: " +:+ show (c_localVersion comparison)
                +:+ ", Latest: " +:+ show (c_remoteVersion comparison)]
             None
             ["Run 'basic pull' to update your local schema";
              "Review the changes before pulling if you have local modifications";
              "Consider backing up your current schema if you have unsaved work"])
  | VAhead =>
      try_catch
        (let* validation := await (ValidateSchemaCall localSchema)
                         (validateSchema apiClient localSchema) in
         if reports_errors validation then
           ret (result Invalid
                  ["Changes found: Local schema version " +:+ show (c_localVersion comparison)
                     +:+ " is ahead of remote version " +:+ show (c_remoteVersion comparison);
                   "Errors found in schema! Please fix:"]
                  (errors validation)
                  ["Fix the validation errors shown below";
                   "Run 'basic status' again after fixing errors";
                   "Review your schema syntax and field definitions"])
         else
           ret (result Ahead
                  ["Changes found: Local schema version " +:+ show (c_localVersion comparison)
                     +:+ " is ahead of remote version " +:+ show (c_remoteVersion comparison);
                   "Schema changes are valid!"]
                  None
                  ["Run 'basic push' to publish your changes";
                   "Review your changes before publishing";
                   "Test your schema locally if possible"]))
        (fun error =>
           ret (result Invalid
                  ["Error validating schema: " +:+ error_message error]
                  None
                  ["Check your schema for syntax errors";
                   "Ensure all required fields are present";
                   "Verify your basic.config file is valid JSON/JavaScript"]))
  | VEqual =>
      if (c_localVersion comparison =? 0) && (c_remoteVersion comparison =? 0) then
        try_catch
          (let* validation := await (ValidateSchemaCall localSchema)
                           (validateSchema apiClient localSchema) in
           if reports_errors validation then
             ret (result Invalid
                    ["Errors found in schema! Please fix:"]
                    (errors validation)
                    ["Fix the validation errors shown below";
                     "Run 'basic status' again after fixing errors"])
           else
             ret (result Ahead
                    [""; "Schema changes are valid!";
                     "Please increment your version number to 1";
                     "and run 'basic push' if you are ready to publish your changes."]
                    None
                    ["Update the version field in your schema from 0 to 1";
                     "Run 'basic push' after incrementing the version";
                     "Ensure your schema changes are tested and ready for production"]))
          (fun error =>
             ret (result Invalid
                    ["Error validating schema: " +:+ error_message error]
                    None
                    ["Check your schema for syntax errors"]))
      else
        try_catch
          (let* comparison' := await (CompareSchemaCall localSchema)
                            (compareSchema apiClient localSchema) in
           if cmp_valid comparison' then
             ret (result Current
                    ["Schema is up to date!"]
                    None
                    ["Continue working on your project";
                     "Make schema modifications if needed";
                     "Run 'basic status' again after making changes"])
           else
             ret (result Conflict
                    [""; "Schema conflicts found! Your local schema is different from the remote schema."]
                    None
                    ["Run 'basic pull' to override local changes with remote schema";
                     "Or increment the version number in your local schema";
                     "Compare your local changes with the remote version before deciding";
                     "Consider creating a backup of your local changes"]))
          (fun error =>
             ret (result Invalid
                    ["Error checking schema conflict: " +:+ error_message error]
                    None
                    ["Check your network connection";
                     "Ensure the project ID is correct"]))
  | VCurrent =>
      ret (result Invalid
             ["Unknown schema status"]
             None
             ["Try running 'basic status' again"])
  end.

(** ** The three flows on a pair of schemas

    Each command computes [compareVersions(localConfig.schema, remoteSchema)]
    and hands it to its analyzer; the analysis starts from an empty log. *)

Definition pushFlow (apiClient : ApiClient) (localConfig : SchemaFileResult)
    (remoteSchema : Schema) : Outcome ActionResult * list ApiCall :=
  analyzePushAction localConfig remoteSchema
    (compareVersions (schema localConfig) remoteSchema) apiClient [].

Definition pullFlow (apiClient : ApiClient) (localConfig : SchemaFileResult)
    (remoteSchema : Schema) : Outcome ActionResult * list ApiCall :=
  analyzePullAction localConfig remoteSchema
    (compareVersions (schema localConfig) remoteSchema) apiClient [].

Definition statusFlow (apiClient : ApiClient) (localConfig : SchemaFileResult)
    (remoteSchema : Schema) : Outcome StatusResult * list ApiCall :=
  analyzeStatus localConfig remoteSchema
    (compareVersions (schema localConfig) remoteSchema) apiClient [].

Definition outcome_map {A B} (f : A -> B) (o : Outcome A) : option B :=
  match o with
  | Returns a => Some (f a)
  | Throws _ => None
  end.

(** The canonical status each flow reports; [None] would be a rejected
    analysis. *)
Definition pushStatus apiClient localConfig remoteSchema : option Status :=
  outcome_map status (fst (pushFlow apiClient localConfig remoteSchema)).
Definition pullStatus apiClient localConfig remoteSchema : option Status :=
  outcome_map status (fst (pullFlow apiClient localConfig remoteSchema)).
Definition statusStatus apiClient localConfig remoteSchema : option Status :=
  outcome_map sr_status (fst (statusFlow apiClient localConfig remoteSchema)).

(** The validation call answers, and the answer does not report errors. *)
Definition validation_passes (apiClient : ApiClient) (s : Schema) : Prop :=
  exists v, validateSchema apiClient s = Returns v /\ reports_errors v = false.

(** The content comparison answers [valid: true]. *)
Definition comparison_matches (apiClient : ApiClient) (s : Schema) : Prop :=
  exists c, compareSchema apiClient s = Returns c /\ cmp_valid c = true.

(** The comparator says [equal] at version 0 on both sides. *)
Definition both_zero (c : Comparison) : bool :=
  (c_localVersion c =? 0) && (c_remoteVersion c =? 0).

(** ** Concrete schemas and API clients used in the examples below *)

Definition schema_at (n : Z) : Schema :=
  JObj [("project_id", JStr "p1"); ("version", JNum n); ("tables", JObj [])].

Definition config_at (n : Z) : SchemaFileResult :=
  {| schema := schema_at n;
     projectId := JStr "p1";
     filePath := "./basic.config.ts" |}.

(** A client whose validation and comparison endpoints give fixed answers. *)
Definition api_answering (v : Outcome ValidationResult)
    (c : Outcome CompareResult) : ApiClient :=
  {| getProjectSchema := fun _ => Returns None;
     pushProjectSchema := fun _ _ => Returns tt;
     validateSchema := fun _ => v;
     compareSchema := fun _ => c |}.

Definition answer_valid : Outcome ValidationResult :=
  Returns {| valid := true; errors := None |}.
Definition answer_same : Outcome CompareResult :=
  Returns {| cmp_valid := true |}.
Definition answer_differs : Outcome CompareResult :=
  Returns {| cmp_valid := false |}.
Definition network_down {A} : Outcome A :=
  Throws (Error "Network connection failed").

(** The line by which the status and push flows ask for a version bump. *)
Definition bump_line : string := "Please increment your version number to 1".

(** ** The syntax tree of a config file (the part of @babel/types the code
    inspects) *)

Inductive ObjectMember (N : Type) : Type :=
| ObjectProperty (key value : N)
| OtherMember (type : string).          (* ObjectMethod, SpreadElement *)
Arguments ObjectProperty {N} key value.
Arguments OtherMember {N} type.

Inductive Node : Type :=
| ObjectExpression (properties : list (ObjectMember Node))
| ArrayExpression (elements : list (option Node))
| StringLiteral (value : string)
| NumericLiteral (value : Z)
| BooleanLiteral (value : bool)
| NullLiteral
| Identifier (name : string)
| OtherNode (type : string).            (* any other expression or pattern *)

Definition node_type (node : Node) : string :=
  match node with
  | ObjectExpression _ => "ObjectExpression"
  | ArrayExpression _ => "ArrayExpression"
  | StringLiteral _ => "StringLiteral"
  | NumericLiteral _ => "NumericLiteral"
  | BooleanLiteral _ => "BooleanLiteral"
  | NullLiteral => "NullLiteral"
  | Identifier _ => "Identifier"
  | OtherNode t => t
  end.

(** A declarator [id = init]; a declaration has at least one. *)
Record VariableDeclarator : Type := {
  vd_id : Node;
  vd_init : option Node
}.

Inductive Declaration : Type :=
| VariableDeclaration (first : VariableDeclarator) (rest : list VariableDeclarator)
| OtherDeclaration (type : string).

Inductive Statement : Type :=
| ExportNamedDeclaration (declaration : option Declaration)
| ExportDefaultDeclaration (declaration : Node)
| TopLevel (declaration : Declaration)
| OtherStatement (type : string).

Definition Program : Type := list Statement.

(** ** extractSchemaFromCode and its helpers (src/lib/schema.ts) *)

Definition getPropertyKey (key : Node) : Outcome string :=
  match key with
  | Identifier name => Returns name
  | StringLiteral value => Returns value
  | _ => Throws (Error ("Unsupported property key type: " +:+ node_type key))
  end.

(** The loop over [node.properties]: only an ObjectProperty sets a key. *)
Definition convert_properties (convert : Node -> Outcome JsVal)
    : list (ObjectMember Node) -> list (string * JsVal) -> Outcome JsVal :=
  fix each (props : list (ObjectMember Node)) (obj : list (string * JsVal)) :=
    match props with
    | [] => Returns (JObj obj)
    | ObjectProperty key value :: props' =>
        match getPropertyKey key with
        | Throws e => Throws e
        | Returns k =>
            match convert value with
            | Throws e => Throws e
            | Returns v => each props' (set_prop k v obj)
            end
        end
    | OtherMember _ :: props' => each props' obj
    end.

(** [node.elements.map(element => element ? convert(element) : null)] *)
Definition convert_elements (convert : Node -> Outcome JsVal)
    : list (option Node) -> list JsVal -> Outcome JsVal :=
  fix each (elems : list (option Node)) (acc : list JsVal) :=
    match elems with
    | [] => Returns (JArr acc)
    | Some element :: elems' =>
        match convert element with
        | Throws e => Throws e
        | Returns v => each elems' (acc ++ [v])
        end
    | None :: elems' => each elems' (acc ++ [JNull])
    end.

Fixpoint convertAstToObject (node : Node) : Outcome JsVal :=
  match node with
  | ObjectExpression properties =>
      convert_properties convertAstToObject properties []
  | ArrayExpression elements =>
      convert_elements convertAstToObject elements []
  | StringLiteral value => Returns (JStr value)
  | NumericLiteral value => Returns (JNum value)
  | BooleanLiteral value => Returns (JBool value)
  | NullLiteral => Returns JNull
  | Identifier name =>
      if String.eqb name "true" then Returns (JBool true)
      else if String.eqb name "false" then Returns (JBool false)
      else if String.eqb name "null" then Returns JNull
      else Throws (Error ("Unexpected identifier: " +:+ name))
  | OtherNode type => Throws (Error ("Unsupported node type: " +:+ type))
  end.

(** [decl.id.type === 'Identifier' && decl.id.name === 'schema'] *)
Definition declares_schema (d : VariableDeclarator) : bool :=
  match vd_id d with
  | Identifier name => String.eqb name "schema"
  | _ => false
  end.

(** Step 1: every [export const schema = init] assigns [schemaNode]; the
    last one wins. *)
Fixpoint named_export (body : Program) (schemaNode : option Node) : option Node :=
  match body with
  | [] => schemaNode
  | ExportNamedDeclaration (Some (VariableDeclaration variable _)) :: body' =>
      named_export body'
        (if declares_schema variable then
           match vd_init variable with
           | Some init => Some init
           | None => schemaNode
           end
         else schemaNode)
  | _ :: body' => named_export body' schemaNode
  end.

(** [ast.program.body.find(...)]: the first top-level declaration of
    [schema]. *)
Fixpoint find_schema_var (body : Program) : option VariableDeclarator :=
  match body with
  | [] => None
  | TopLevel (VariableDeclaration decl _) :: body' =>
      if declares_schema decl then Some decl else find_schema_var body'
  | _ :: body' => find_schema_var body'
  end.

(** Step 2: [export default schema] and [export default { ... }]. *)
Fixpoint default_export (whole body : Program) (schemaNode : option Node)
    : option Node :=
  match body with
  | [] => schemaNode
  | ExportDefaultDeclaration declaration :: body' =>
      default_export whole body'
        match declaration with
        | Identifier name =>
            if String.eqb name "schema" then
              match find_schema_var whole with
              | Some schemaVar =>
                  match vd_init schemaVar with
                  | Some init => Some init
                  | None => schemaNode
                  end
              | None => schemaNode
              end
            else schemaNode
        | ObjectExpression _ => Some declaration
        | _ => schemaNode
        end
  | _ :: body' => default_export whole body' schemaNode
  end.

Definition find_schemaNode (body : Program) : option Node :=
  match named_export body None with
  | Some node => Some node
  | None => default_export body body None
  end.

Definition is_ObjectExpression (node : Node) : bool :=
  match node with
  | ObjectExpression _ => true
  | _ => false
  end.

Definition outcome_bind {A B} (o : Outcome A) (k : A -> Outcome B) : Outcome B :=
  match o with
  | Returns a => k a
  | Throws e => Throws e
  end.

Notation "'let+' x ':=' m 'in' k" := (outcome_bind m (fun x => k))
  (at level 10, x name, m at level 100, k at level 200).

(** The checks made on the converted object. *)
Definition validate_structure (schema : JsVal) : Outcome JsVal :=
  let+ project_id := get_prop schema "project_id" in
  if negb (truthy project_id) || negb (String.eqb (typeof project_id) "string")
  then Throws (Error "Schema must have a project_id string field")
  else
    let+ version := get_prop schema "version" in
    if negb (String.eqb (typeof version) "number")
    then Throws (Error "Schema must have a version number field")
    else
      let+ tables := get_prop schema "tables" in
      if negb (truthy tables) || negb (String.eqb (typeof tables) "object")
      then Throws (Error "Schema must have a tables object field")
      else Returns schema.

Definition rethrow {A} (prefix : string) (o : Outcome A) : Outcome A :=
  match o with
  | Returns a => Returns a
  | Throws e => Throws (Error (prefix +:+ error_message e))
  end.

(** ** The config files on disk *)

(** Why a path cannot be reached at all: one of the directories on the
    way is a file, or may not be searched. *)
Inductive Denial : Type :=
| NotADirectory
| PermissionDenied.

(** What the file system holds at a path.  A path that is not in the map
    does not exist: every call on it fails with ENOENT. *)
Inductive FileEntry : Type :=
| RegularFile (content : string)
| Unreadable                       (* exists, but reading it is refused *)
| Unreachable (why : Denial).      (* no call gets as far as the file *)

Abbreviation FileSystem := (gmap string FileEntry).

Definition ENOENT (syscall path : string) : Thrown :=
  ErrorObj ("ENOENT: no such file or directory, " +:+ syscall +:+ " '" +:+ path +:+ "'")
           (Some "ENOENT").
Definition EACCES (syscall path : string) : Thrown :=
  ErrorObj ("EACCES: permission denied, " +:+ syscall +:+ " '" +:+ path +:+ "'")
           (Some "EACCES").
Definition ENOTDIR (syscall path : string) : Thrown :=
  ErrorObj ("ENOTDIR: not a directory, " +:+ syscall +:+ " '" +:+ path +:+ "'")
           (Some "ENOTDIR").

Definition denied (why : Denial) (syscall path : string) : Thrown :=
  match why with
  | NotADirectory => ENOTDIR syscall path
  | PermissionDenied => EACCES syscall path
  end.

(** [fs.access(path)]: can the file be seen? *)
Definition fs_access (fs : FileSystem) (path : string) : Outcome unit :=
  match fs !! path with
  | Some (Unreachable why) => Throws (denied why "access" path)
  | Some _ => Returns tt
  | None => Throws (ENOENT "access" path)
  end.

(** [fs.readFile(path, 'utf8')] *)
Definition fs_readFile (fs : FileSystem) (path : string) : Outcome string :=
  match fs !! path with
  | Some (RegularFile content) => Returns content
  | Some Unreadable => Throws (EACCES "open" path)
  | Some (Unreachable why) => Throws (denied why "open" path)
  | None => Throws (ENOENT "open" path)
  end.

(** [fs.writeFile(path, content, 'utf8')] *)
Definition fs_writeFile (fs : FileSystem) (path content : string)
    : Outcome unit * FileSystem :=
  match fs !! path with
  | Some Unreadable => (Throws (EACCES "open" path), fs)
  | Some (Unreachable why) => (Throws (denied why "open" path), fs)
  | _ => (Returns tt, <[path := RegularFile content]> fs)
  end.

Definition path_join (dir filename : string) : string :=
  dir +:+ "/" +:+ filename.

Definition endsWith (s suffix : string) : bool :=
  String.prefix (String.rev suffix) (String.rev s).

Definition error_code (e : Thrown) : option string :=
  match e with
  | ErrorObj _ code => code
  | NonError => None
  end.

(** What a parser library answers: a tree, or a SyntaxError (which carries
    no [code] that node's fs would set). *)
Inductive Parsed (A : Type) : Type :=
| ParsedAs (a : A)
| SyntaxError (msg : string).
Arguments ParsedAs {A} a.
Arguments SyntaxError {A} msg.

Definition parsed {A} (p : Parsed A) : Outcome A :=
  match p with
  | ParsedAs a => Returns a
  | SyntaxError msg => Throws (Error msg)
  end.

Definition possibleFiles : list string :=
  ["basic.config.ts"; "basic.config.js"; "basic.config.json"].

Section Parsers.

(** The parsers are libraries outside the repository: [parse] of
    @babel/parser (called with the typescript and jsx plugins) and the
    built-in [JSON.parse]. *)
Variable parse : string -> Parsed Program.
Variable JSON_parse : string -> Parsed JsVal.

Definition extractSchemaFromCode (content : string) : Outcome JsVal :=
  rethrow "Error parsing schema: "
    (let+ body := parsed (parse content) in
     match find_schemaNode body with
     | Some schemaNode =>
         if is_ObjectExpression schemaNode then
           let+ schema := convertAstToObject schemaNode in
           validate_structure schema
         else Throws (Error "Schema export must be an object")
     | None => Throws (Error "Schema export must be an object")
     end).

(** One turn of the loop over [possibleFiles]: the body of the [try]. *)
Definition read_config_file (fs : FileSystem) (targetDir filename : string)
    : Outcome SchemaFileResult :=
  let filePath := path_join targetDir filename in
  let+ _ := fs_access fs filePath in
  let+ content := fs_readFile fs filePath in
  let+ schema :=
    (if endsWith filename ".json"
     then parsed (JSON_parse content)
     else extractSchemaFromCode content) in
  let+ project_id := get_prop schema "project_id" in
  if negb (truthy project_id)
  then Throws (Error "No project_id found in schema")
  else Returns {| schema := schema;
                  projectId := project_id;
                  filePath := filePath |}.

Fixpoint read_first (fs : FileSystem) (targetDir : string)
    (files : list string) : Outcome (option SchemaFileResult) :=
  match files with
  | [] => Returns None
  | filename :: rest =>
      match read_config_file fs targetDir filename with
      | Returns result => Returns (Some result)
      | Throws error =>
          if bool_decide (error_code error = Some "ENOENT")
          then read_first fs targetDir rest
          else Throws (Error ("Error reading " +:+ filename +:+ ": "
                              +:+ error_message error))
      end
  end.

Definition readSchemaFromConfig (fs : FileSystem) (targetDir : string)
    : Outcome (option SchemaFileResult) :=
  read_first fs targetDir possibleFiles.

End Parsers.

(** ** JSON.stringify(value, null, 2) *)

Definition char (n : nat) : ascii := ascii_of_nat n.
Definition newline : string := String (char 10) "".
Definition gap : string := "  ".

Definition hex_digit (n : nat) : ascii :=
  char (if Nat.ltb n 10 then 48 + n else 87 + n).

(** QuoteJSONString, one code unit at a time. *)
Definition quote_char (c : ascii) : string :=
  let n := nat_of_ascii c in
  if Nat.eqb n 8 then "\b"
  else if Nat.eqb n 9 then "\t"
  else if Nat.eqb n 10 then "\n"
  else if Nat.eqb n 12 then "\f"
  else if Nat.eqb n 13 then "\r"
  else if Nat.eqb n 34 then String (char 92) (String (char 34) "")
  else if Nat.eqb n 92 then "\\"
  else if Nat.ltb n 32
  then "\u00" +:+ String (hex_digit (Nat.div n 16)) (String (hex_digit (Nat.modulo n 16)) "")
  else String c "".

Fixpoint quote_body (s : string) : string :=
  match s with
  | EmptyString => ""
  | String c s' => quote_char c +:+ quote_body s'
  end.

Definition quote (s : string) : string :=
  String (char 34) (quote_body s +:+ String (char 34) "").

Fixpoint join (separator : string) (parts : list string) : string :=
  match parts with
  | [] => ""
  | [p] => p
  | p :: rest => p +:+ separator +:+ join separator rest
  end.

(** The elements of an array: [undefined] prints as null. *)
Definition serialize_elements (serialize : string -> JsVal -> option string)
    (indent : string) : list JsVal -> list string :=
  fix each (xs : list JsVal) :=
    match xs with
    | [] => []
    | x :: xs' => default "null" (serialize indent x) :: each xs'
    end.

(** The members of an object: an [undefined] value is skipped. *)
Definition serialize_members (serialize : string -> JsVal -> option string)
    (indent : string) : list (string * JsVal) -> list string :=
  fix each (props : list (string * JsVal)) :=
    match props with
    | [] => []
    | (k, x) :: props' =>
        match serialize indent x with
        | Some strP => (quote k +:+ ": " +:+ strP) :: each props'
        | None => each props'
        end
    end.

(** [open + "\n" + indent + partial.join(",\n" + indent) + "\n" + stepback
    + close], or just [open + close] when there is nothing inside. *)
Definition wrap (open close stepback indent : string) (partial : list string)
    : string :=
  match partial with
  | [] => open +:+ close
  | _ => open +:+ newline +:+ indent
         +:+ join ("," +:+ newline +:+ indent) partial
         +:+ newline +:+ stepback +:+ close
  end.

(** SerializeJSONProperty with the current indentation; [None] stands for
    [undefined].  Property names are taken in insertion order (names that
    are array indices, which JavaScript enumerates first, are not
    reordered). *)
Fixpoint serialize (indent : string) (v : JsVal) : option string :=
  match v with
  | JUndefined => None
  | JNull => Some "null"
  | JBool b => Some (if b then "true" else "false")
  | JNum n => Some (pretty n)
  | JStr s => Some (quote s)
  | JArr xs =>
      Some (wrap "[" "]" indent (indent +:+ gap)
              (serialize_elements serialize (indent +:+ gap) xs))
  | JObj props =>
      Some (wrap "{" "}" indent (indent +:+ gap)
              (serialize_members serialize (indent +:+ gap) props))
  end.

(** [`${JSON.stringify(value, null, 2)}`] *)
Definition JSON_stringify (value : JsVal) : string :=
  default "undefined" (serialize "" value).

(** ** Regular expressions, as far as updateSchemaInCode uses them *)

Inductive Regex : Type :=
| Chars (text : string)              (* literal characters *)
| Class (p : ascii -> bool)          (* one character of a class *)
| Star (p : ascii -> bool)           (* [p*], greedy *)
| Seq (r1 r2 : Regex)
| Group (r : Regex).                 (* a capturing group *)

(** [p+], greedy *)
Definition Plus (p : ascii -> bool) : Regex := Seq (Class p) (Star p).

(** [\s] on code units below 256 *)
Definition white_space (c : ascii) : bool :=
  let n := nat_of_ascii c in
  (Nat.leb 9 n && Nat.leb n 13) || Nat.eqb n 32 || Nat.eqb n 160.

(** [[^;]] *)
Definition not_semicolon (c : ascii) : bool :=
  negb (Ascii.eqb c ";").

Fixpoint strip_prefix (text s : string) : option string :=
  match text, s with
  | EmptyString, _ => Some s
  | String a text', String b s' =>
      if Ascii.eqb a b then strip_prefix text' s' else None
  | String _ _, EmptyString => None
  end.

(** The text consumed between two positions of the same string. *)
Definition consumed (from to : string) : string :=
  substring 0 (String.length from - String.length to) from.

Section Matcher.

Context {R : Type}.

(** Greedy repetition with backtracking: the longest run first. *)
Fixpoint star (p : ascii -> bool) (s : string) (k : string -> option R)
    : option R :=
  match s with
  | String c s' =>
      if p c then
        match star p s' k with
        | Some r => Some r
        | None => k s
        end
      else k s
  | EmptyString => k s
  end.

(** A backtracking matcher in continuation-passing style: [k] receives
    the rest of the input and the captures made so far. *)
Fixpoint run (r : Regex) (s : string) (caps : list string)
    (k : string -> list string -> option R) : option R :=
  match r with
  | Chars text =>
      match strip_prefix text s with
      | Some s' => k s' caps
      | None => None
      end
  | Class p =>
      match s with
      | String c s' => if p c then k s' caps else None
      | EmptyString => None
      end
  | Star p => star p s (fun s' => k s' caps)
  | Seq r1 r2 => run r1 s caps (fun s' caps' => run r2 s' caps' k)
  | Group r' => run r' s caps (fun s' caps' => k s' (caps' ++ [consumed s s']))
  end.

End Matcher.

(** A match anchored at the start of [s]: the captures and what follows. *)
Definition match_here (r : Regex) (s : string) : option (list string * string) :=
  run r s [] (fun rest caps => Some (caps, rest)).

(** [pattern.test(content)] for a fresh pattern: is there a match anywhere? *)
Fixpoint test (r : Regex) (s : string) : bool :=
  match match_here r s with
  | Some _ => true
  | None =>
      match s with
      | String _ s' => test r s'
      | EmptyString => false
      end
  end.

Definition is_digit (c : ascii) : bool :=
  let n := nat_of_ascii c in Nat.leb 48 n && Nat.leb n 57.

Definition digit_value (c : ascii) : nat := nat_of_ascii c - 48.

(** [$n]: the n-th capture, counted from 1. *)
Definition capture (caps : list string) (index : nat) : string :=
  nth (index - 1) caps "".

(** GetSubstitution: the replacement text with its [$] patterns expanded. *)
Fixpoint expand (template matched before after : string) (caps : list string)
    : string :=
  match template with
  | EmptyString => ""
  | String c t1 =>
      if negb (Ascii.eqb c "$") then String c (expand t1 matched before after caps)
      else
        match t1 with
        | EmptyString => "$"
        | String d1 t2 =>
            if Ascii.eqb d1 "$" then "$" +:+ expand t2 matched before after caps
            else if Ascii.eqb d1 "&" then matched +:+ expand t2 matched before after caps
            else if Ascii.eqb d1 "`" then before +:+ expand t2 matched before after caps
            else if Ascii.eqb d1 "'" then after +:+ expand t2 matched before after caps
            else if is_digit d1 then
              let one_digit :=
                let index := digit_value d1 in
                (if Nat.leb 1 index && Nat.leb index (length caps)
                 then capture caps index
                 else String "$" (String d1 ""))
                +:+ expand t2 matched before after caps in
              match t2 with
              | String d2 t3 =>
                  if is_digit d2 then
                    let index := (10 * digit_value d1 + digit_value d2)%nat in
                    if Nat.ltb (length caps) index then one_digit
                    else
                      (if Nat.leb 1 index
                       then capture caps index
                       else String "$" (String d1 (String d2 "")))
                      +:+ expand t3 matched before after caps
                  else one_digit
              | EmptyString => one_digit
              end
            else "$" +:+ expand t1 matched before after caps
        end
  end.

(** [content.replace(pattern, template)] for a global pattern: scan from
    the left; [before] is the text already passed, [skip] the number of
    characters of the current match still to step over. *)
Fixpoint replace_all (r : Regex) (template before : string) (skip : nat)
    (s : string) : string :=
  match s with
  | EmptyString =>
      match skip, match_here r s with
      | O, Some (caps, rest) => expand template "" before rest caps
      | _, _ => ""
      end
  | String c s' =>
      match skip with
      | S n => replace_all r template (before +:+ String c "") n s'
      | O =>
          match match_here r s with
          | Some (caps, rest) =>
              let matched := consumed s rest in
              expand template matched before rest caps +:+
              match String.length matched with
              | O => String c (replace_all r template (before +:+ String c "") 0 s')
              | S n => replace_all r template (before +:+ String c "") n s'
              end
          | None => String c (replace_all r template (before +:+ String c "") 0 s')
          end
      end
  end.

(** ** updateSchemaInCode, generateConfigContent, saveSchemaToConfig *)

(** The shape shared by the three patterns: group 1 is the words of the
    declaration, optional white space, [=], optional white space; group 2 is
    [{], one or more characters other than [;], [}]; group 3 is [;]. *)
Definition assignment_of (words : Regex) : Regex :=
  Seq (Group (Seq words
               (Seq (Star white_space) (Seq (Chars "=") (Star white_space)))))
      (Seq (Group (Seq (Chars "{") (Seq (Plus not_semicolon) (Chars "}"))))
           (Group (Chars ";"))).

Definition patterns : list Regex :=
  [ (* const, white space, schema *)
    assignment_of (Seq (Chars "const") (Seq (Plus white_space) (Chars "schema")));
    (* export, white space, const, white space, schema *)
    assignment_of (Seq (Chars "export")
                    (Seq (Plus white_space)
                       (Seq (Chars "const") (Seq (Plus white_space) (Chars "schema")))));
    (* schema *)
    assignment_of (Chars "schema") ].

Fixpoint replace_first_matching (patterns : list Regex) (content template : string)
    : Outcome string :=
  match patterns with
  | [] => Throws (Error "Could not update schema in config file")
  | pattern :: rest =>
      if test pattern content
      then Returns (replace_all pattern template "" 0 content)
      else replace_first_matching rest content template
  end.

Definition updateSchemaInCode (content : string) (newSchema : Schema)
    : Outcome string :=
  let schemaStr := JSON_stringify newSchema in
  replace_first_matching patterns content ("$1" +:+ schemaStr +:+ "$3").

Definition generateConfigContent (schema : Schema) : string :=
  "// Basic Project Configuration" +:+ newline +:+
  "// see the docs for more info: https://docs.basic.tech" +:+ newline +:+
  newline +:+
  "const schema = " +:+ JSON_stringify schema +:+ ";" +:+ newline +:+
  newline +:+
  "export default schema;" +:+ newline.

Section Saving.

Variable parse : string -> Parsed Program.
Variable JSON_parse : string -> Parsed JsVal.

(** The outcome is the path written to; the file system is returned as
    the call leaves it. *)
Definition saveSchemaToConfig (schema : Schema) (fs : FileSystem)
    (targetDir : string) : Outcome string * FileSystem :=
  match readSchemaFromConfig parse JSON_parse fs targetDir with
  | Throws e => (Throws e, fs)
  | Returns (Some existing) =>
      match fs_readFile fs (filePath existing) with
      | Throws e => (Throws e, fs)
      | Returns content =>
          match updateSchemaInCode content schema with
          | Throws e => (Throws e, fs)
          | Returns updatedContent =>
              match fs_writeFile fs (filePath existing) updatedContent with
              | (Returns _, fs') => (Returns (filePath existing), fs')
              | (Throws e, fs') => (Throws e, fs')
              end
          end
      end
  | Returns None =>
      let filePath := path_join targetDir "basic.config.ts" in
      let content := generateConfigContent schema in
      match fs_writeFile fs filePath content with
      | (Returns _, fs') => (Returns filePath, fs')
      | (Throws e, fs') => (Throws e, fs')
      end
  end.

End Saving.

(** ** Stand-ins for the parser libraries in the examples

    A parser that knows the listed texts only; each entry pairs a text with
    the value the library returns for it. *)
Fixpoint parser_table {A} (table : list (string * A)) (content : string)
    : Parsed A :=
  match table with
  | [] => SyntaxError "Unexpected token"
  | (text, a) :: rest =>
      if String.eqb text content then ParsedAs a else parser_table rest content
  end.

(** The text [{"project_id":"p1","version":"1","tables":{}}]. *)
Definition json_with_string_version : string :=
  "{" +:+ quote "project_id" +:+ ":" +:+ quote "p1" +:+ ","
      +:+ quote "version" +:+ ":" +:+ quote "1" +:+ ","
      +:+ quote "tables" +:+ ":{}}".

Definition value_with_string_version : JsVal :=
  JObj [("project_id", JStr "p1"); ("version", JStr "1"); ("tables", JObj [])].

Definition only_json_config (content : string) : FileSystem :=
  {[ path_join "." "basic.config.json" := RegularFile content ]}.

(** ** Notions used to state the round trip *)

Fixpoint all_chars (p : ascii -> bool) (s : string) : bool :=
  match s with
  | EmptyString => true
  | String c s' => p c && all_chars p s'
  end.

(** The words a regular expression matches, with the captures made. *)
Inductive Matches : Regex -> string -> list string -> Prop :=
| Matches_chars text : Matches (Chars text) text []
| Matches_class p c : p c = true -> Matches (Class p) (String c "") []
| Matches_star p w : all_chars p w = true -> Matches (Star p) w []
| Matches_seq r1 r2 w1 w2 c1 c2 :
    Matches r1 w1 c1 -> Matches r2 w2 c2 ->
    Matches (Seq r1 r2) (w1 +:+ w2) (c1 ++ c2)
| Matches_group r w c : Matches r w c -> Matches (Group r) w (c ++ [w]).

Fixpoint groups (r : Regex) : nat :=
  match r with
  | Chars _ | Class _ | Star _ => 0
  | Seq r1 r2 => groups r1 + groups r2
  | Group r' => S (groups r')
  end.

(** The region the patterns take for the schema literal: an opening brace,
    at least one character, none of them a semicolon, a closing brace. *)
Definition object_region (g : string) : Prop :=
  exists body, g = "{" +:+ body +:+ "}" /\ body <> "" /\
               all_chars not_semicolon body = true.

(** [regions_replaced J n old new]: [new] is [old] with [n] object regions,
    each followed by a semicolon, replaced by [J]; every other character is
    kept in place. *)
Inductive regions_replaced (J : string) : nat -> string -> string -> Prop :=
| rr_end : regions_replaced J 0 "" ""
| rr_keep c n s s' :
    regions_replaced J n s s' ->
    regions_replaced J n (String c s) (String c s')
| rr_region g n s s' :
    object_region g ->
    regions_replaced J n s s' ->
    regions_replaced J (S n) (g +:+ ";" +:+ s) (J +:+ ";" +:+ s').

(** The expression a parser of JavaScript reads in the text that
    [JSON.stringify] prints for a value: a negative number is a unary
    minus applied to a literal. *)
Definition literal_members (literal_of : JsVal -> Node)
    : list (string * JsVal) -> list (ObjectMember Node) :=
  fix each (props : list (string * JsVal)) :=
    match props with
    | [] => []
    | (k, JUndefined) :: props' => each props'
    | (k, x) :: props' => ObjectProperty (StringLiteral k) (literal_of x) :: each props'
    end.

Fixpoint literal_of (v : JsVal) : Node :=
  match v with
  | JUndefined => Identifier "undefined"
  | JNull => NullLiteral
  | JBool b => BooleanLiteral b
  | JNum n => if 0 <=? n then NumericLiteral n else OtherNode "UnaryExpression"
  | JStr s => StringLiteral s
  | JArr xs =>
      ArrayExpression
        (map (fun x => Some match x with
                            | JUndefined => NullLiteral
                            | _ => literal_of x
                            end) xs)
  | JObj props => ObjectExpression (literal_members literal_of props)
  end.

Fixpoint distinct (keys : list string) : bool :=
  match keys with
  | [] => true
  | k :: rest => negb (existsb (String.eqb k) rest) && distinct rest
  end.

(** An array index written canonically: 0, or digits not starting with 0. *)
Definition is_array_index (k : string) : bool :=
  match k with
  | EmptyString => false
  | String c rest =>
      all_chars is_digit k && (negb (Ascii.eqb c "0") || String.eqb rest "")
  end.

Definition ordinary_key (k : string) : bool :=
  negb (String.eqb k "__proto__") && negb (is_array_index k).

(** Values that survive printing and re-reading unchanged: no [undefined],
    no negative number, and objects with distinct ordinary keys. *)
Fixpoint plain (v : JsVal) : bool :=
  match v with
  | JUndefined => false
  | JNull | JBool _ | JStr _ => true
  | JNum n => 0 <=? n
  | JArr xs => forallb plain xs
  | JObj props =>
      distinct (map fst props) &&
      forallb (fun kv => ordinary_key (fst kv) && plain (snd kv)) props
  end.

(** A well-formed schema: a plain object with a non-empty string
    [project_id], a numeric [version] and a [tables] object. *)
Definition well_formed (schema : Schema) : Prop :=
  plain schema = true /\
  exists props pid n tbl,
    schema = JObj props /\
    lookup_prop "project_id" props = JStr pid /\ pid <> "" /\
    lookup_prop "version" props = JNum n /\
    lookup_prop "tables" props = JObj tbl.

Definition no_dollar (s : string) : bool :=
  all_chars (fun c => negb (Ascii.eqb c "$")) s.

(** The parser for a file's format reads the saved schema in [text]: the
    JSON value itself for basic.config.json, otherwise a program whose
    schema node is the literal that was printed. *)
Definition reads_back (parse : string -> Parsed Program)
    (JSON_parse : string -> Parsed JsVal) (filename text : string)
    (schema : Schema) : Prop :=
  if endsWith filename ".json"
  then JSON_parse text = ParsedAs schema
  else exists body, parse text = ParsedAs body /\
                    find_schemaNode body = Some (literal_of schema).

(** A hand-written basic.config.ts, and what babel reads in it once
    [schema_at 2] has been saved over its literal. *)
Definition ts_config_text : string :=
  "// my project" +:+ newline +:+
  "const schema = { project_id: 'p1', version: 1, tables: {} };" +:+ newline +:+
  "export default schema;" +:+ newline.

Definition ts_config_body (literal : Node) : Program :=
  [ TopLevel (VariableDeclaration
                {| vd_id := Identifier "schema"; vd_init := Some literal |} []);
    ExportDefaultDeclaration (Identifier "schema") ].

Definition ts_config_literal : Node :=
  ObjectExpression
    [ ObjectProperty (Identifier "project_id") (StringLiteral "p1");
      ObjectProperty (Identifier "version") (NumericLiteral 1);
      ObjectProperty (Identifier "tables") (ObjectExpression []) ].

Definition ts_config_saved : string :=
  "// my project" +:+ newline +:+
  "const schema = " +:+ JSON_stringify (schema_at 2) +:+ ";" +:+ newline +:+
  "export default schema;" +:+ newline.

Definition babel_stand_in : string -> Parsed Program :=
  parser_table
    [ (ts_config_text, ts_config_body ts_config_literal);
      (ts_config_saved, ts_config_body (literal_of (schema_at 2))) ].

Definition only_ts_config (content : string) : FileSystem :=
  {[ path_join "." "basic.config.ts" := RegularFile content ]}.

(** ** The commands as state machines *)

(** src/lib/constants.ts *)
Definition MESSAGES_OFFLINE : string :=
  "you are offline. please check your internet connection.".
Definition MESSAGES_LOGGED_OUT : string :=
  "you are not logged in. please login with 'basic login'".

(** [error instanceof Error ? error.message : fallback] *)
Definition message_or (fallback : string) (e : Thrown) : string :=
  match e with
  | ErrorObj m _ => m
  | NonError => fallback
  end.

(** What a command finds around it: the network, the token store, the API
    and the parser libraries.  [getToken] is the answer of
    authService.getToken() only: the refresh of an expired token, which
    rewrites the token file in the user's configuration directory, is not
    part of the embedding. *)
Record Env : Type := {
  isOnline : bool;
  getToken : Outcome bool;            (* [true]: a token is stored *)
  apiClient : ApiClient;
  babel_parse : string -> Parsed Program;
  json_parse : string -> Parsed JsVal;
  cwd : string
}.

(** What a command can change: the files of the project directory, and the
    calls it has made.  The token file is not among [files]. *)
Record World : Type := {
  files : FileSystem;
  calls : list ApiCall;
  saves : list Schema               (* invocations of saveSchemaToConfig *)
}.

(** A key press as ink's [useInput] reports it. *)
Record Key : Type := {
  input : string;
  upArrow : bool;
  downArrow : bool;
  return_ : bool;
  escape : bool
}.

Inductive Choice : Type := yes | no.

Definition toggle (c : Choice) : Choice :=
  match c with yes => no | no => yes end.

(** The schema assumed when the project has none remotely. *)
Definition empty_remote (projectId : JsVal) : Schema :=
  JObj [("project_id", projectId); ("version", JNum 0); ("tables", JObj [])].

Definition no_schema_result : ActionResult :=
  {| status := NoSchema;
     ar_projectId := JStr "";
     localVersion := 0;
     remoteVersion := 0;
     message := ["No schema found in config files";
                 "Run 'basic init' to create a new project or import an existing project"];
     needsConfirmation := false;
     confirmationTitle := "";
     confirmationMessage := "";
     validationErrors := None |}.

Record TransferResult : Type := {
  tr_projectId : JsVal;
  oldVersion : Z;
  newVersion : Z;
  tr_filePath : string
}.

Module PushApp.

Inductive Phase : Type :=
| checking | confirming | pushing | success | error | no_action.

Record PushState : Type := {
  phase : Phase;
  error_text : option string;
  statusResult : option ActionResult;
  pushResult : option TransferResult
}.

Definition initial : PushState :=
  {| phase := checking; error_text := None;
     statusResult := None; pushResult := None |}.

Definition failed (msg : string) : PushState :=
  {| phase := error; error_text := Some msg;
     statusResult := None; pushResult := None |}.

(** [setState(prev => ({ ...prev, phase }))] *)
Definition with_phase (prev : PushState) (p : Phase) : PushState :=
  {| phase := p; error_text := error_text prev;
     statusResult := statusResult prev; pushResult := pushResult prev |}.

(** The effect run on mount; it sets the state once. *)
Definition checkPushStatus (env : Env) (w : World) : PushState * World :=
  if negb (isOnline env) then (failed MESSAGES_OFFLINE, w)
  else
    match getToken env with
    | Throws e => (failed (message_or "Failed to check push status" e), w)
    | Returns false => (failed MESSAGES_LOGGED_OUT, w)
    | Returns true =>
        match readSchemaFromConfig (babel_parse env) (json_parse env)
                (files w) (cwd env) with
        | Throws e => (failed (message_or "Failed to check push status" e), w)
        | Returns None =>
            ({| phase := no_action; error_text := None;
                statusResult := Some no_schema_result; pushResult := None |}, w)
        | Returns (Some localConfig) =>
            let pid := js_to_string (projectId localConfig) in
            let w1 := {| files := files w;
                         calls := calls w ++ [GetProjectSchemaCall pid];
                         saves := saves w |} in
            match getProjectSchema (apiClient env) pid with
            | Throws e =>
                (failed ("Error fetching remote schema: " +:+ error_message e), w1)
            | Returns fetched =>
                let remoteSchema :=
                  match fetched with
                  | Some s => s
                  | None => empty_remote (projectId localConfig)
                  end in
                let comparison := compareVersions (schema localConfig) remoteSchema in
                match analyzePushAction localConfig remoteSchema comparison
                        (apiClient env) (calls w1) with
                | (Returns result, log) =>
                    ({| phase := if needsConfirmation result
                                 then confirming else no_action;
                        error_text := None;
                        statusResult := Some result;
                        pushResult := None |},
                     {| files := files w1; calls := log; saves := saves w1 |})
                | (Throws e, log) =>
                    (failed (message_or "Failed to check push status" e),
                     {| files := files w1; calls := log; saves := saves w1 |})
                end
            end
        end
    end.

(** What follows [setState(prev => ({ ...prev, phase: 'pushing' }))] in
    handlePush: the state it finally sets. *)
Definition push_now (env : Env) (state : PushState) (w : World)
    : PushState * World :=
  match statusResult state with
  | None => (failed "No status result available", w)
  | Some result =>
      match readSchemaFromConfig (babel_parse env) (json_parse env)
              (files w) (cwd env) with
      | Throws e => (failed (message_or "Failed to push schema" e), w)
      | Returns None => (failed "Local schema not found", w)
      | Returns (Some localConfig) =>
          let pid := js_to_string (projectId localConfig) in
          let w1 := {| files := files w;
                       calls := calls w ++
                                [PushProjectSchemaCall pid (schema localConfig)];
                       saves := saves w |} in
          match pushProjectSchema (apiClient env) pid (schema localConfig) with
          | Throws e => (failed (message_or "Failed to push schema" e), w1)
          | Returns _ =>
              ({| phase := success; error_text := None;
                  statusResult := None;
                  pushResult :=
                    Some {| tr_projectId := projectId localConfig;
                            oldVersion := remoteVersion result;
                            newVersion := or_zero (version (schema localConfig));
                            tr_filePath := filePath localConfig |} |}, w1)
          end
      end
  end.

(** The running command: its state, the highlighted answer, the world,
    and every state it has set so far, oldest first. *)
Record App : Type := {
  state : PushState;
  selectedOption : Choice;
  world : World;
  history : list PushState
}.

Definition set_state (app : App) (s : PushState) (w : World) : App :=
  {| state := s; selectedOption := selectedOption app;
     world := w; history := history app ++ [s] |}.

Definition handlePush (env : Env) (app : App) : App :=
  let app1 := set_state app (with_phase (state app) pushing) (world app) in
  let (final, w) := push_now env (state app) (world app) in
  set_state app1 final w.

(** The [useInput] handler. *)
Definition useInput (env : Env) (app : App) (key : Key) : App :=
  match phase (state app) with
  | confirming =>
      if upArrow key || downArrow key then
        {| state := state app; selectedOption := toggle (selectedOption app);
           world := world app; history := history app |}
      else if return_ key then
        match selectedOption app with
        | yes => handlePush env app
        | no => set_state app (with_phase (state app) no_action) (world app)
        end
      else if escape key || String.eqb (input key) "q" then
        set_state app (with_phase (state app) no_action) (world app)
      else app
  | _ => app
  end.

Definition mount (env : Env) (fs : FileSystem) : App :=
  let w := {| files := fs; calls := []; saves := [] |} in
  let (s, w') := checkPushStatus env w in
  {| state := s; selectedOption := yes; world := w'; history := [initial; s] |}.

Definition run (env : Env) (fs : FileSystem) (keys : list Key) : App :=
  fold_left (useInput env) keys (mount env fs).

End PushApp.

Module PullApp.

Inductive Phase : Type :=
| checking | confirming | pulling | success | error | no_action.

Record PullState : Type := {
  phase : Phase;
  error_text : option string;
  statusResult : option ActionResult;
  pullResult : option TransferResult
}.

Definition initial : PullState :=
  {| phase := checking; error_text := None;
     statusResult := None; pullResult := None |}.

Definition failed (msg : string) : PullState :=
  {| phase := error; error_text := Some msg;
     statusResult := None; pullResult := None |}.

Definition with_phase (prev : PullState) (p : Phase) : PullState :=
  {| phase := p; error_text := error_text prev;
     statusResult := statusResult prev; pullResult := pullResult prev |}.

Definition checkPullStatus (env : Env) (w : World) : PullState * World :=
  if negb (isOnline env) then (failed MESSAGES_OFFLINE, w)
  else
    match getToken env with
    | Throws e => (failed (message_or "Failed to check pull status" e), w)
    | Returns false => (failed MESSAGES_LOGGED_OUT, w)
    | Returns true =>
        match readSchemaFromConfig (babel_parse env) (json_parse env)
                (files w) (cwd env) with
        | Throws e => (failed (message_or "Failed to check pull status" e), w)
        | Returns None =>
            ({| phase := no_action; error_text := None;
                statusResult := Some no_schema_result; pullResult := None |}, w)
        | Returns (Some localConfig) =>
            let pid := js_to_string (projectId localConfig) in
            let w1 := {| files := files w;
                         calls := calls w ++ [GetProjectSchemaCall pid];
                         saves := saves w |} in
            match getProjectSchema (apiClient env) pid with
            | Throws e =>
                (failed ("Error fetching remote schema: " +:+ error_message e), w1)
            | Returns fetched =>
                let remoteSchema :=
                  match fetched with
                  | Some s => s
                  | None => empty_remote (projectId localConfig)
                  end in
                let comparison := compareVersions (schema localConfig) remoteSchema in
                match analyzePullAction localConfig remoteSchema comparison
                        (apiClient env) (calls w1) with
                | (Returns result, log) =>
                    ({| phase := if needsConfirmation result
                                 then confirming else no_action;
                        error_text := None;
                        statusResult := Some result;
                        pullResult := None |},
                     {| files := files w1; calls := log; saves := saves w1 |})
                | (Throws e, log) =>
                    (failed (message_or "Failed to check pull status" e),
                     {| files := files w1; calls := log; saves := saves w1 |})
                end
            end
        end
    end.

(** What follows [setState(prev => ({ ...prev, phase: 'pulling' }))] in
    handlePull. *)
Definition pull_now (env : Env) (state : PullState) (w : World)
    : PullState * World :=
  match statusResult state with
  | None => (failed "No status result available", w)
  | Some _ =>
      match readSchemaFromConfig (babel_parse env) (json_parse env)
              (files w) (cwd env) with
      | Throws e => (failed (message_or "Failed to pull schema" e), w)
      | Returns None => (failed "Local schema not found", w)
      | Returns (Some localConfig) =>
          let pid := js_to_string (projectId localConfig) in
          let w1 := {| files := files w;
                       calls := calls w ++ [GetProjectSchemaCall pid];
                       saves := saves w |} in
          match getProjectSchema (apiClient env) pid with
          | Throws e => (failed (message_or "Failed to pull schema" e), w1)
          | Returns None => (failed "Remote schema not found", w1)
          | Returns (Some remoteSchema) =>
              match saveSchemaToConfig (babel_parse env) (json_parse env)
                      remoteSchema (files w1) (cwd env) with
              | (Throws e, fs') =>
                  (failed (message_or "Failed to pull schema" e),
                   {| files := fs'; calls := calls w1;
                      saves := saves w1 ++ [remoteSchema] |})
              | (Returns path, fs') =>
                  ({| phase := success; error_text := None;
                      statusResult := None;
                      pullResult :=
                        Some {| tr_projectId := projectId localConfig;
                                oldVersion := or_zero (version (schema localConfig));
                                newVersion := or_zero (version remoteSchema);
                                tr_filePath := path |} |},
                   {| files := fs'; calls := calls w1;
                      saves := saves w1 ++ [remoteSchema] |})
              end
          end
      end
  end.

Record App : Type := {
  state : PullState;
  selectedOption : Choice;
  world : World;
  history : list PullState
}.

Definition set_state (app : App) (s : PullState) (w : World) : App :=
  {| state := s; selectedOption := selectedOption app;
     world := w; history := history app ++ [s] |}.

Definition handlePull (env : Env) (app : App) : App :=
  let app1 := set_state app (with_phase (state app) pulling) (world app) in
  let (final, w) := pull_now env (state app) (world app) in
  set_state app1 final w.

Definition useInput (env : Env) (app : App) (key : Key) : App :=
  match phase (state app) with
  | confirming =>
      if upArrow key || downArrow key then
        {| state := state app; selectedOption := toggle (selectedOption app);
           world := world app; history := history app |}
      else if return_ key then
        match selectedOption app with
        | yes => handlePull env app
        | no => set_state app (with_phase (state app) no_action) (world app)
        end
      else if escape key || String.eqb (input key) "q" then
        set_state app (with_phase (state app) no_action) (world app)
      else app
  | _ => app
  end.

Definition mount (env : Env) (fs : FileSystem) : App :=
  let w := {| files := fs; calls := []; saves := [] |} in
  let (s, w') := checkPullStatus env w in
  {| state := s; selectedOption := yes; world := w'; history := [initial; s] |}.

Definition run (env : Env) (fs : FileSystem) (keys : list Key) : App :=
  fold_left (useInput env) keys (mount env fs).

(** The user declines: Enter on "No, cancel", or Escape or q (when the
    key is neither an arrow nor Enter). *)
Definition declines (selected : Choice) (key : Key) : bool :=
  negb (upArrow key || downArrow key) &&
  (if return_ key
   then match selected with no => true | yes => false end
   else escape key || String.eqb (input key) "q").

End PullApp.

(** Nothing has been written by the pull command and no save was
    attempted. *)
Definition untouched (fs : FileSystem) (app : PullApp.App) : Prop :=
  files (PullApp.world app) = fs /\
  saves (PullApp.world app) = [] /\
  Forall (fun s => PullApp.phase s <> PullApp.pulling) (PullApp.history app).

(** Keys and an environment for the examples. *)
Definition plain_key : Key :=
  {| input := ""; upArrow := false; downArrow := false;
     return_ := false; escape := false |}.
Definition key_down : Key :=
  {| input := ""; upArrow := false; downArrow := true;
     return_ := false; escape := false |}.
Definition key_enter : Key :=
  {| input := ""; upArrow := false; downArrow := false;
     return_ := true; escape := false |}.
Definition key_escape : Key :=
  {| input := ""; upArrow := false; downArrow := false;
     return_ := false; escape := true |}.

(** Logged in and online, in a directory holding [ts_config_text] (version
    1), with the given schema published remotely. *)
Definition env_with_remote (remote : option Schema) : Env :=
  {| isOnline := true;
     getToken := Returns true;
     apiClient := {| getProjectSchema := fun _ => Returns remote;
                     pushProjectSchema := fun _ _ => Returns tt;
                     validateSchema := fun _ => answer_valid;
                     compareSchema := fun _ => answer_differs |};
     babel_parse := babel_stand_in;
     json_parse := parser_table [];
     cwd := "." |}.

(** ** Further notions used to state properties of the code *)

(** The initializer a statement gives to an exported constant [schema],
    as step 1 of extractSchemaFromCode sees it. *)
Definition exported_schema (st : Statement) : option Node :=
  match st with
  | ExportNamedDeclaration (Some (VariableDeclaration variable _)) =>
      if declares_schema variable then vd_init variable else None
  | _ => None
  end.

(** A program without any export statement. *)
Definition no_exports (body : Program) : bool :=
  forallb (fun st => match st with
                     | TopLevel _ | OtherStatement _ => true
                     | _ => false
                     end) body.

(** Values without [undefined] whose objects have distinct keys. *)
Fixpoint tidy (v : JsVal) : bool :=
  match v with
  | JUndefined => false
  | JNull | JBool _ | JNum _ | JStr _ => true
  | JArr xs => forallb tidy xs
  | JObj props =>
      distinct (map fst props) && forallb (fun kv => tidy (snd kv)) props
  end.

(** A basic.config.ts whose export is not an object, next to a good
    basic.config.js. *)
Definition broken_ts_text : string := "export default 42;".

Definition good_js_text : string :=
  "export const schema = { project_id: 'p1', version: 1, tables: {} };".

Definition two_config_files : FileSystem :=
  <[ path_join "." "basic.config.js" := RegularFile good_js_text ]>
    (only_ts_config broken_ts_text).

Definition babel_for_two_files : string -> Parsed Program :=
  parser_table
    [ (broken_ts_text, [ExportDefaultDeclaration (NumericLiteral 42)]);
      (good_js_text,
       [ExportNamedDeclaration
          (Some (VariableDeclaration
                   {| vd_id := Identifier "schema";
                      vd_init := Some ts_config_literal |} []))]) ].

(** A program that exports an inline default object and, after it, the
    constant [schema]. *)
Definition both_exports (init : Node) : Program :=
  [ ExportDefaultDeclaration (ObjectExpression []);
    ExportNamedDeclaration
      (Some (VariableDeclaration
               {| vd_id := Identifier "schema"; vd_init := Some init |} [])) ].

(** An object literal that names the key [a] twice. *)
Definition repeated_key_literal : list (ObjectMember Node) :=
  [ ObjectProperty (Identifier "a") (NumericLiteral 1);
    ObjectProperty (Identifier "b") (NumericLiteral 2);
    ObjectProperty (StringLiteral "a") (NumericLiteral 3) ].

(** The words every pattern of updateSchemaInCode ends its first group
    with: [schema], optional white space, [=], optional white space. *)
Definition schema_equals : Regex :=
  Seq (Chars "schema")
      (Seq (Star white_space) (Seq (Chars "=") (Star white_space))).

(** The text holds an assignment of an object region to [schema], closed
    by a semicolon. *)
Definition has_schema_assignment (content : string) : Prop :=
  exists before w g after,
    content = before +:+ w +:+ g +:+ ";" +:+ after /\
    Matches schema_equals w [] /\ object_region g.

(** ** What the commands show (the text parts of the display components) *)

Module PushStatusDisplay.

(** getStatusDescription of PushStatusDisplay (src/commands/push.tsx) *)
Definition getStatusDescription (st : Status) : string :=
  match st with
  | Current => "Schema is up to date"
  | Behind => "Local schema is behind remote"
  | Invalid => "Schema has validation errors"
  | NoSchema => "No schema file found"
  | _ => "Unknown status"
  end.

Definition getStatusColor (st : Status) : string :=
  match st with
  | Current => "green"
  | Behind => "yellow"
  | Invalid => "red"
  | NoSchema => "gray"
  | _ => "white"
  end.

Definition getNextSteps (st : Status) : list string :=
  match st with
  | Current =>
      ["Continue working on your project";
       "Run 'basic status' to check for changes";
       "Make schema modifications if needed"]
  | Behind =>
      ["Run 'basic pull' to get the latest changes";
       "Or run 'basic status' for more details"]
  | Invalid =>
      ["Fix the validation errors shown below";
       "Run 'basic status' again after fixing errors";
       "Review your schema syntax and field definitions"]
  | NoSchema =>
      ["Run 'basic init' to create a new project or import an existing project";
       "Make sure you're in a directory with a basic.config.ts/js file"]
  | _ => []
  end.

End PushStatusDisplay.

Module PullStatusDisplay.

(** getStatusDescription of PullStatusDisplay (src/commands/pull.tsx) *)
Definition getStatusDescription (st : Status) : string :=
  match st with
  | Current => "Schema is up to date"
  | Ahead => "Local schema is ahead"
  | Conflict => "Schema conflicts detected"
  | NoSchema => "No schema file found"
  | _ => "Unknown status"
  end.

Definition getStatusColor (st : Status) : string :=
  match st with
  | Current => "green"
  | Ahead => "blue"
  | Conflict => "magenta"
  | NoSchema => "gray"
  | _ => "white"
  end.

Definition getNextSteps (st : Status) : list string :=
  match st with
  | Current =>
      ["Continue working on your project";
       "Run 'basic status' to check for changes";
       "Make schema modifications if needed"]
  | Ahead =>
      ["Run 'basic push' to publish your changes";
       "Or run 'basic status' for more details"]
  | Conflict =>
      ["Run 'basic pull' again to override local changes";
       "Or run 'basic status' to understand the differences";
       "Consider backing up your local changes first"]
  | NoSchema =>
      ["Run 'basic init' to create a new project or import an existing project";
       "Make sure you're in a directory with a basic.config.ts/js file"]
  | _ => []
  end.

End PullStatusDisplay.

(** The exit the render of a state schedules: [process.exit(1)] for the
    error phase, [process.exit(0)] for success with a result and for
    no-action with a status; [None] where nothing is scheduled. *)
Definition push_exit_code (s : PushApp.PushState) : option Z :=
  match PushApp.phase s with
  | PushApp.checking | PushApp.pushing => None
  | PushApp.error => Some 1
  | PushApp.success =>
      match PushApp.pushResult s with Some _ => Some 0 | None => None end
  | PushApp.confirming => None
  | PushApp.no_action =>
      match PushApp.statusResult s with Some _ => Some 0 | None => None end
  end.

Definition pull_exit_code (s : PullApp.PullState) : option Z :=
  match PullApp.phase s with
  | PullApp.checking | PullApp.pulling => None
  | PullApp.error => Some 1
  | PullApp.success =>
      match PullApp.pullResult s with Some _ => Some 0 | None => None end
  | PullApp.confirming => None
  | PullApp.no_action =>
      match PullApp.statusResult s with Some _ => Some 0 | None => None end
  end.

(** ** The status command (src/commands/status.tsx, StatusApp) *)

Module StatusApp.

Record StatusState : Type := {
  loading : bool;
  error : option string;
  result : option StatusResult
}.

Definition initial : StatusState :=
  {| loading := true; error := None; result := None |}.

Definition failed (msg : string) : StatusState :=
  {| loading := false; error := Some msg; result := None |}.

Definition finished (r : StatusResult) : StatusState :=
  {| loading := false; error := None; result := Some r |}.

Definition no_schema_result : StatusResult :=
  {| sr_status := NoSchema;
     sr_projectId := JStr "";
     sr_localVersion := 0;
     sr_remoteVersion := 0;
     sr_message := ["No schema found in config files"];
     sr_suggestions :=
       ["Run 'basic init' to create a new project or import an existing project";
        "Make sure you're in a directory with a basic.config.ts/js file";
        "Check if your config file has the correct name and format"];
     sr_validationErrors := None |}.

Definition fetch_failed_result (localConfig : SchemaFileResult) (e : Thrown)
    : StatusResult :=
  {| sr_status := Invalid;
     sr_projectId := projectId localConfig;
     sr_localVersion := or_zero (version (schema localConfig));
     sr_remoteVersion := 0;
     sr_message :=
       ["Project ID: " +:+ js_to_string (projectId localConfig);
        "Error fetching remote schema: " +:+ error_message e];
     sr_suggestions :=
       ["Check if the project ID is correct";
        "Ensure you have access to this project";
        "Verify your internet connection";
        "Try running 'basic login' if authentication has expired"];
     sr_validationErrors := None |}.

(** The effect run on mount: the state it sets and the world it leaves. *)
Definition checkStatus (env : Env) (w : World) : StatusState * World :=
  if negb (isOnline env) then (failed MESSAGES_OFFLINE, w)
  else
    match getToken env with
    | Throws e => (failed (message_or "Failed to check status" e), w)
    | Returns false => (failed MESSAGES_LOGGED_OUT, w)
    | Returns true =>
        match readSchemaFromConfig (babel_parse env) (json_parse env)
                (files w) (cwd env) with
        | Throws e => (failed (message_or "Failed to check status" e), w)
        | Returns None => (finished no_schema_result, w)
        | Returns (Some localConfig) =>
            let pid := js_to_string (projectId localConfig) in
            let w1 := {| files := files w;
                         calls := calls w ++ [GetProjectSchemaCall pid];
                         saves := saves w |} in
            match getProjectSchema (apiClient env) pid with
            | Throws e => (finished (fetch_failed_result localConfig e), w1)
            | Returns fetched =>
                let remoteSchema :=
                  match fetched with
                  | Some s => s
                  | None => empty_remote (projectId localConfig)
                  end in
                let comparison := compareVersions (schema localConfig) remoteSchema in
                match analyzeStatus localConfig remoteSchema comparison
                        (apiClient env) (calls w1) with
                | (Returns r, log) =>
                    (finished r,
                     {| files := files w1; calls := log; saves := saves w1 |})
                | (Throws e, log) =>
                    (failed (message_or "Failed to check status" e),
                     {| files := files w1; calls := log; saves := saves w1 |})
                end
            end
        end
    end.

Definition run (env : Env) (fs : FileSystem) : StatusState * World :=
  checkStatus env {| files := fs; calls := []; saves := [] |}.

End StatusApp.

Module StatusDisplay.

(** getStatusDescription of StatusDisplay *)
Definition getStatusDescription (st : Status) : string :=
  match st with
  | Current => "Schema is up to date"
  | Ahead => "Schema is ready to push"
  | Behind => "Schema is out of date"
  | Conflict => "Schema conflicts detected"
  | Invalid => "Schema has validation errors"
  | NoSchema => "No schema file found"
  end.

(** [msg.startsWith(prefix)] *)
Definition startsWith (msg prefix : string) : bool := String.prefix prefix msg.

(** The messages shown under the status line: those that do not repeat
    the project id or the remote version. *)
Definition statusMessages (r : StatusResult) : list string :=
  List.filter (fun msg => negb (startsWith msg "Project ID:")
                          && negb (startsWith msg "Remote schema version:"))
              (sr_message r).

End StatusDisplay.

(** ** The paths a command can take *)

(** How a run of the push command relates to the state [s0] set by the
    check: nothing more happened; or the user declined; or the user
    confirmed and handlePush ran once. *)
Definition push_shape (env : Env) (fs : FileSystem) (app : PushApp.App) : Prop :=
  let m := PushApp.mount env fs in
  let s0 := PushApp.state m in
  (PushApp.state app = s0 /\ PushApp.world app = PushApp.world m /\
   PushApp.history app = [PushApp.initial; s0]) \/
  (PushApp.phase s0 = PushApp.confirming /\
   PushApp.state app = PushApp.with_phase s0 PushApp.no_action /\
   PushApp.world app = PushApp.world m /\
   PushApp.history app
   = [PushApp.initial; s0; PushApp.with_phase s0 PushApp.no_action]) \/
  (PushApp.phase s0 = PushApp.confirming /\
   PushApp.state app = fst (PushApp.push_now env s0 (PushApp.world m)) /\
   PushApp.world app = snd (PushApp.push_now env s0 (PushApp.world m)) /\
   PushApp.history app
   = [PushApp.initial; s0; PushApp.with_phase s0 PushApp.pushing;
      fst (PushApp.push_now env s0 (PushApp.world m))]).

Definition pull_shape (env : Env) (fs : FileSystem) (app : PullApp.App) : Prop :=
  let m := PullApp.mount env fs in
  let s0 := PullApp.state m in
  (PullApp.state app = s0 /\ PullApp.world app = PullApp.world m /\
   PullApp.history app = [PullApp.initial; s0]) \/
  (PullApp.phase s0 = PullApp.confirming /\
   PullApp.state app = PullApp.with_phase s0 PullApp.no_action /\
   PullApp.world app = PullApp.world m /\
   PullApp.history app
   = [PullApp.initial; s0; PullApp.with_phase s0 PullApp.no_action]) \/
  (PullApp.phase s0 = PullApp.confirming /\
   PullApp.state app = fst (PullApp.pull_now env s0 (PullApp.world m)) /\
   PullApp.world app = snd (PullApp.pull_now env s0 (PullApp.world m)) /\
   PullApp.history app
   = [PullApp.initial; s0; PullApp.with_phase s0 PullApp.pulling;
      fst (PullApp.pull_now env s0 (PullApp.world m))]).

(** The sequences of phases the state diagrams allow. *)
Definition push_paths : list (list PushApp.Phase) :=
  [ [PushApp.checking; PushApp.error];
    [PushApp.checking; PushApp.no_action];
    [PushApp.checking; PushApp.confirming];
    [PushApp.checking; PushApp.confirming; PushApp.no_action];
    [PushApp.checking; PushApp.confirming; PushApp.pushing; PushApp.success];
    [PushApp.checking; PushApp.confirming; PushApp.pushing; PushApp.error] ].

Definition pull_paths : list (list PullApp.Phase) :=
  [ [PullApp.checking; PullApp.error];
    [PullApp.checking; PullApp.no_action];
    [PullApp.checking; PullApp.confirming];
    [PullApp.checking; PullApp.confirming; PullApp.no_action];
    [PullApp.checking; PullApp.confirming; PullApp.pulling; PullApp.success];
    [PullApp.checking; PullApp.confirming; PullApp.pulling; PullApp.error] ].

(** An environment without network, and an empty directory. *)
Definition env_offline : Env :=
  {| isOnline := false;
     getToken := Returns true;
     apiClient := api_answering answer_valid answer_same;
     babel_parse := babel_stand_in;
     json_parse := parser_table [];
     cwd := "." |}.

(** The requests a command may make without publishing anything. *)
Definition reads_only (c : ApiCall) : Prop :=
  match c with
  | GetProjectSchemaCall _ | CompareSchemaCall _ => True
  | _ => False
  end.

(** The lines the messages of a status result begin with, which
    StatusDisplay shows in its own header instead: the project id, unless
    no schema was found, and the remote version when it is positive. *)
Definition status_header (r : StatusResult) : list string :=
  match sr_status r with
  | NoSchema => []
  | _ =>
      ["Project ID: " +:+ js_to_string (sr_projectId r)]
      ++ (if sr_remoteVersion r >? 0
          then ["Remote schema version: " +:+ show (sr_remoteVersion r)]
          else [])
  end.

(** A project whose remote schema cannot be fetched. *)
Definition env_fetch_fails : Env :=
  {| isOnline := true;
     getToken := Returns true;
     apiClient := {| getProjectSchema := fun _ => Throws (Error "HTTP 500");
                     pushProjectSchema := fun _ _ => Returns tt;
                     validateSchema := fun _ => answer_valid;
                     compareSchema := fun _ => answer_differs |};
     babel_parse := babel_stand_in;
     json_parse := parser_table [];
     cwd := "." |}.

(** The command can talk to the server about the project of the config
    file: it is online, logged in, and has read a config file; [c] is the
    request for that project's schema. *)
Definition ready_and_fetching (env : Env) (fs : FileSystem) (c : ApiCall) : Prop :=
  isOnline env = true /\
  getToken env = Returns true /\
  exists localConfig,
    readSchemaFromConfig (babel_parse env) (json_parse env) fs (cwd env)
      = Returns (Some localConfig) /\
    c = GetProjectSchemaCall (js_to_string (projectId localConfig)).

(** The first pattern of updateSchemaInCode: [const], white space,
    [schema], [=], an object region, a semicolon. *)
Definition const_schema_pattern : Regex :=
  assignment_of (Seq (Chars "const") (Seq (Plus white_space) (Chars "schema"))).

(** ** Errors (src/lib/errors.ts) *)

Module Errors.

(** The classes of the errors the CLI raises itself. *)
Inductive ErrorClass : Type :=
| BasicCliErrorClass | AuthErrorClass | ApiErrorClass | SchemaErrorClass
| NetworkErrorClass.

(** An instance of BasicCliError or of one of its subclasses; [statusCode]
    is set by ApiError only. *)
Record BasicCliError : Type := {
  class : ErrorClass;
  message : string;
  code : string;
  statusCode : option Z;
  suggestions : option (list string)
}.

Definition new_BasicCliError (msg code : string)
    (suggestions : option (list string)) : BasicCliError :=
  {| class := BasicCliErrorClass; message := msg; code := code;
     statusCode := None; suggestions := suggestions |}.

Definition AuthError (msg : string) (suggestions : option (list string))
    : BasicCliError :=
  {| class := AuthErrorClass; message := msg; code := "AUTH_ERROR";
     statusCode := None; suggestions := suggestions |}.

Definition ApiError (msg : string) (statusCode : option Z)
    (suggestions : option (list string)) : BasicCliError :=
  {| class := ApiErrorClass; message := msg; code := "API_ERROR";
     statusCode := statusCode; suggestions := suggestions |}.

Definition SchemaError (msg : string) (suggestions : option (list string))
    : BasicCliError :=
  {| class := SchemaErrorClass; message := msg; code := "SCHEMA_ERROR";
     statusCode := None; suggestions := suggestions |}.

(** [new NetworkError()], with the default message. *)
Definition NetworkError : BasicCliError :=
  {| class := NetworkErrorClass; message := "Network connection failed";
     code := "NETWORK_ERROR"; statusCode := None;
     suggestions := Some ["Check your internet connection";
                          "Try again in a moment"] |}.

(** What a [catch] clause may receive: an instance of BasicCliError, another
    Error with its message, or a value that is no Error. *)
Inductive Raised : Type :=
| Cli (e : BasicCliError)
| Plain (msg : string)
| Other.

(** [s.includes(sub)] *)
Fixpoint includes (s sub : string) : bool :=
  String.prefix sub s ||
  match s with
  | EmptyString => false
  | String _ s' => includes s' sub
  end.

Definition handleError (error : Raised) : BasicCliError :=
  match error with
  | Cli e => e
  | Plain msg =>
      if includes msg "ENOTFOUND" || includes msg "network" then NetworkError
      else if includes msg "unauthorized" || includes msg "401" then
        AuthError "Authentication failed"
          (Some ["Try logging in again with 'basic login'";
                 "Check if your token has expired"])
      else if includes msg "invalid character" then
        SchemaError "Invalid schema format"
          (Some ["Check for trailing commas in your schema";
                 "Ensure valid JSON syntax"])
      else new_BasicCliError msg "UNKNOWN_ERROR" None
  | Other => new_BasicCliError "An unknown error occurred" "UNKNOWN_ERROR" None
  end.

(** [error instanceof ApiError && error.statusCode === 404] *)
Definition is_not_found (error : Raised) : bool :=
  match error with
  | Cli e =>
      match class e, statusCode e with
      | ApiErrorClass, Some 404 => true
      | _, _ => false
      end
  | _ => false
  end.

End Errors.

(** ** The API client (src/lib/api.ts) *)

Module Api.

Inductive Result (A : Type) : Type :=
| Ok (a : A)
| Raise (e : Errors.Raised).
Arguments Ok {A} a.
Arguments Raise {A} e.

Record Token : Type := { access_token : string }.

(** What is handed to [fetch]: the URL, the method and body of the options,
    and the Authorization header when there is a token (the Content-Type
    header is always application/json). *)
Record Request : Type := {
  url : string;
  method : option string;
  body : option string;
  authorization : option string
}.

Record Response : Type := {
  ok : bool;
  status : Z;
  text : Result string;      (* [await response.text()] *)
  json : Result JsVal        (* [response.json()] *)
}.

Record RequestInit : Type := {
  init_method : option string;
  init_body : option string
}.

Definition no_options : RequestInit :=
  {| init_method := None; init_body := None |}.

Definition API_BASE : string := "https://api.basic.tech".

(** Reading a property of a value of any kind. *)
Definition prop (v : JsVal) (key : string) : Result JsVal :=
  match v with
  | JObj props => Ok (lookup_prop key props)
  | JUndefined =>
      Raise (Errors.Plain
               ("Cannot read properties of undefined (reading '" +:+ key +:+ "')"))
  | JNull =>
      Raise (Errors.Plain
               ("Cannot read properties of null (reading '" +:+ key +:+ "')"))
  | _ => Ok JUndefined
  end.

(** [v.length] *)
Definition length_of (v : JsVal) : Result JsVal :=
  match v with
  | JArr xs => Ok (JNum (Z.of_nat (length xs)))
  | JStr s => Ok (JNum (Z.of_nat (String.length s)))
  | _ => prop v "length"
  end.

(** [v[0]], for a value whose length could be read *)
Definition first_of (v : JsVal) : JsVal :=
  match v with
  | JArr (x :: _) => x
  | JStr (String c _) => JStr (String c "")
  | JObj props => lookup_prop "0" props
  | _ => JUndefined
  end.

Section Client.

Variable getToken : Result (option Token).
Variable fetch : Request -> Result Response.

(** The private method [request]: every failure met before the body is
    read goes through handleError; the promise of [response.json()] is
    returned without being awaited, so its rejection is not caught here. *)
Definition request (endpoint : string) (options : RequestInit) : Result JsVal :=
  match getToken with
  | Raise e => Raise (Errors.Cli (Errors.handleError e))
  | Ok token =>
      let req :=
        {| url := API_BASE +:+ endpoint;
           method := init_method options;
           body := init_body options;
           authorization :=
             match token with
             | Some t => Some ("Bearer " +:+ access_token t)
             | None => None
             end |} in
      match fetch req with
      | Raise e => Raise (Errors.Cli (Errors.handleError e))
      | Ok response =>
          if negb (ok response) then
            match text response with
            | Raise e => Raise (Errors.Cli (Errors.handleError e))
            | Ok errorText =>
                Raise (Errors.Cli
                         (Errors.handleError
                            (Errors.Cli
                               (Errors.ApiError
                                  ("API Error: " +:+ show (status response)
                                   +:+ " - " +:+ errorText)
                                  (Some (status response)) None))))
            end
          else json response
      end
  end.

Definition getProjectSchema (projectId : string) : Result JsVal :=
  let attempt :=
    match request ("/project/" +:+ projectId +:+ "/schema") no_options with
    | Raise e => Raise e
    | Ok response =>
        match prop response "data" with
        | Raise e => Raise e
        | Ok data =>
            match length_of data with
            | Raise e => Raise e
            | Ok len =>
                match len with
                | JNum 0 => Ok JNull
                | _ => prop (first_of data) "schema"
                end
            end
        end
    end in
  match attempt with
  | Ok v => Ok v
  | Raise error =>
      if Errors.is_not_found error then Ok JNull else Raise error
  end.

End Client.

End Api.

(** The request getProjectSchema sends for a project. *)
Definition schema_request (token : option Api.Token) (projectId : string)
    : Api.Request :=
  {| Api.url := Api.API_BASE +:+ "/project/" +:+ projectId +:+ "/schema";
     Api.method := None;
     Api.body := None;
     Api.authorization :=
       match token with
       | Some t => Some ("Bearer " +:+ Api.access_token t)
       | None => None
       end |}.

(** A server that answers every request with the given status and text
    and, when asked for JSON, the given body. *)
Definition server_answering (status : Z) (text : string) (body : JsVal)
    : Api.Request -> Api.Result Api.Response :=
  fun _ => Api.Ok {| Api.ok := (200 <=? status) && (status <=? 299);
                     Api.status := status;
                     Api.text := Api.Ok text;
                     Api.json := Api.Ok body |}.

Definition some_token : Api.Result (option Api.Token) :=
  Api.Ok (Some {| Api.access_token := "t0" |}).

(** ** A schema that saving does not keep *)

(** A well-formed schema with one table, of the given name. *)
Definition schema_with_table (name : string) : Schema :=
  JObj [("project_id", JStr "p1"); ("version", JNum 2);
        ("tables", JObj [(name, JObj [])])].

(** The table name holds two dollar signs; and the schema a reader finds
    where it was saved, whose table name holds one. *)
Definition schema_with_dollars : Schema := schema_with_table "a$$b".
Definition schema_with_dollar : Schema := schema_with_table "a$b".

(** A parser that knows the file the CLI generates for [schema_at 1] and
    the file left behind by saving [schema_with_dollars] over it. *)
Definition babel_for_dollars : string -> Parsed Program :=
  parser_table
    [ (generateConfigContent (schema_at 1),
       ts_config_body (literal_of (schema_at 1)));
      (generateConfigContent schema_with_dollar,
       ts_config_body (literal_of schema_with_dollar)) ].

(** ** Sessions: key presses, and files rewritten by others *)

(** While a command waits for an answer the files are not its own: an
    editor or another process may rewrite them.  A session is the check
    made on mount followed by such events in the order they happen; the
    check and each handler are taken to run without such a change in their
    midst. *)
Inductive Event : Type :=
| Pressed (key : Key)
| FilesChanged (fs : FileSystem).

Definition with_files (w : World) (fs : FileSystem) : World :=
  {| files := fs; calls := calls w; saves := saves w |}.

(** The files that [events] leave, when the command itself writes nothing. *)
Definition files_after (fs : FileSystem) (events : list Event) : FileSystem :=
  fold_left (fun fs e => match e with
                         | FilesChanged fs' => fs'
                         | Pressed _ => fs
                         end) events fs.

Definition push_event (env : Env) (app : PushApp.App) (e : Event) : PushApp.App :=
  match e with
  | Pressed key => PushApp.useInput env app key
  | FilesChanged fs =>
      {| PushApp.state := PushApp.state app;
         PushApp.selectedOption := PushApp.selectedOption app;
         PushApp.world := with_files (PushApp.world app) fs;
         PushApp.history := PushApp.history app |}
  end.

Definition push_session (env : Env) (fs : FileSystem) (events : list Event)
    : PushApp.App :=
  fold_left (push_event env) events (PushApp.mount env fs).

Definition pull_event (env : Env) (app : PullApp.App) (e : Event) : PullApp.App :=
  match e with
  | Pressed key => PullApp.useInput env app key
  | FilesChanged fs =>
      {| PullApp.state := PullApp.state app;
         PullApp.selectedOption := PullApp.selectedOption app;
         PullApp.world := with_files (PullApp.world app) fs;
         PullApp.history := PullApp.history app |}
  end.

Definition pull_session (env : Env) (fs : FileSystem) (events : list Event)
    : PullApp.App :=
  fold_left (pull_event env) events (PullApp.mount env fs).

(** How a session of the push command relates to the state [s0] set by
    the check: nothing more happened; or the user declined; or the user
    pressed Enter and handlePush ran once, on the files as they were at
    that moment. *)
Definition push_session_shape (env : Env) (fs : FileSystem)
    (events : list Event) (app : PushApp.App) : Prop :=
  let m := PushApp.mount env fs in
  let s0 := PushApp.state m in
  (PushApp.state app = s0 /\
   PushApp.world app = with_files (PushApp.world m) (files_after fs events) /\
   PushApp.history app = [PushApp.initial; s0]) \/
  (PushApp.phase s0 = PushApp.confirming /\
   PushApp.state app = PushApp.with_phase s0 PushApp.no_action /\
   PushApp.world app = with_files (PushApp.world m) (files_after fs events) /\
   PushApp.history app
   = [PushApp.initial; s0; PushApp.with_phase s0 PushApp.no_action]) \/
  (PushApp.phase s0 = PushApp.confirming /\
   exists before key after,
     events = before ++ Pressed key :: after /\ return_ key = true /\
     let out := PushApp.push_now env s0
                  (with_files (PushApp.world m) (files_after fs before)) in
     PushApp.state app = fst out /\
     PushApp.world app = with_files (snd out) (files_after (files (snd out)) after) /\
     PushApp.history app
     = [PushApp.initial; s0; PushApp.with_phase s0 PushApp.pushing; fst out]).


(** * Properties *)

(** ** Version comparator *)

Lemma or_zero_default (v : option Z) : or_zero v = default 0 v.
Proof.
  destruct v as [n|]; simpl; [|reflexivity].
  destruct (Z.eqb_spec n 0); congruence.
Qed.

Lemma or_zero_has_version (schema : Schema) (n : Z) :
  has_version schema n -> or_zero (version schema) = n.
Proof.
  intros (props & -> & [H | [H ->]]); unfold version; rewrite H; cbn;
    [|reflexivity].
  destruct (Z.eqb_spec n 0); congruence.
Qed.

(** C7. [compareVersions] is total on schemas with numeric versions, a
    missing version counting as 0: it returns both version numbers and
    exactly one of ahead / behind / equal, namely ahead iff local > remote,
    behind iff local < remote, and equal iff they are the same. *)
Theorem compareVersions_total (local remote : Schema) (l r : Z) :
  has_version local l -> has_version remote r ->
  let c := compareVersions local remote in
  c_localVersion c = l /\ c_remoteVersion c = r /\
  (c_status c = VAhead \/ c_status c = VBehind \/ c_status c = VEqual) /\
  (c_status c = VAhead <-> l > r) /\
  (c_status c = VBehind <-> l < r) /\
  (c_status c = VEqual <-> l = r).
Proof.
  intros Hl Hr.
  unfold compareVersions; cbn [c_status c_localVersion c_remoteVersion].
  rewrite (or_zero_has_version _ _ Hl), (or_zero_has_version _ _ Hr).
  destruct (Z.eqb_spec l r) as [E|N].
  - repeat split; auto; try discriminate; lia.
  - destruct (Z.gtb_spec l r) as [G|G]; repeat split; auto; try discriminate;
      try lia.
Qed.

Lemma compareVersions_total_witness :
  let c := compareVersions (JObj [("project_id", JStr "p1"); ("tables", JObj [])])
             (JObj [("project_id", JStr "p1"); ("version", JNum 3);
                    ("tables", JObj [])]) in
  c_localVersion c = 0 /\ c_remoteVersion c = 3 /\
  (c_status c = VAhead \/ c_status c = VBehind \/ c_status c = VEqual) /\
  (c_status c = VAhead <-> 0 > 3) /\
  (c_status c = VBehind <-> 0 < 3) /\
  (c_status c = VEqual <-> 0 = 3).
Proof.
  apply (compareVersions_total
           (JObj [("project_id", JStr "p1"); ("tables", JObj [])])
           (JObj [("project_id", JStr "p1"); ("version", JNum 3);
                  ("tables", JObj [])]) 0 3).
  - eexists. split; [reflexivity|]. right. split; reflexivity.
  - eexists. split; [reflexivity|]. left. reflexivity.
Defined.

(** ** Status analyzers *)

Lemma compareVersions_cases (local remote : Schema) :
  let c := compareVersions local remote in
  (c_status c = VEqual /\ c_localVersion c = c_remoteVersion c) \/
  (c_status c = VAhead /\ both_zero c = false) \/
  (c_status c = VBehind /\ both_zero c = false).
Proof.
  unfold compareVersions, both_zero;
    cbn [c_status c_localVersion c_remoteVersion].
  destruct (Z.eqb_spec (or_zero (version local)) (or_zero (version remote)))
    as [E|N]; [left; auto|].
  right.
  assert ((or_zero (version local) =? 0) && (or_zero (version remote) =? 0)
          = false) as ->.
  { apply andb_false_iff.
    destruct (Z.eqb_spec (or_zero (version local)) 0); auto.
    destruct (Z.eqb_spec (or_zero (version remote)) 0); auto. congruence. }
  destruct (or_zero (version local) >? or_zero (version remote)); auto.
Qed.

Ltac unfold_flows :=
  unfold pushStatus, pullStatus, statusStatus, pushFlow, pullFlow, statusFlow,
    analyzePushAction, analyzePullAction, analyzeStatus, both_zero in *.

Ltac run_flow :=
  unfold try_catch, bind, await, ret; cbn.

(** The analyzers never reject: every collaborator failure is caught. *)
Lemma analyzers_return (apiClient : ApiClient) (localConfig : SchemaFileResult)
    (remoteSchema : Schema) (comparison : Comparison) (log : list ApiCall) :
  (exists r l, analyzePushAction localConfig remoteSchema comparison apiClient log
               = (Returns r, l)) /\
  (exists r l, analyzePullAction localConfig remoteSchema comparison apiClient log
               = (Returns r, l)) /\
  (exists r l, analyzeStatus localConfig remoteSchema comparison apiClient log
               = (Returns r, l)).
Proof.
  unfold_flows.
  destruct (c_status comparison);
    destruct ((c_localVersion comparison =? 0) && (c_remoteVersion comparison =? 0));
    run_flow;
    destruct (validateSchema apiClient (schema localConfig)) as [v|];
    destruct (compareSchema apiClient (schema localConfig)) as [c|];
    try destruct (reports_errors v); try destruct (cmp_valid c);
    repeat split; eauto.
Qed.

(** C1, as stated, fails: at version 0 on both sides with a valid schema
    the status flow answers ahead, the push flow invalid and the pull flow
    current. *)
Lemma analyzers_disagree_at_version_zero :
  let api := api_answering answer_valid answer_same in
  statusStatus api (config_at 0) (schema_at 0) = Some Ahead /\
  pushStatus api (config_at 0) (schema_at 0) = Some Invalid /\
  pullStatus api (config_at 0) (schema_at 0) = Some Current.
Proof. repeat split; reflexivity. Qed.

(** C1, amended. The three flows always return a status of the closed set,
    and they return the same one exactly when the comparator says behind, or
    says ahead and validation passes, or says equal at a non-zero version and
    the content comparison answers that the contents match. *)
Theorem analyzers_agree_iff (apiClient : ApiClient) (localConfig : SchemaFileResult)
    (remoteSchema : Schema) :
  let c := compareVersions (schema localConfig) remoteSchema in
  (is_Some (statusStatus apiClient localConfig remoteSchema) /\
   is_Some (pushStatus apiClient localConfig remoteSchema) /\
   is_Some (pullStatus apiClient localConfig remoteSchema)) /\
  ((statusStatus apiClient localConfig remoteSchema
      = pushStatus apiClient localConfig remoteSchema /\
    pushStatus apiClient localConfig remoteSchema
      = pullStatus apiClient localConfig remoteSchema)
   <->
   (c_status c = VBehind \/
    (c_status c = VAhead /\ validation_passes apiClient (schema localConfig)) \/
    (c_status c = VEqual /\ both_zero c = false /\
     comparison_matches apiClient (schema localConfig)))).
Proof.
  intros c.
  pose proof (compareVersions_cases (schema localConfig) remoteSchema) as Hc.
  fold c in Hc. cbv zeta in Hc.
  unfold validation_passes, comparison_matches.
  unfold_flows. fold c. revert Hc. generalize c. clear c. intros c Hc.
  destruct Hc as [[-> _]|[[-> Hz]|[-> Hz]]]; unfold both_zero in *.
  - (* equal *)
    destruct ((c_localVersion c =? 0) && (c_remoteVersion c =? 0)) eqn:Hz.
    + run_flow.
      destruct (validateSchema apiClient (schema localConfig)) as [v|e]; cbn;
        [destruct (reports_errors v); cbn|];
        (split; [repeat split; eauto|]);
        (split; [intros [_ ?]; discriminate
                |intros [?|[[? _]|(_ & ? & _)]]; discriminate]).
    + run_flow.
      destruct (compareSchema apiClient (schema localConfig)) as [r|e] eqn:Hr; cbn;
        [destruct (cmp_valid r) eqn:Hv; cbn|];
        (split; [repeat split; eauto|]).
      * split; [|auto]. intros _. right; right. eauto 6.
      * split; [intros [? _]; discriminate|].
        intros [?|[[? _]|(_ & _ & r' & Hr' & Hv')]]; try discriminate.
        congruence.
      * split; [intros [? _]; discriminate|].
        intros [?|[[? _]|(_ & _ & r' & Hr' & Hv')]]; discriminate.
  - (* ahead *)
    run_flow.
    destruct (validateSchema apiClient (schema localConfig)) as [v|e] eqn:Hr; cbn;
      [destruct (reports_errors v) eqn:Hv; cbn|];
      (split; [repeat split; eauto|]).
    + split; [intros [_ ?]; discriminate|].
      intros [?|[[_ (v' & Hv1 & Hv2)]|(? & _)]]; try discriminate. congruence.
    + split; [|auto]. intros _. right; left. eauto.
    + split; [intros [_ ?]; discriminate|].
      intros [?|[[_ (v' & Hv1 & Hv2)]|(? & _)]]; discriminate.
  - (* behind *)
    run_flow. split; [repeat split; eauto|]. split; auto.
Qed.

(** C2, as stated, fails for the pull flow: at version 0 on both sides,
    with a schema the validation endpoint accepts, pull answers current. *)
Lemma pull_current_at_version_zero :
  let api := api_answering answer_valid answer_same in
  validateSchema api (schema_at 0) = Returns {| valid := true; errors := None |} /\
  pullStatus api (config_at 0) (schema_at 0) = Some Current.
Proof. split; reflexivity. Qed.

(** C2, amended. At version 0 on both sides with a schema the validation
    endpoint reports valid, the status flow answers ahead and the push flow
    answers invalid without asking for confirmation, both with the line
    telling the user to increment the version to 1, and neither answers
    current; the pull flow answers current without consulting validation. *)
Theorem version_zero_requires_bump (apiClient : ApiClient)
    (localConfig : SchemaFileResult) (remoteSchema : Schema) (v : ValidationResult) :
  default 0 (version (schema localConfig)) = 0 ->
  default 0 (version remoteSchema) = 0 ->
  validateSchema apiClient (schema localConfig) = Returns v ->
  valid v = true ->
  (exists r, statusFlow apiClient localConfig remoteSchema
             = (Returns r, [ValidateSchemaCall (schema localConfig)]) /\
             sr_status r = Ahead /\ In bump_line (sr_message r)) /\
  (exists r, pushFlow apiClient localConfig remoteSchema
             = (Returns r, [ValidateSchemaCall (schema localConfig)]) /\
             status r = Invalid /\ needsConfirmation r = false /\
             In bump_line (message r)) /\
  (exists r, pullFlow apiClient localConfig remoteSchema = (Returns r, []) /\
             status r = Current).
Proof.
  intros Hl Hr Hv Hvalid.
  unfold statusFlow, pushFlow, pullFlow, compareVersions.
  rewrite !or_zero_default, Hl, Hr.
  unfold analyzeStatus, analyzePushAction, analyzePullAction; cbn.
  run_flow. rewrite Hv. unfold reports_errors. rewrite Hvalid. cbn.
  repeat split; eexists; (split; [reflexivity|]); cbn; unfold bump_line;
    intuition auto.
Qed.

Lemma version_zero_requires_bump_witness :
  let api := api_answering answer_valid answer_same in
  (exists r, statusFlow api (config_at 0) (schema_at 0)
             = (Returns r, [ValidateSchemaCall (schema_at 0)]) /\
             sr_status r = Ahead /\ In bump_line (sr_message r)) /\
  (exists r, pushFlow api (config_at 0) (schema_at 0)
             = (Returns r, [ValidateSchemaCall (schema_at 0)]) /\
             status r = Invalid /\ needsConfirmation r = false /\
             In bump_line (message r)) /\
  (exists r, pullFlow api (config_at 0) (schema_at 0) = (Returns r, []) /\
             status r = Current).
Proof.
  apply (version_zero_requires_bump
           (api_answering answer_valid answer_same) (config_at 0) (schema_at 0)
           {| valid := true; errors := None |});
    reflexivity.
Defined.

(** C3, as stated, fails: when the content-comparison call rejects at an
    equal non-zero version, the push flow (and the pull flow) answer
    current. *)
Lemma compare_failure_assumed_current :
  let api := api_answering answer_valid network_down in
  compareSchema api (schema_at 2) = Throws (Error "Network connection failed") /\
  pushStatus api (config_at 2) (schema_at 2) = Some Current /\
  pullStatus api (config_at 2) (schema_at 2) = Some Current.
Proof. repeat split; reflexivity. Qed.

(** C3, amended. A rejected validation call (made when the comparator says
    ahead, or equal at version 0) degrades to invalid in the push and status
    flows.  A rejected content-comparison call (made when the comparator says
    equal at a non-zero version) degrades to invalid in the status flow, and
    is assumed current by the push and pull flows. *)
Theorem collaborator_failure_statuses (apiClient : ApiClient)
    (localConfig : SchemaFileResult) (remoteSchema : Schema) (e : Thrown) :
  let c := compareVersions (schema localConfig) remoteSchema in
  (validateSchema apiClient (schema localConfig) = Throws e ->
   c_status c = VAhead \/ (c_status c = VEqual /\ both_zero c = true) ->
   pushStatus apiClient localConfig remoteSchema = Some Invalid /\
   statusStatus apiClient localConfig remoteSchema = Some Invalid) /\
  (compareSchema apiClient (schema localConfig) = Throws e ->
   c_status c = VEqual -> both_zero c = false ->
   statusStatus apiClient localConfig remoteSchema = Some Invalid /\
   pushStatus apiClient localConfig remoteSchema = Some Current /\
   pullStatus apiClient localConfig remoteSchema = Some Current).
Proof.
  intros c. unfold_flows. fold c. generalize c; clear c; intros c.
  split.
  - intros Hv [->|[-> ->]]; run_flow; rewrite Hv; cbn; auto.
  - intros Hc -> ->. run_flow. rewrite Hc; cbn; auto.
Qed.

Lemma collaborator_failure_statuses_witness :
  (pushStatus (api_answering network_down answer_same) (config_at 3) (schema_at 2)
     = Some Invalid /\
   statusStatus (api_answering network_down answer_same) (config_at 3) (schema_at 2)
     = Some Invalid) /\
  (statusStatus (api_answering answer_valid network_down) (config_at 2) (schema_at 2)
     = Some Invalid /\
   pushStatus (api_answering answer_valid network_down) (config_at 2) (schema_at 2)
     = Some Current /\
   pullStatus (api_answering answer_valid network_down) (config_at 2) (schema_at 2)
     = Some Current).
Proof.
  split.
  - apply (proj1 (collaborator_failure_statuses
                    (api_answering network_down answer_same)
                    (config_at 3) (schema_at 2)
                    (Error "Network connection failed")));
      [reflexivity | left; reflexivity].
  - apply (proj2 (collaborator_failure_statuses
                    (api_answering answer_valid network_down)
                    (config_at 2) (schema_at 2)
                    (Error "Network connection failed")));
      reflexivity.
Defined.

(** C4, as stated, fails for the push flow: at equal version 4 with
    differing content it answers invalid, not conflict. *)
Lemma push_invalid_on_differing_content :
  let api := api_answering answer_valid answer_differs in
  compareSchema api (schema_at 4) = Returns {| cmp_valid := false |} /\
  pushStatus api (config_at 4) (schema_at 4) = Some Invalid /\
  pushStatus api (config_at 4) (schema_at 4) <> Some Conflict.
Proof. repeat split; try reflexivity. discriminate. Qed.

(** C4, amended. At equal non-zero versions every flow consults the
    content-comparison endpoint, exactly once and on the local schema; when
    it answers that the contents differ, the status and pull flows answer
    conflict and the push flow answers invalid, so none answers current. *)
Theorem equal_nonzero_disambiguation (apiClient : ApiClient)
    (localConfig : SchemaFileResult) (remoteSchema : Schema) :
  default 0 (version (schema localConfig)) = default 0 (version remoteSchema) ->
  default 0 (version (schema localConfig)) <> 0 ->
  (snd (statusFlow apiClient localConfig remoteSchema)
     = [CompareSchemaCall (schema localConfig)] /\
   snd (pushFlow apiClient localConfig remoteSchema)
     = [CompareSchemaCall (schema localConfig)] /\
   snd (pullFlow apiClient localConfig remoteSchema)
     = [CompareSchemaCall (schema localConfig)]) /\
  (forall r, compareSchema apiClient (schema localConfig) = Returns r ->
             cmp_valid r = false ->
             statusStatus apiClient localConfig remoteSchema = Some Conflict /\
             pullStatus apiClient localConfig remoteSchema = Some Conflict /\
             pushStatus apiClient localConfig remoteSchema = Some Invalid).
Proof.
  intros He Hn.
  unfold_flows. unfold compareVersions. rewrite !or_zero_default, <- He.
  rewrite Z.eqb_refl. cbn [c_status c_localVersion c_remoteVersion].
  destruct (Z.eqb_spec (default 0 (version (schema localConfig))) 0) as [E|_];
    [contradiction|]. cbn [andb].
  run_flow.
  destruct (compareSchema apiClient (schema localConfig)) as [r|e]; cbn.
  - destruct (cmp_valid r) eqn:Hr; cbn; (split; [auto|]);
      intros r' Hr' Hv; injection Hr' as <-; congruence || auto.
  - split; [auto|]. intros r' Hr'; discriminate.
Qed.

Lemma equal_nonzero_disambiguation_witness :
  let api := api_answering answer_valid answer_differs in
  (snd (statusFlow api (config_at 4) (schema_at 4)) = [CompareSchemaCall (schema_at 4)] /\
   snd (pushFlow api (config_at 4) (schema_at 4)) = [CompareSchemaCall (schema_at 4)] /\
   snd (pullFlow api (config_at 4) (schema_at 4)) = [CompareSchemaCall (schema_at 4)]) /\
  (statusStatus api (config_at 4) (schema_at 4) = Some Conflict /\
   pullStatus api (config_at 4) (schema_at 4) = Some Conflict /\
   pushStatus api (config_at 4) (schema_at 4) = Some Invalid).
Proof.
  destruct (equal_nonzero_disambiguation
              (api_answering answer_valid answer_differs) (config_at 4) (schema_at 4))
    as [Hlog Hst]; [reflexivity | discriminate |].
  split; [exact Hlog|].
  apply (Hst {| cmp_valid := false |}); reflexivity.
Defined.

(** C10. When the validation endpoint answers [valid: false] without an
    [errors] property, the push and status analyzers do not classify the
    schema as invalid: whatever the comparator says, their results are
    exactly those obtained from a client answering [valid: true]; and when
    the comparator says ahead, the push flow answers ahead and asks for
    confirmation and the status flow answers ahead. *)
Theorem missing_errors_treated_as_valid (apiClient apiClient' : ApiClient)
    (localConfig : SchemaFileResult) (remoteSchema : Schema) (v : ValidationResult) :
  validateSchema apiClient (schema localConfig) = Returns v ->
  valid v = false -> errors v = None ->
  validateSchema apiClient' (schema localConfig)
    = Returns {| valid := true; errors := None |} ->
  compareSchema apiClient' (schema localConfig)
    = compareSchema apiClient (schema localConfig) ->
  (pushFlow apiClient localConfig remoteSchema
     = pushFlow apiClient' localConfig remoteSchema /\
   statusFlow apiClient localConfig remoteSchema
     = statusFlow apiClient' localConfig remoteSchema) /\
  (c_status (compareVersions (schema localConfig) remoteSchema) = VAhead ->
   (exists r, pushFlow apiClient localConfig remoteSchema
              = (Returns r, [ValidateSchemaCall (schema localConfig)]) /\
              status r = Ahead /\ needsConfirmation r = true /\
              validationErrors r = None) /\
   statusStatus apiClient localConfig remoteSchema = Some Ahead /\
   pushStatus apiClient localConfig remoteSchema <> Some Invalid /\
   statusStatus apiClient localConfig remoteSchema <> Some Invalid).
Proof.
  intros Hv Hvalid Herr Hv' Hc'.
  unfold_flows. split.
  - destruct (c_status (compareVersions (schema localConfig) remoteSchema));
      try destruct ((c_localVersion (compareVersions (schema localConfig) remoteSchema) =? 0)
                    && (c_remoteVersion (compareVersions (schema localConfig) remoteSchema) =? 0));
      run_flow; rewrite ?Hv, ?Hv', ?Hc'; unfold reports_errors;
      rewrite ?Hvalid, ?Herr; cbn; auto.
  - intros Hc. rewrite Hc. run_flow. rewrite Hv.
    unfold reports_errors. rewrite Hvalid, Herr. cbn.
    repeat split; try discriminate. eexists; repeat split.
Qed.

Lemma missing_errors_treated_as_valid_witness :
  let api := api_answering (Returns {| valid := false; errors := None |}) answer_same in
  let api' := api_answering answer_valid answer_same in
  (pushFlow api (config_at 3) (schema_at 2) = pushFlow api' (config_at 3) (schema_at 2) /\
   statusFlow api (config_at 3) (schema_at 2) = statusFlow api' (config_at 3) (schema_at 2)) /\
  (exists r, pushFlow api (config_at 3) (schema_at 2)
             = (Returns r, [ValidateSchemaCall (schema_at 3)]) /\
             status r = Ahead /\ needsConfirmation r = true /\
             validationErrors r = None) /\
  statusStatus api (config_at 3) (schema_at 2) = Some Ahead /\
  pushStatus api (config_at 3) (schema_at 2) <> Some Invalid /\
  statusStatus api (config_at 3) (schema_at 2) <> Some Invalid.
Proof.
  destruct (missing_errors_treated_as_valid
              (api_answering (Returns {| valid := false; errors := None |}) answer_same)
              (api_answering answer_valid answer_same)
              (config_at 3) (schema_at 2) {| valid := false; errors := None |})
    as [Hsame Hahead]; try reflexivity.
  split; [exact Hsame|]. apply Hahead. reflexivity.
Defined.

(** ** Reading the config file *)

Lemma path_join_inj (dir f1 f2 : string) :
  path_join dir f1 = path_join dir f2 -> f1 = f2.
Proof.
  unfold path_join. intros H.
  apply (inj (String.app dir)) in H.
  apply (inj (String.app "/")) in H. exact H.
Qed.

Section Reading.

Variable parse : string -> Parsed Program.
Variable JSON_parse : string -> Parsed JsVal.

Lemma read_config_file_absent (fs : FileSystem) (dir filename : string) :
  fs !! path_join dir filename = None ->
  read_config_file parse JSON_parse fs dir filename
    = Throws (ENOENT "access" (path_join dir filename)).
Proof.
  intros H. unfold read_config_file, fs_access. rewrite H. reflexivity.
Qed.

(** Only a missing file makes the loop move on to the next name. *)
Lemma read_config_file_ENOENT (fs : FileSystem) (dir filename : string)
    (e : Thrown) :
  read_config_file parse JSON_parse fs dir filename = Throws e ->
  error_code e = Some "ENOENT" ->
  fs !! path_join dir filename = None.
Proof.
  unfold read_config_file, fs_access, fs_readFile.
  destruct (fs !! path_join dir filename) as [[content| |why]|]; cbn; auto.
  3: { intros H Hc. inversion H; subst. destruct why; discriminate. }
  - intros H Hc. exfalso.
    destruct (endsWith filename ".json").
    + destruct (JSON_parse content) as [v|msg]; cbn in H.
      * destruct v; cbn in H;
          try match type of H with
              | context [truthy ?x] => destruct (truthy x)
              end; cbn in H; inversion H; subst; discriminate.
      * inversion H; subst; discriminate.
    + unfold extractSchemaFromCode in H.
      match type of H with
      | context [rethrow ?p ?o] => destruct o as [v|e'] eqn:Ho
      end; cbn in H.
      * destruct v; cbn in H;
          try match type of H with
              | context [truthy ?x] => destruct (truthy x)
              end; cbn in H; inversion H; subst; discriminate.
      * inversion H; subst; discriminate.
  - intros H Hc. inversion H; subst. discriminate.
Qed.

(** No config file at all is the only way to get [null]. *)
Lemma readSchemaFromConfig_null_iff (fs : FileSystem) (dir : string) :
  readSchemaFromConfig parse JSON_parse fs dir = Returns None <->
  (forall filename, In filename possibleFiles ->
                    fs !! path_join dir filename = None).
Proof.
  unfold readSchemaFromConfig.
  induction possibleFiles as [|f files IH]; cbn [read_first].
  - split; [intros _ ? []|reflexivity].
  - split.
    + destruct (read_config_file parse JSON_parse fs dir f) as [r|e] eqn:Hr;
        [discriminate|].
      case_bool_decide as Hc; [|discriminate].
      intros H filename [<-|Hin].
      * eapply read_config_file_ENOENT; eauto.
      * apply IH; auto.
    + intros H. rewrite read_config_file_absent by (apply H; left; auto).
      cbn. apply IH. intros; apply H; right; auto.
Qed.

(** C9, evaluated where the code departs from it: a basic.config.json
    whose parsed value has a truthy project_id is returned as it is,
    whatever its version property holds; no structural error is raised. *)
Theorem json_config_version_unchecked (fs : FileSystem) (dir content : string)
    (props : list (string * JsVal)) :
  fs !! path_join dir "basic.config.ts" = None ->
  fs !! path_join dir "basic.config.js" = None ->
  fs !! path_join dir "basic.config.json" = Some (RegularFile content) ->
  JSON_parse content = ParsedAs (JObj props) ->
  truthy (lookup_prop "project_id" props) = true ->
  readSchemaFromConfig parse JSON_parse fs dir
    = Returns (Some {| schema := JObj props;
                       projectId := lookup_prop "project_id" props;
                       filePath := path_join dir "basic.config.json" |}).
Proof.
  intros Hts Hjs Hjson Hparse Hpid.
  unfold readSchemaFromConfig, possibleFiles. cbn [read_first].
  rewrite !read_config_file_absent by assumption. cbn.
  unfold read_config_file, fs_access, fs_readFile. rewrite Hjson. cbn.
  rewrite Hparse. cbn. rewrite Hpid. reflexivity.
Qed.

End Reading.

Lemma json_config_version_unchecked_witness :
  typeof (lookup_prop "version" [("project_id", JStr "p1");
                                 ("version", JStr "1");
                                 ("tables", JObj [])]) = "string" /\
  readSchemaFromConfig
    (parser_table [])
    (parser_table [(json_with_string_version, value_with_string_version)])
    (only_json_config json_with_string_version) "."
  = Returns (Some {| schema := value_with_string_version;
                     projectId := JStr "p1";
                     filePath := "./basic.config.json" |}).
Proof.
  split; [reflexivity|].
  apply (json_config_version_unchecked
           (parser_table [])
           (parser_table [(json_with_string_version, value_with_string_version)])
           (only_json_config json_with_string_version) "."
           json_with_string_version
           [("project_id", JStr "p1"); ("version", JStr "1"); ("tables", JObj [])]);
    reflexivity.
Defined.

(** ** Strings *)

Local Arguments String.append : simpl nomatch.

Lemma string_app_nil_r (s : string) : s +:+ "" = s.
Proof. induction s; cbn; congruence. Qed.

Lemma string_app_assoc (a b c : string) : (a +:+ b) +:+ c = a +:+ (b +:+ c).
Proof. induction a; cbn; congruence. Qed.

Lemma string_length_app (a b : string) :
  String.length (a +:+ b) = (String.length a + String.length b)%nat.
Proof. induction a; cbn; congruence. Qed.

Lemma substring_prefix (w s : string) :
  substring 0 (String.length w) (w +:+ s) = w.
Proof.
  induction w as [|c w IH]; cbn.
  - destruct s; reflexivity.
  - rewrite IH. reflexivity.
Qed.

Lemma consumed_app (w s : string) : consumed (w +:+ s) s = w.
Proof.
  unfold consumed. rewrite string_length_app.
  replace (String.length w + String.length s - String.length s)%nat
    with (String.length w) by lia.
  apply substring_prefix.
Qed.

Lemma strip_prefix_Some (text s s' : string) :
  strip_prefix text s = Some s' -> s = text +:+ s'.
Proof.
  revert s. induction text as [|a text IH]; intros s H; cbn in *.
  - congruence.
  - destruct s as [|b s]; [discriminate|].
    destruct (Ascii.eqb_spec a b); [|discriminate].
    subst. f_equal. auto.
Qed.

Lemma all_chars_app (p : ascii -> bool) (a b : string) :
  all_chars p (a +:+ b) = all_chars p a && all_chars p b.
Proof.
  induction a as [|c a IH]; cbn; [reflexivity|].
  rewrite IH. apply andb_assoc.
Qed.

(** ** The matcher finds only what the expression describes *)

Lemma star_sound {R} (p : ascii -> bool) (s : string)
    (k : string -> option R) (res : R) :
  star p s k = Some res ->
  exists w s', s = w +:+ s' /\ all_chars p w = true /\ k s' = Some res.
Proof.
  induction s as [|c s IH]; cbn; intros H.
  - exists "", "". auto.
  - destruct (p c) eqn:Hp.
    + destruct (star p s k) as [r|] eqn:Hs.
      * injection H as <-.
        destruct (IH eq_refl) as (w & s' & -> & Hw & Hk).
        exists (String c w), s'. cbn. rewrite Hp, Hw. auto.
      * exists "", (String c s). auto.
    + exists "", (String c s). auto.
Qed.

Lemma run_sound {R} (r : Regex) :
  forall (s : string) (caps : list string)
         (k : string -> list string -> option R) (res : R),
    run r s caps k = Some res ->
    exists w s' c, s = w +:+ s' /\ Matches r w c /\ k s' (caps ++ c) = Some res.
Proof.
  induction r as [text|p|p|r1 IH1 r2 IH2|r IH]; intros s caps k res H; cbn in H.
  - destruct (strip_prefix text s) as [s'|] eqn:Hs; [|discriminate].
    apply strip_prefix_Some in Hs.
    exists text, s', []. rewrite List.app_nil_r. auto using Matches.
  - destruct s as [|c s]; [discriminate|].
    destruct (p c) eqn:Hp; [|discriminate].
    exists (String c ""), s, []. rewrite List.app_nil_r. auto using Matches.
  - apply star_sound in H as (w & s' & -> & Hw & Hk).
    exists w, s', []. rewrite List.app_nil_r. auto using Matches.
  - apply IH1 in H as (w1 & s1 & c1 & -> & M1 & H).
    apply IH2 in H as (w2 & s2 & c2 & -> & M2 & H).
    exists (w1 +:+ w2), s2, (c1 ++ c2).
    rewrite string_app_assoc, List.app_assoc. auto using Matches.
  - apply IH in H as (w & s' & c & -> & M & H).
    rewrite consumed_app, <- List.app_assoc in H.
    exists w, s', (c ++ [w]). auto using Matches.
Qed.

Lemma match_here_sound (r : Regex) (s rest : string) (caps : list string) :
  match_here r s = Some (caps, rest) ->
  exists w, s = w +:+ rest /\ Matches r w caps.
Proof.
  unfold match_here. intros H.
  apply run_sound in H as (w & s' & c & -> & M & H).
  cbn in H. injection H as <- <-. eauto.
Qed.

Lemma Matches_groups (r : Regex) (w : string) (c : list string) :
  Matches r w c -> length c = groups r.
Proof.
  induction 1; cbn; rewrite ?List.length_app; cbn; lia.
Qed.

(** What each of the three patterns matches: the declaration up to the
    literal, an object region, and the semicolon. *)
Lemma assignment_of_inv (words : Regex) (w : string) (caps : list string) :
  groups words = 0%nat ->
  Matches (assignment_of words) w caps ->
  exists w1 g, caps = [w1; g; ";"] /\ w = w1 +:+ g +:+ ";" /\ object_region g.
Proof.
  intros Hg H. unfold assignment_of, Plus in H.
  inversion H as [| | |? ? wa wbc ca cbc HA HBC|]; subst; clear H.
  inversion HA as [| | | |? ? cA HA']; subst; clear HA.
  apply Matches_groups in HA'. cbn in HA'. rewrite Hg in HA'.
  destruct cA; [|discriminate]. clear HA'.
  inversion HBC as [| | |? ? wb wc cb cc HB HC|]; subst; clear HBC.
  inversion HC as [| | | |? ? cC HC']; subst; clear HC.
  inversion HC'; subst; clear HC'.
  inversion HB as [| | | |? ? cB HB']; subst; clear HB.
  inversion HB' as [| | |? ? w1 w2 c1 c2 H1 H2|]; subst; clear HB'.
  inversion H1; subst; clear H1.
  inversion H2 as [| | |? ? w3 w4 c3 c4 H3 H4|]; subst; clear H2.
  inversion H4; subst; clear H4.
  inversion H3 as [| | |? ? w5 w6 c5 c6 H5 H6|]; subst; clear H3.
  inversion H5 as [|? c Hc| | |]; subst; clear H5.
  inversion H6 as [| |? ? Hs| |]; subst; clear H6.
  cbn [List.app].
  eexists _, _. split; [reflexivity|]. split; [reflexivity|].
  exists (String c w6). split; [|split].
  - cbn. rewrite ?string_app_assoc. reflexivity.
  - discriminate.
  - cbn. rewrite Hc, Hs. reflexivity.
Qed.

(** ** The replacement template *)

Lemma expand_no_dollar (s t matched before after : string) (caps : list string) :
  no_dollar s = true ->
  expand (s +:+ t) matched before after caps
  = s +:+ expand t matched before after caps.
Proof.
  unfold no_dollar. induction s as [|c s IH]; cbn; intros H; [reflexivity|].
  apply andb_true_iff in H as [Hc Hs]. rewrite Hc, IH by exact Hs. reflexivity.
Qed.

Lemma expand_template (J matched before after w1 g w3 : string) (c0 : ascii)
    (J' : string) :
  J = String c0 J' -> is_digit c0 = false -> no_dollar J = true ->
  expand ("$1" +:+ J +:+ "$3") matched before after [w1; g; w3]
  = w1 +:+ J +:+ w3.
Proof.
  intros HJ Hd Hn.
  assert (Ascii.eqb c0 "$" = false) as Hc0.
  { subst J. cbn in Hn. apply andb_true_iff in Hn as [Hn _].
    destruct (Ascii.eqb c0 "$"); [discriminate|reflexivity]. }
  transitivity (w1 +:+ expand (J +:+ "$3") matched before after [w1; g; w3]).
  - subst J. cbn. rewrite Hd. cbn. rewrite Hc0. reflexivity.
  - rewrite expand_no_dollar by exact Hn. cbn. rewrite string_app_nil_r. reflexivity.
Qed.

(** ** The global replacement keeps everything but the object regions *)

Lemma regions_replaced_prefix (J : string) (n : nat) (w s s' : string) :
  regions_replaced J n s s' ->
  regions_replaced J n (w +:+ s) (w +:+ s').
Proof.
  intros H. induction w as [|c w IH]; cbn; [exact H|].
  constructor. exact IH.
Qed.

Section Replacement.

Variable words : Regex.
Hypothesis words_groupless : groups words = 0%nat.

(** The pretty-printed schema: it starts with a character that is not a
    digit and holds no dollar sign. *)
Variables (J J' : string) (c0 : ascii).
Hypothesis J_head : J = String c0 J'.
Hypothesis J_not_digit : is_digit c0 = false.
Hypothesis J_no_dollar : no_dollar J = true.

Let pattern := assignment_of words.
Let template := "$1" +:+ J +:+ "$3".

Lemma match_here_assignment (s rest : string) (caps : list string) :
  match_here pattern s = Some (caps, rest) ->
  exists w1 g, caps = [w1; g; ";"] /\ s = (w1 +:+ g +:+ ";") +:+ rest /\
               object_region g.
Proof.
  intros H. apply match_here_sound in H as (w & -> & M).
  apply assignment_of_inv in M as (w1 & g & -> & -> & Hg);
    [|exact words_groupless].
  eauto.
Qed.

Lemma replace_all_skip (w before s : string) :
  replace_all pattern template before (String.length w) (w +:+ s)
  = replace_all pattern template (before +:+ w) 0 s.
Proof.
  revert before. induction w as [|c w IH]; intros before; cbn.
  - rewrite string_app_nil_r. reflexivity.
  - rewrite IH, string_app_assoc. reflexivity.
Qed.

Lemma replace_all_frame (n : nat) :
  forall s before, (String.length s <= n)%nat ->
    exists k, regions_replaced J k s (replace_all pattern template before 0 s) /\
              (test pattern s = true -> (1 <= k)%nat).
Proof.
  induction n as [|n IH]; intros s before Hlen.
  - destruct s; [|cbn in Hlen; lia].
    cbn [replace_all test].
    destruct (match_here pattern "") as [[caps rest]|] eqn:Hm.
    + apply match_here_assignment in Hm as (w1 & g & _ & Hs & Hg).
      destruct w1; [|discriminate].
      destruct Hg as (body & -> & _). discriminate.
    + exists 0%nat. split; [constructor|discriminate].
  - destruct s as [|c s].
    { apply (IH "" before). cbn. lia. }
    cbn [replace_all test].
    destruct (match_here pattern (String c s)) as [[caps rest]|] eqn:Hm.
    + apply match_here_assignment in Hm as (w1 & g & -> & Hs & Hg).
      set (w := w1 +:+ g +:+ ";") in *.
      assert (exists w', w = String c w') as [w' Hw].
      { destruct w as [|c' w'] eqn:Ew.
        - exfalso. subst w. destruct w1; [|discriminate].
          destruct Hg as (body & -> & _). discriminate.
        - cbn in Hs. injection Hs as -> _. eauto. }
      rewrite Hs, consumed_app, Hw. cbn [String.length].
      rewrite Hw in Hs. cbn in Hs. injection Hs as ->.
      rewrite replace_all_skip.
      destruct (IH rest ((before +:+ String c "") +:+ w')) as (k & Hk & _).
      { cbn in Hlen. rewrite string_length_app in Hlen. lia. }
      revert Hk.
      generalize (replace_all pattern template
                    ((before +:+ String c "") +:+ w') 0 rest) as out.
      intros out Hk.
      exists (S k). split; [|lia].
      unfold template at 1.
      rewrite (expand_template J _ _ _ w1 g ";" c0 J') by assumption.
      change (String c (w' +:+ rest)) with (String c w' +:+ rest).
      rewrite <- Hw. unfold w.
      rewrite !string_app_assoc.
      apply regions_replaced_prefix.
      apply (rr_region J g k rest _ Hg Hk).
    + destruct (IH s (before +:+ String c "")) as (k & Hk & Ht).
      { cbn in Hlen. lia. }
      exists k. split; [constructor; exact Hk|exact Ht].
Qed.

End Replacement.

Lemma JSON_stringify_object_head (props : list (string * JsVal)) :
  exists J', JSON_stringify (JObj props) = String "{" J'.
Proof.
  unfold JSON_stringify. cbn [serialize default]. unfold wrap.
  destruct (serialize_members serialize ("" +:+ gap) props);
    eexists; reflexivity.
Qed.

(** A successful update replaces at least one object region of the old
    text by the pretty-printed schema and keeps every other character. *)
Lemma updateSchemaInCode_frame (content updated : string)
    (props : list (string * JsVal)) :
  no_dollar (JSON_stringify (JObj props)) = true ->
  updateSchemaInCode content (JObj props) = Returns updated ->
  exists k, (1 <= k)%nat /\
            regions_replaced (JSON_stringify (JObj props)) k content updated.
Proof.
  intros Hn H.
  destruct (JSON_stringify_object_head props) as [J' HJ].
  unfold updateSchemaInCode, patterns in H. cbn [replace_first_matching] in H.
  repeat match type of H with
  | (if test (assignment_of ?words) content then _ else _) = _ =>
      destruct (test (assignment_of words) content) eqn:Ht;
        [ injection H as <-;
          destruct (replace_all_frame words eq_refl _ J' "{" HJ eq_refl Hn
                      (String.length content) content "" (le_n _))
            as (k & Hk & Hk1);
          exists k; split; [apply Hk1; exact Ht | exact Hk]
        | clear Ht ]
  end.
  discriminate.
Qed.

Lemma updateSchemaInCode_no_match (content : string) (newSchema : Schema) :
  (forall pattern, In pattern patterns -> test pattern content = false) ->
  updateSchemaInCode content newSchema
  = Throws (Error "Could not update schema in config file").
Proof.
  intros H. unfold updateSchemaInCode.
  induction patterns as [|p ps IH]; cbn; [reflexivity|].
  rewrite (H p) by (left; reflexivity).
  apply IH. intros; apply H; right; assumption.
Qed.

(** ** Reading back what was printed *)

Lemma JsVal_induction (P : JsVal -> Prop) :
  P JUndefined -> P JNull -> (forall b, P (JBool b)) -> (forall n, P (JNum n)) ->
  (forall s, P (JStr s)) ->
  (forall xs, Forall P xs -> P (JArr xs)) ->
  (forall props, Forall (fun kv => P (snd kv)) props -> P (JObj props)) ->
  forall v, P v.
Proof.
  intros Hu Hn Hb Hz Hs Ha Ho.
  fix IH 1. intros [| |b|n|s|xs|props].
  - exact Hu.
  - exact Hn.
  - apply Hb.
  - apply Hz.
  - apply Hs.
  - apply Ha. induction xs as [|x xs IHxs]; constructor;
      [apply IH | exact IHxs].
  - apply Ho. induction props as [|[k x] props IHp]; constructor;
      [apply IH | exact IHp].
Qed.

Lemma set_prop_fresh (k : string) (v : JsVal) (obj : list (string * JsVal)) :
  existsb (String.eqb k) (map fst obj) = false ->
  set_prop k v obj = obj ++ [(k, v)].
Proof.
  induction obj as [|[k' v'] obj IH]; cbn; intros H; [reflexivity|].
  apply orb_false_iff in H as [Hk H].
  rewrite String.eqb_sym, Hk, IH by exact H. reflexivity.
Qed.

Lemma distinct_middle (a b : list string) (k : string) :
  distinct (a ++ k :: b) = true ->
  existsb (String.eqb k) a = false /\ distinct ((a ++ [k]) ++ b) = true.
Proof.
  rewrite <- List.app_assoc. cbn [List.app].
  intros H. split; [|exact H].
  induction a as [|x a IH]; cbn in *; [reflexivity|].
  apply andb_true_iff in H as [Hx H].
  rewrite IH by exact H. rewrite orb_false_r.
  apply negb_true_iff in Hx. rewrite existsb_app in Hx.
  apply orb_false_iff in Hx as [_ Hx]. cbn in Hx.
  apply orb_false_iff in Hx as [Hx _].
  rewrite String.eqb_sym. exact Hx.
Qed.

Lemma convert_literal (v : JsVal) :
  plain v = true -> convertAstToObject (literal_of v) = Returns v.
Proof.
  induction v as [| |b|n|s|xs IH|props IH] using JsVal_induction;
    cbn [plain literal_of]; intros Hp; try discriminate; try reflexivity.
  - rewrite Hp. reflexivity.
  - cbn [convertAstToObject].
    enough (forall acc,
      convert_elements convertAstToObject
        (map (fun x => Some match x with
                            | JUndefined => NullLiteral
                            | _ => literal_of x
                            end) xs) acc
      = Returns (JArr (acc ++ xs))) as H by apply (H []).
    induction IH as [|x xs Hx _ IHxs]; intros acc; cbn.
    + rewrite List.app_nil_r. reflexivity.
    + cbn in Hp. apply andb_true_iff in Hp as [Hpx Hp].
      assert (match x with
              | JUndefined => NullLiteral
              | _ => literal_of x
              end = literal_of x) as -> by (destruct x; [discriminate|reflexivity..]).
      rewrite (Hx Hpx), (IHxs Hp), <- List.app_assoc. reflexivity.
  - cbn [convertAstToObject].
    apply andb_true_iff in Hp as [Hd Hp].
    enough (forall obj,
      distinct (map fst (obj ++ props)) = true ->
      convert_properties convertAstToObject (literal_members literal_of props) obj
      = Returns (JObj (obj ++ props))) as H by apply (H [] Hd).
    clear Hd.
    induction IH as [|[k x] props Hx _ IHp]; intros obj Hd.
    + cbn. rewrite List.app_nil_r. reflexivity.
    + cbn in Hp. apply andb_true_iff in Hp as [Hpx Hp].
      apply andb_true_iff in Hpx as [_ Hpx].
      cbn in Hx. specialize (Hx Hpx).
      rewrite map_app in Hd. cbn in Hd.
      apply distinct_middle in Hd as [Hfresh Hd].
      assert (literal_members literal_of ((k, x) :: props)
              = ObjectProperty (StringLiteral k) (literal_of x)
                  :: literal_members literal_of props) as ->
        by (destruct x; [discriminate|reflexivity..]).
      cbn. rewrite Hx, set_prop_fresh by exact Hfresh.
      rewrite IHp, <- List.app_assoc; [reflexivity|exact Hp|].
      rewrite !map_app. exact Hd.
Qed.

Lemma validate_structure_well_formed (schema : Schema) :
  well_formed schema -> validate_structure schema = Returns schema.
Proof.
  intros (_ & props & pid & n & tbl & -> & Hpid & Hne & Hv & Ht).
  unfold validate_structure. cbn [get_prop outcome_bind].
  rewrite Hpid, Hv, Ht. cbn.
  destruct (String.eqb_spec pid ""); [contradiction|reflexivity].
Qed.

Section ReadingBack.

Variable parse : string -> Parsed Program.
Variable JSON_parse : string -> Parsed JsVal.

Lemma extractSchemaFromCode_literal (text : string) (body : Program)
    (schema : Schema) :
  well_formed schema ->
  parse text = ParsedAs body ->
  find_schemaNode body = Some (literal_of schema) ->
  extractSchemaFromCode parse text = Returns schema.
Proof.
  intros Hwf Hp Hf. unfold extractSchemaFromCode.
  rewrite Hp. cbn [parsed outcome_bind]. rewrite Hf.
  assert (is_ObjectExpression (literal_of schema) = true) as ->.
  { destruct Hwf as (_ & props & ? & ? & ? & -> & _). reflexivity. }
  rewrite convert_literal by apply Hwf. cbn [outcome_bind].
  rewrite validate_structure_well_formed by exact Hwf. reflexivity.
Qed.

Lemma read_config_file_reads_back (fs : FileSystem) (dir filename text : string)
    (schema : Schema) :
  well_formed schema ->
  fs !! path_join dir filename = Some (RegularFile text) ->
  reads_back parse JSON_parse filename text schema ->
  exists pid,
    read_config_file parse JSON_parse fs dir filename
    = Returns {| schema := schema;
                 projectId := JStr pid;
                 filePath := path_join dir filename |} /\
    get_prop schema "project_id" = Returns (JStr pid).
Proof.
  intros Hwf Hfs Hrb.
  pose proof Hwf as (_ & props & pid & n & tbl & Hs & Hpid & Hne & _).
  exists pid.
  unfold read_config_file, fs_access, fs_readFile. rewrite Hfs. cbn.
  unfold reads_back in Hrb.
  assert ((if endsWith filename ".json"
           then parsed (JSON_parse text)
           else extractSchemaFromCode parse text) = Returns schema) as ->.
  { destruct (endsWith filename ".json").
    - rewrite Hrb. reflexivity.
    - destruct Hrb as (body & Hp & Hf).
      eapply extractSchemaFromCode_literal; eauto. }
  subst schema. cbn. rewrite Hpid. cbn.
  destruct (String.eqb_spec pid ""); [contradiction|]. cbn. auto.
Qed.

Lemma read_config_file_path (fs : FileSystem) (dir filename : string)
    (r : SchemaFileResult) :
  read_config_file parse JSON_parse fs dir filename = Returns r ->
  filePath r = path_join dir filename /\
  exists content, fs !! path_join dir filename = Some (RegularFile content).
Proof.
  unfold read_config_file, fs_access, fs_readFile.
  destruct (fs !! path_join dir filename) as [[content| |why]|]; cbn;
    try discriminate.
  intros H. split; [|eauto].
  match type of H with
  | outcome_bind ?o _ = _ => destruct o as [v|]; cbn in H; [|discriminate]
  end.
  destruct (get_prop v "project_id") as [p|]; cbn in H; [|discriminate].
  destruct (truthy p); cbn in H; [|discriminate].
  injection H as <-. reflexivity.
Qed.

(** The loop returns the first file that exists. *)
Lemma read_first_Some (fs : FileSystem) (dir : string) (files : list string)
    (r : SchemaFileResult) :
  read_first parse JSON_parse fs dir files = Returns (Some r) ->
  exists before filename after,
    files = before ++ filename :: after /\
    (forall g, In g before -> fs !! path_join dir g = None) /\
    read_config_file parse JSON_parse fs dir filename = Returns r.
Proof.
  induction files as [|f files IH]; cbn; [discriminate|].
  destruct (read_config_file parse JSON_parse fs dir f) as [r'|e] eqn:Hr.
  - intros H. injection H as <-. exists [], f, files.
    repeat split; auto. intros g [].
  - case_bool_decide as Hc; [|discriminate].
    intros H. destruct (IH H) as (before & filename & after & -> & Hb & Hf).
    exists (f :: before), filename, after. repeat split; auto.
    intros g [<-|Hin]; [|auto].
    eapply read_config_file_ENOENT; eauto.
Qed.

Lemma read_first_at (fs : FileSystem) (dir : string)
    (before : list string) (filename : string) (after : list string)
    (r : SchemaFileResult) :
  (forall g, In g before -> fs !! path_join dir g = None) ->
  read_config_file parse JSON_parse fs dir filename = Returns r ->
  read_first parse JSON_parse fs dir (before ++ filename :: after)
  = Returns (Some r).
Proof.
  intros Hb Hf. induction before as [|g before IH]; cbn.
  - rewrite Hf. reflexivity.
  - rewrite read_config_file_absent by (apply Hb; left; reflexivity).
    cbn. apply IH. intros; apply Hb; right; assumption.
Qed.

End ReadingBack.

(** ** Saving a schema *)

Section SavingProperties.

Variable parse : string -> Parsed Program.
Variable JSON_parse : string -> Parsed JsVal.

(** What a save does for a well-formed schema whose pretty-printed JSON
    holds no dollar sign:  a successful save writes one file only, one of
    the three config files; it is either a new basic.config.ts with the
    generated content (when no config file existed), or the existing
    config file with at least one object region replaced by the
    pretty-printed schema and every other character kept; and whenever
    the parser of that file's format reads the printed schema in the new
    text, readSchemaFromConfig returns exactly the schema saved.  A save
    that raises leaves every file as it was; and the save does raise, with
    "Could not update schema in config file", when the text of the existing
    config file matches none of the three patterns. *)
Theorem save_then_read (schema : Schema) (fs : FileSystem) (dir : string) :
  well_formed schema ->
  no_dollar (JSON_stringify schema) = true ->
  (forall path fs',
     saveSchemaToConfig parse JSON_parse schema fs dir = (Returns path, fs') ->
     exists filename updated,
       In filename possibleFiles /\ path = path_join dir filename /\
       fs' = <[path := RegularFile updated]> fs /\
       ((readSchemaFromConfig parse JSON_parse fs dir = Returns None /\
         filename = "basic.config.ts" /\
         updated = generateConfigContent schema) \/
        (exists content k,
           fs !! path = Some (RegularFile content) /\ (1 <= k)%nat /\
           regions_replaced (JSON_stringify schema) k content updated)) /\
       (reads_back parse JSON_parse filename updated schema ->
        exists pid,
          get_prop schema "project_id" = Returns (JStr pid) /\
          readSchemaFromConfig parse JSON_parse fs' dir
          = Returns (Some {| schema := schema;
                             projectId := JStr pid;
                             filePath := path |}))) /\
  (forall e fs',
     saveSchemaToConfig parse JSON_parse schema fs dir = (Throws e, fs') ->
     fs' = fs) /\
  (forall existing content,
     readSchemaFromConfig parse JSON_parse fs dir = Returns (Some existing) ->
     fs !! filePath existing = Some (RegularFile content) ->
     (forall pattern, In pattern patterns -> test pattern content = false) ->
     saveSchemaToConfig parse JSON_parse schema fs dir
     = (Throws (Error "Could not update schema in config file"), fs)).
Proof.
  intros Hwf Hnd. apply and_assoc. split; cycle 1.
  { intros existing content Hread Hfs Hno.
    unfold saveSchemaToConfig, fs_readFile.
    rewrite Hread, Hfs, updateSchemaInCode_no_match by exact Hno. reflexivity. }
  unfold saveSchemaToConfig.
  destruct (readSchemaFromConfig parse JSON_parse fs dir)
    as [[existing|]|e0] eqn:Hread.
  - (* an existing config file *)
    unfold readSchemaFromConfig in Hread.
    apply read_first_Some in Hread
      as (before & filename & after & Hfiles & Hbefore & Hfile).
    destruct (read_config_file_path _ _ _ _ _ _ Hfile) as (Hpath & content & Hfs).
    rewrite Hpath. unfold fs_readFile, fs_writeFile. rewrite Hfs.
    destruct (updateSchemaInCode content schema) as [updated|e1] eqn:Hup.
    + split; [|discriminate].
      intros path fs' H. injection H as <- <-.
      exists filename, updated.
      split; [rewrite Hfiles; apply in_elt|].
      split; [reflexivity|]. split; [reflexivity|].
      split.
      * right. exists content.
        destruct Hwf as (_ & props & ? & ? & ? & -> & _).
        destruct (updateSchemaInCode_frame _ _ _ Hnd Hup) as (k & Hk & Hrr).
        eauto.
      * intros Hrb.
        destruct (read_config_file_reads_back parse JSON_parse
                    (<[path_join dir filename := RegularFile updated]> fs)
                    dir filename updated schema Hwf)
          as (pid & Hr & Hpid); [apply lookup_insert_eq | exact Hrb |].
        exists pid. split; [exact Hpid|].
        unfold readSchemaFromConfig. rewrite Hfiles.
        apply read_first_at; [|exact Hr].
        intros g Hg. rewrite lookup_insert_ne; [auto|].
        intros Heq. rewrite Heq in Hfs. rewrite (Hbefore g Hg) in Hfs.
        discriminate.
    + split; [discriminate|]. intros e fs' H. injection H as _ <-. reflexivity.
  - (* no config file yet *)
    pose proof (proj1 (readSchemaFromConfig_null_iff _ _ _ _) Hread) as Habsent.
    unfold fs_writeFile.
    rewrite (Habsent "basic.config.ts") by (left; reflexivity).
    split; [|discriminate].
    intros path fs' H. injection H as <- <-.
    exists "basic.config.ts", (generateConfigContent schema).
    split; [left; reflexivity|].
    split; [reflexivity|]. split; [reflexivity|].
    split; [left; auto|].
    intros Hrb.
    destruct (read_config_file_reads_back parse JSON_parse
                (<[path_join dir "basic.config.ts"
                   := RegularFile (generateConfigContent schema)]> fs)
                dir "basic.config.ts" (generateConfigContent schema) schema Hwf)
      as (pid & Hr & Hpid); [apply lookup_insert_eq | exact Hrb |].
    exists pid. split; [exact Hpid|].
    unfold readSchemaFromConfig, possibleFiles. cbn [read_first].
    rewrite Hr. reflexivity.
  - split; [discriminate|]. intros e fs' H. injection H as _ <-. reflexivity.
Qed.

End SavingProperties.

Lemma well_formed_schema_at (n : Z) : 0 <= n -> well_formed (schema_at n).
Proof.
  intros Hn. split.
  - cbn. destruct (Z.leb_spec 0 n); [reflexivity|lia].
  - exists [("project_id", JStr "p1"); ("version", JNum n); ("tables", JObj [])],
      "p1", n, []. repeat split. discriminate.
Qed.

Lemma save_then_read_witness :
  saveSchemaToConfig babel_stand_in (parser_table []) (schema_at 2)
    (only_ts_config ts_config_text) "."
  = (Returns "./basic.config.ts", only_ts_config ts_config_saved) /\
  (exists k, (1 <= k)%nat /\
     regions_replaced (JSON_stringify (schema_at 2)) k
       ts_config_text ts_config_saved) /\
  readSchemaFromConfig babel_stand_in (parser_table [])
    (only_ts_config ts_config_saved) "."
  = Returns (Some {| schema := schema_at 2;
                     projectId := JStr "p1";
                     filePath := "./basic.config.ts" |}).
Proof.
  assert (saveSchemaToConfig babel_stand_in (parser_table []) (schema_at 2)
            (only_ts_config ts_config_text) "."
          = (Returns "./basic.config.ts",
             <["./basic.config.ts" := RegularFile ts_config_saved]>
               (only_ts_config ts_config_text))) as Hsave
    by (vm_compute; reflexivity).
  assert (<["./basic.config.ts" := RegularFile ts_config_saved]>
            (only_ts_config ts_config_text)
          = only_ts_config ts_config_saved) as Hfs
    by (apply insert_singleton_eq).
  destruct (save_then_read babel_stand_in (parser_table []) (schema_at 2)
              (only_ts_config ts_config_text) "."
              (well_formed_schema_at 2 ltac:(lia)) eq_refl) as [Hok _].
  destruct (Hok _ _ Hsave)
    as (filename & updated & Hin & Hpath & Hfs' & Hwritten & Hback).
  change "./basic.config.ts" with (path_join "." "basic.config.ts") in Hpath.
  apply path_join_inj in Hpath as <-.
  assert (updated = ts_config_saved) as ->.
  { rewrite Hfs in Hfs'. unfold only_ts_config in Hfs'.
    rewrite insert_singleton_eq in Hfs'.
    apply (f_equal (fun m => m !! path_join "." "basic.config.ts")) in Hfs'.
    rewrite !lookup_singleton_eq in Hfs'. congruence. }
  split; [rewrite Hsave, Hfs; reflexivity|].
  split.
  - destruct Hwritten as [(Hnone & _)|(content & k & Hc & Hk & Hrr)].
    + vm_compute in Hnone. discriminate.
    + unfold only_ts_config in Hc. rewrite lookup_singleton_eq in Hc.
      injection Hc as <-. eauto.
  - destruct Hback as (pid & Hpid & Hread).
    + exists (ts_config_body (literal_of (schema_at 2))). split; reflexivity.
    + injection Hpid as <-. rewrite <- Hfs. exact Hread.
Defined.

(** With a basic.config.json on disk, which readSchemaFromConfig accepts,
    saving a well-formed schema raises and the file still holds the old
    schema. *)
Lemma save_fails_on_json_config :
  let fs := only_json_config (JSON_stringify (schema_at 1)) in
  let JSON_parse := parser_table [(JSON_stringify (schema_at 1), schema_at 1)] in
  well_formed (schema_at 2) /\
  readSchemaFromConfig (parser_table []) JSON_parse fs "."
  = Returns (Some {| schema := schema_at 1;
                     projectId := JStr "p1";
                     filePath := "./basic.config.json" |}) /\
  saveSchemaToConfig (parser_table []) JSON_parse (schema_at 2) fs "."
  = (Throws (Error "Could not update schema in config file"), fs) /\
  schema_at 1 <> schema_at 2.
Proof.
  split; [apply well_formed_schema_at; lia|].
  split; [vm_compute; reflexivity|].
  split; [vm_compute; reflexivity|discriminate].
Qed.

(** A negative number is printed with a minus sign, which is read back as
    a unary expression and refused: such values are not [plain]. *)
Example negative_number_is_not_read_back :
  convertAstToObject (literal_of (JNum (-1)))
  = Throws (Error "Unsupported node type: UnaryExpression").
Proof. reflexivity. Qed.

(** A dollar sign in the schema is read as a replacement pattern: the
    saved text holds one dollar sign where the schema has two. *)
Example dollar_in_schema_is_rewritten :
  updateSchemaInCode "const schema = {x};" (JObj [("project_id", JStr "a$$b")])
  = Returns ("const schema = " +:+ JSON_stringify (JObj [("project_id", JStr "a$b")])
             +:+ ";").
Proof. vm_compute. reflexivity. Qed.

Local Arguments readSchemaFromConfig : simpl never.
Local Arguments saveSchemaToConfig : simpl never.
Local Arguments analyzePushAction : simpl never.
Local Arguments analyzePullAction : simpl never.

Ltac case_read :=
  match goal with
  | |- context [readSchemaFromConfig ?a ?b ?c ?d] =>
      destruct (readSchemaFromConfig a b c d) as [[?lc|]|]
  end.

Ltac case_fetch :=
  match goal with
  | |- context [getProjectSchema ?a ?b] =>
      destruct (getProjectSchema a b) as [?fetched|]
  end.

(** ** The push command *)

Lemma analyzePushAction_confirmation (localConfig : SchemaFileResult)
    (remoteSchema : Schema) (comparison : Comparison) (api : ApiClient)
    (log log' : list ApiCall) (r : ActionResult) :
  analyzePushAction localConfig remoteSchema comparison api log = (Returns r, log') ->
  (needsConfirmation r = true <-> status r = Ahead).
Proof.
  unfold analyzePushAction.
  destruct (c_status comparison);
    [ | | | destruct ((c_localVersion comparison =? 0)
                      && (c_remoteVersion comparison =? 0)) ];
    run_flow;
    try destruct (validateSchema api (schema localConfig)) as [v|]; cbn;
    try destruct (compareSchema api (schema localConfig)) as [c|]; cbn;
    try destruct (reports_errors v); try destruct (cmp_valid c); cbn;
    intros H; injection H as <- _; cbn; split; (discriminate || reflexivity).
Qed.

Lemma push_useInput_idle (env : Env) (app : PushApp.App) (key : Key) :
  PushApp.phase (PushApp.state app) <> PushApp.confirming ->
  PushApp.useInput env app key = app.
Proof.
  unfold PushApp.useInput.
  destruct (PushApp.phase (PushApp.state app)); congruence.
Qed.

Lemma push_run_idle (env : Env) (keys : list Key) (app : PushApp.App) :
  PushApp.phase (PushApp.state app) <> PushApp.confirming ->
  fold_left (PushApp.useInput env) keys app = app.
Proof.
  intros H. induction keys as [|k keys IH]; cbn; [reflexivity|].
  rewrite push_useInput_idle by exact H. exact IH.
Qed.

(** C5. The push analyzer asks for confirmation exactly when its status is
    ahead; after the check the command is confirming exactly in that case
    and otherwise rests in no-action; and when the comparator reports
    behind, no key sequence brings the command to pushing or success, and
    no push request is ever sent. *)
Theorem push_confirmation_iff_ahead :
  (forall localConfig remoteSchema comparison api log log' r,
     analyzePushAction localConfig remoteSchema comparison api log
       = (Returns r, log') ->
     (needsConfirmation r = true <-> status r = Ahead)) /\
  (forall env fs r,
     PushApp.statusResult (PushApp.state (PushApp.mount env fs)) = Some r ->
     (PushApp.phase (PushApp.state (PushApp.mount env fs)) = PushApp.confirming
        <-> status r = Ahead) /\
     (status r <> Ahead ->
      PushApp.phase (PushApp.state (PushApp.mount env fs)) = PushApp.no_action)) /\
  (forall env fs localConfig fetched keys,
     isOnline env = true ->
     getToken env = Returns true ->
     readSchemaFromConfig (babel_parse env) (json_parse env) fs (cwd env)
       = Returns (Some localConfig) ->
     getProjectSchema (apiClient env) (js_to_string (projectId localConfig))
       = Returns fetched ->
     c_status (compareVersions (schema localConfig)
                 (default (empty_remote (projectId localConfig)) fetched))
       = VBehind ->
     let app := PushApp.run env fs keys in
     PushApp.phase (PushApp.state app) = PushApp.no_action /\
     Forall (fun s => PushApp.phase s <> PushApp.pushing /\
                      PushApp.phase s <> PushApp.success)
            (PushApp.history app) /\
     (forall pid s, ~ In (PushProjectSchemaCall pid s) (calls (PushApp.world app)))).
Proof.
  split; [|split].
  - intros. eapply analyzePushAction_confirmation; eauto.
  - intros env fs r. unfold PushApp.mount, PushApp.checkPushStatus.
    destruct (isOnline env); cbn; [|discriminate].
    destruct (getToken env) as [[|]|]; cbn; try discriminate.
    case_read; cbn; try discriminate.
    + case_fetch; cbn; [|discriminate].
      match goal with
      | |- context [analyzePushAction ?a ?b ?c ?d ?e] =>
          destruct (analyzePushAction a b c d e) as [[r'|] log] eqn:Ha
      end; cbn; [|discriminate].
      intros H. injection H as <-.
      apply analyzePushAction_confirmation in Ha.
      destruct (needsConfirmation r') eqn:Hn.
      * split; [split; [intros _; apply Ha; reflexivity|reflexivity]|].
        intros Hs. exfalso. apply Hs, Ha. reflexivity.
      * split; [split; [discriminate|]|reflexivity].
        intros Hs. apply Ha in Hs. discriminate.
    + intros H. injection H as <-. cbn.
      split; [split; discriminate|reflexivity].
  - intros env fs localConfig fetched keys Hon Htok Hread Hget Hcmp app.
    assert (exists s,
      PushApp.mount env fs
      = {| PushApp.state := s; PushApp.selectedOption := yes;
           PushApp.world :=
             {| files := fs;
                calls := [GetProjectSchemaCall (js_to_string (projectId localConfig))];
                saves := [] |};
           PushApp.history := [PushApp.initial; s] |} /\
      PushApp.phase s = PushApp.no_action) as (s & Hm & Hs).
    { unfold PushApp.mount, PushApp.checkPushStatus.
      rewrite Hon, Htok. cbn. rewrite Hread, Hget.
      replace (match fetched with
               | Some s => s
               | None => empty_remote (projectId localConfig)
               end)
        with (default (empty_remote (projectId localConfig)) fetched)
        by (destruct fetched; reflexivity).
      unfold analyzePushAction. rewrite Hcmp. cbn. eauto. }
    subst app. unfold PushApp.run.
    rewrite push_run_idle by (rewrite Hm; cbn; rewrite Hs; discriminate).
    rewrite Hm. cbn. split; [exact Hs|]. split.
    + repeat constructor; cbn; try discriminate; rewrite Hs; discriminate.
    + intros pid sch [H|[]]. discriminate.
Qed.

Lemma push_confirmation_iff_ahead_witness :
  let env := env_with_remote (Some (schema_at 2)) in
  let app := PushApp.run env (only_ts_config ts_config_text)
               [key_enter; key_down; key_enter] in
  PushApp.phase (PushApp.state app) = PushApp.no_action /\
  Forall (fun s => PushApp.phase s <> PushApp.pushing /\
                   PushApp.phase s <> PushApp.success)
         (PushApp.history app) /\
  (forall pid s, ~ In (PushProjectSchemaCall pid s) (calls (PushApp.world app))).
Proof.
  apply (proj2 (proj2 push_confirmation_iff_ahead)
           (env_with_remote (Some (schema_at 2)))
           (only_ts_config ts_config_text)
           {| schema := schema_at 1; projectId := JStr "p1";
              filePath := "./basic.config.ts" |}
           (Some (schema_at 2)));
    vm_compute; reflexivity.
Defined.

(** ** The pull command *)

Lemma analyzePullAction_confirmation (localConfig : SchemaFileResult)
    (remoteSchema : Schema) (comparison : Comparison) (api : ApiClient)
    (log log' : list ApiCall) (r : ActionResult) :
  analyzePullAction localConfig remoteSchema comparison api log = (Returns r, log') ->
  (needsConfirmation r = true <-> status r = Behind \/ status r = Conflict).
Proof.
  unfold analyzePullAction.
  destruct (c_status comparison);
    [ | | | destruct ((c_localVersion comparison =? 0)
                      && (c_remoteVersion comparison =? 0)) ];
    run_flow;
    try destruct (compareSchema api (schema localConfig)) as [c|]; cbn;
    try destruct (cmp_valid c); cbn;
    intros H; injection H as <- _; cbn; split;
    (discriminate || (intros [?|?]; discriminate) || auto).
Qed.

Lemma pull_mount_untouched (env : Env) (fs : FileSystem) :
  untouched fs (PullApp.mount env fs).
Proof.
  unfold untouched, PullApp.mount, PullApp.checkPullStatus.
  destruct (isOnline env); cbn;
    [|repeat split; repeat constructor; discriminate].
  destruct (getToken env) as [[|]|]; cbn;
    try (repeat split; repeat constructor; discriminate).
  case_read; cbn;
    try (repeat split; repeat constructor; discriminate).
  case_fetch; cbn;
    [|repeat split; repeat constructor; discriminate].
  match goal with
  | |- context [analyzePullAction ?a ?b ?c ?d ?e] =>
      destruct (analyzePullAction a b c d e) as [[r|] log]
  end; cbn; [|repeat split; repeat constructor; discriminate].
  repeat split; repeat constructor; cbn; try discriminate.
  destruct (needsConfirmation r); discriminate.
Qed.

Lemma pull_now_not_confirming (env : Env) (s : PullApp.PullState) (w : World) :
  PullApp.phase (fst (PullApp.pull_now env s w)) <> PullApp.confirming.
Proof.
  unfold PullApp.pull_now.
  destruct (PullApp.statusResult s); cbn; [|discriminate].
  case_read; cbn; try discriminate.
  match goal with
  | |- context [getProjectSchema ?a ?b] =>
      destruct (getProjectSchema a b) as [[remote|]|]
  end; cbn; try discriminate.
  match goal with
  | |- context [saveSchemaToConfig ?a ?b ?c ?d ?e] =>
      destruct (saveSchemaToConfig a b c d e) as [[path|] fs']
  end; cbn; discriminate.
Qed.

(** A key that leaves the command confirming found it confirming, and
    changed nothing but the highlighted answer. *)
Lemma pull_useInput_confirming (env : Env) (fs : FileSystem)
    (app : PullApp.App) (key : Key) :
  PullApp.phase (PullApp.state (PullApp.useInput env app key)) = PullApp.confirming ->
  PullApp.phase (PullApp.state app) = PullApp.confirming /\
  (untouched fs app -> untouched fs (PullApp.useInput env app key)).
Proof.
  unfold PullApp.useInput.
  destruct (PullApp.phase (PullApp.state app)) eqn:Hp;
    try (intros H; rewrite Hp in H; discriminate).
  destruct (upArrow key || downArrow key).
  { intros _. split; [reflexivity|]. intros H; exact H. }
  destruct (return_ key).
  - destruct (PullApp.selectedOption app); [|cbn; discriminate].
    intros H. exfalso. unfold PullApp.handlePull in H.
    pose proof (pull_now_not_confirming env (PullApp.state app) (PullApp.world app))
      as Hn.
    destruct (PullApp.pull_now env (PullApp.state app) (PullApp.world app)).
    cbn in *. contradiction.
  - destruct (escape key || String.eqb (input key) "q"); cbn;
      [discriminate|intros _; split; auto].
Qed.

Lemma pull_run_snoc (env : Env) (fs : FileSystem) (keys : list Key) (key : Key) :
  PullApp.run env fs (keys ++ [key])
  = PullApp.useInput env (PullApp.run env fs keys) key.
Proof. unfold PullApp.run. rewrite fold_left_app. reflexivity. Qed.

Lemma pull_confirming_untouched (env : Env) (fs : FileSystem) (keys : list Key) :
  PullApp.phase (PullApp.state (PullApp.run env fs keys)) = PullApp.confirming ->
  untouched fs (PullApp.run env fs keys).
Proof.
  induction keys as [|key keys IH] using rev_ind.
  - intros _. apply pull_mount_untouched.
  - rewrite pull_run_snoc. intros H.
    destruct (pull_useInput_confirming env fs _ _ H) as [Hprev Hkeep].
    apply Hkeep, IH, Hprev.
Qed.

Lemma pull_run_idle (env : Env) (keys : list Key) (app : PullApp.App) :
  PullApp.phase (PullApp.state app) <> PullApp.confirming ->
  fold_left (PullApp.useInput env) keys app = app.
Proof.
  intros H. induction keys as [|k keys IH]; cbn; [reflexivity|].
  assert (PullApp.useInput env app k = app) as ->; [|exact IH].
  unfold PullApp.useInput.
  destruct (PullApp.phase (PullApp.state app)); congruence.
Qed.

(** C6. The pull analyzer asks for confirmation whenever (indeed exactly
    when) its status is behind or conflict; and when the user, asked to
    confirm, declines (Enter on "No", Escape or q), the command goes to
    no-action and stays there: the files are those it started with,
    saveSchemaToConfig was never invoked, and the pulling phase was never
    entered, whatever keys follow. *)
Theorem pull_confirmation_and_decline :
  (forall localConfig remoteSchema comparison api log log' r,
     analyzePullAction localConfig remoteSchema comparison api log
       = (Returns r, log') ->
     (needsConfirmation r = true <-> status r = Behind \/ status r = Conflict)) /\
  (forall env fs before key after,
     PullApp.phase (PullApp.state (PullApp.run env fs before)) = PullApp.confirming ->
     PullApp.declines (PullApp.selectedOption (PullApp.run env fs before)) key = true ->
     let app := PullApp.run env fs (before ++ key :: after) in
     PullApp.phase (PullApp.state app) = PullApp.no_action /\
     files (PullApp.world app) = fs /\
     saves (PullApp.world app) = [] /\
     Forall (fun s => PullApp.phase s <> PullApp.pulling) (PullApp.history app)).
Proof.
  split.
  - intros. eapply analyzePullAction_confirmation; eauto.
  - intros env fs before key after Hconf Hdecl app.
    pose proof (pull_confirming_untouched env fs before Hconf) as (Hf & Hs & Hh).
    subst app. unfold PullApp.run in *. rewrite fold_left_app. cbn [fold_left].
    set (prev := fold_left (PullApp.useInput env) before (PullApp.mount env fs)) in *.
    assert (PullApp.useInput env prev key
            = PullApp.set_state prev
                (PullApp.with_phase (PullApp.state prev) PullApp.no_action)
                (PullApp.world prev)) as Hstep.
    { unfold PullApp.useInput, PullApp.declines in *. rewrite Hconf.
      destruct (upArrow key || downArrow key); [discriminate|].
      destruct (return_ key).
      - destruct (PullApp.selectedOption prev); [discriminate|reflexivity].
      - cbn in Hdecl. rewrite Hdecl. reflexivity. }
    rewrite Hstep, pull_run_idle by (cbn; discriminate).
    cbn. repeat split; auto.
    apply Forall_app. split; [exact Hh|].
    repeat constructor. cbn. discriminate.
Qed.

Lemma pull_confirmation_and_decline_witness :
  let env := env_with_remote (Some (schema_at 2)) in
  let app := PullApp.run env (only_ts_config ts_config_text)
               ([key_down] ++ key_enter :: [key_enter; key_down]) in
  PullApp.phase (PullApp.state app) = PullApp.no_action /\
  files (PullApp.world app) = only_ts_config ts_config_text /\
  saves (PullApp.world app) = [] /\
  Forall (fun s => PullApp.phase s <> PullApp.pulling) (PullApp.history app).
Proof.
  apply (proj2 pull_confirmation_and_decline
           (env_with_remote (Some (schema_at 2)))
           (only_ts_config ts_config_text)
           [key_down] key_enter [key_enter; key_down]);
    vm_compute; reflexivity.
Defined.

(** * Further properties of the code *)

(** ** readSchemaFromConfig and extractSchemaFromCode *)

Lemma convert_properties_object (conv : Node -> Outcome JsVal)
    (props : list (ObjectMember Node)) :
  forall obj v, convert_properties conv props obj = Returns v ->
                exists obj', v = JObj obj'.
Proof.
  induction props as [|[key value|t] props IH]; intros obj v H; cbn in H.
  - injection H as <-. eauto.
  - destruct (getPropertyKey key) as [k|]; [|discriminate].
    destruct (conv value) as [x|]; [|discriminate]. eauto.
  - eauto.
Qed.

Lemma named_export_step (st : Statement) (body : Program) (acc : option Node) :
  named_export (st :: body) acc
  = named_export body match exported_schema st with
                      | Some init => Some init
                      | None => acc
                      end.
Proof.
  destruct st as [[[variable rest|t]|]|d|d|t]; cbn; try reflexivity.
  destruct (declares_schema variable); [|reflexivity].
  destruct (vd_init variable); reflexivity.
Qed.

Lemma named_export_none (body : Program) (acc : option Node) :
  (forall st, In st body -> exported_schema st = None) ->
  named_export body acc = acc.
Proof.
  revert acc. induction body as [|st body IH]; intros acc H; [reflexivity|].
  rewrite named_export_step, (H st) by (left; reflexivity).
  apply IH. intros; apply H; right; assumption.
Qed.

Lemma validate_structure_Returns (obj : list (string * JsVal)) (v : JsVal) :
  validate_structure (JObj obj) = Returns v ->
  v = JObj obj /\
  exists pid n,
    lookup_prop "project_id" obj = JStr pid /\ pid <> "" /\
    lookup_prop "version" obj = JNum n /\
    typeof (lookup_prop "tables" obj) = "object" /\
    lookup_prop "tables" obj <> JNull.
Proof.
  unfold validate_structure. cbn [get_prop outcome_bind].
  destruct (lookup_prop "project_id" obj) as [| |b|n|pid|xs|ps]; cbn;
    try discriminate;
    try (destruct b; discriminate);
    try (destruct (n =? 0); discriminate).
  destruct (String.eqb_spec pid "") as [|Hpid]; cbn; [discriminate|].
  destruct (lookup_prop "version" obj) as [| |b|n|s|xs|ps]; cbn;
    try discriminate.
  destruct (lookup_prop "tables" obj) as [| |b|m|s|xs|ps]; cbn;
    try discriminate;
    try (destruct b; discriminate);
    try (destruct (m =? 0); discriminate);
    try (destruct (String.eqb s ""); discriminate);
    intros H; injection H as <-; split; auto;
    exists pid, n; repeat split; auto; discriminate.
Qed.

Lemma extractSchemaFromCode_Returns (parse : string -> Parsed Program)
    (content : string) (v : JsVal) :
  extractSchemaFromCode parse content = Returns v ->
  exists props pid n,
    v = JObj props /\
    lookup_prop "project_id" props = JStr pid /\ pid <> "" /\
    lookup_prop "version" props = JNum n /\
    typeof (lookup_prop "tables" props) = "object" /\
    lookup_prop "tables" props <> JNull.
Proof.
  unfold extractSchemaFromCode.
  destruct (parse content) as [body|msg]; cbn; [|discriminate].
  destruct (find_schemaNode body) as [node|]; cbn; [|discriminate].
  destruct node as [properties| | | | | | |]; cbn -[convert_properties];
    try discriminate.
  destruct (convert_properties convertAstToObject properties []) as [x|e] eqn:Hc;
    cbn; [|discriminate].
  apply convert_properties_object in Hc as [obj ->].
  destruct (validate_structure (JObj obj)) as [y|e] eqn:Hv; cbn; [|discriminate].
  intros H. injection H as <-.
  apply validate_structure_Returns in Hv as (-> & pid & n & H).
  exists obj, pid, n. destruct H as (? & ? & ? & ? & ?). repeat split; assumption.
Qed.

Section ReadingProperties.

Variable parse : string -> Parsed Program.
Variable JSON_parse : string -> Parsed JsVal.

(** X1. readSchemaFromConfig returns null exactly when fs.access finds
    none of basic.config.ts, basic.config.js and basic.config.json in the
    directory (it fails with ENOENT on each).  A file that cannot be
    reached for another reason (ENOTDIR, EACCES) never makes it return
    null, and is not skipped: when every file before it is missing, the
    access error is raised again as "Error reading <filename>: ...". *)
Theorem readSchemaFromConfig_null_means_no_file (fs : FileSystem) (dir : string) :
  (readSchemaFromConfig parse JSON_parse fs dir = Returns None <->
   fs !! path_join dir "basic.config.ts" = None /\
   fs !! path_join dir "basic.config.js" = None /\
   fs !! path_join dir "basic.config.json" = None) /\
  (forall filename,
     In filename possibleFiles ->
     (fs !! path_join dir filename = None <->
      exists e, fs_access fs (path_join dir filename) = Throws e /\
                error_code e = Some "ENOENT")) /\
  (forall before filename after why,
     possibleFiles = before ++ filename :: after ->
     (forall g, In g before -> fs !! path_join dir g = None) ->
     fs !! path_join dir filename = Some (Unreachable why) ->
     readSchemaFromConfig parse JSON_parse fs dir
     = Throws (Error ("Error reading " +:+ filename +:+ ": " +:+
                      error_message (denied why "access" (path_join dir filename))))).
Proof.
  split; [|split].
  - rewrite readSchemaFromConfig_null_iff. unfold possibleFiles. split.
    + intros H. repeat split; apply H; cbn; auto.
    + intros (Hts & Hjs & Hjson) f [<-|[<-|[<-|[]]]]; assumption.
  - intros filename _. unfold fs_access.
    destruct (fs !! path_join dir filename) as [[content| |why]|]; split;
      try discriminate; eauto.
    + intros (e & H & _). discriminate.
    + intros (e & H & _). discriminate.
    + intros (e & H & Hc). injection H as <-. destruct why; discriminate.
  - intros before filename after why Hfiles Hbefore Hfs.
    unfold readSchemaFromConfig. rewrite Hfiles. clear Hfiles.
    induction before as [|g before IH]; cbn [List.app read_first].
    + unfold read_config_file, fs_access. rewrite Hfs.
      destruct why; reflexivity.
    + rewrite read_config_file_absent by (apply Hbefore; left; reflexivity).
      cbn. apply IH. intros; apply Hbefore; right; assumption.
Qed.

(** A directory path that names a file: every access fails with ENOTDIR,
    and the read raises the first of these errors instead of returning
    null. *)
Example readSchemaFromConfig_not_a_directory :
  readSchemaFromConfig parse JSON_parse
    (<[path_join "notes.txt" "basic.config.ts" := Unreachable NotADirectory]>
       (<[path_join "notes.txt" "basic.config.js" := Unreachable NotADirectory]>
          (<[path_join "notes.txt" "basic.config.json" := Unreachable NotADirectory]>
             (empty : FileSystem)))) "notes.txt"
  = Throws (Error ("Error reading basic.config.ts: "
                   +:+ "ENOTDIR: not a directory, access 'notes.txt/basic.config.ts'")).
Proof. reflexivity. Qed.

Lemma read_config_file_local (fs1 fs2 : FileSystem) (dir filename : string) :
  fs2 !! path_join dir filename = fs1 !! path_join dir filename ->
  read_config_file parse JSON_parse fs2 dir filename
  = read_config_file parse JSON_parse fs1 dir filename.
Proof.
  intros H. unfold read_config_file, fs_access, fs_readFile. rewrite H.
  reflexivity.
Qed.

(** X2. The first config file that exists decides the result alone: the
    files after it in the order ts, js, json are never consulted, also when
    the first one fails to parse, and a returned result carries that
    file's path. *)
Theorem first_existing_file_decides (fs1 fs2 : FileSystem) (dir : string)
    (before : list string) (filename : string) (after : list string) :
  possibleFiles = before ++ filename :: after ->
  (forall g, In g before ->
             fs1 !! path_join dir g = None /\ fs2 !! path_join dir g = None) ->
  is_Some (fs1 !! path_join dir filename) ->
  fs2 !! path_join dir filename = fs1 !! path_join dir filename ->
  readSchemaFromConfig parse JSON_parse fs2 dir
  = readSchemaFromConfig parse JSON_parse fs1 dir /\
  readSchemaFromConfig parse JSON_parse fs1 dir <> Returns None /\
  (forall r, readSchemaFromConfig parse JSON_parse fs1 dir = Returns (Some r) ->
             filePath r = path_join dir filename).
Proof.
  intros Hfiles Hbefore Hex Hsame. unfold readSchemaFromConfig.
  rewrite Hfiles. clear Hfiles.
  induction before as [|g before IH]; cbn [List.app read_first].
  - rewrite (read_config_file_local fs1 fs2) by exact Hsame.
    destruct (read_config_file parse JSON_parse fs1 dir filename) as [r|e] eqn:Hr.
    + split; [reflexivity|]. split; [discriminate|].
      intros r' H. injection H as <-.
      apply (read_config_file_path _ _ _ _ _ _ Hr).
    + case_bool_decide as Hc.
      * exfalso. rewrite (read_config_file_ENOENT _ _ _ _ _ _ Hr Hc) in Hex.
        destruct Hex; discriminate.
      * split; [reflexivity|]. split; discriminate.
  - destruct (Hbefore g) as [H1 H2]; [left; reflexivity|].
    rewrite !read_config_file_absent by assumption. cbn.
    apply IH. intros; apply Hbefore; right; assumption.
Qed.

(** X3. What extractSchemaFromCode returns is always an object with a
    non-empty string project_id, a numeric version and a tables property
    that is an object or an array; and whatever it throws is an Error
    whose message starts with "Error parsing schema: ". *)
Theorem extractSchemaFromCode_result (content : string) :
  match extractSchemaFromCode parse content with
  | Returns v =>
      exists props pid n,
        v = JObj props /\
        lookup_prop "project_id" props = JStr pid /\ pid <> "" /\
        lookup_prop "version" props = JNum n /\
        typeof (lookup_prop "tables" props) = "object" /\
        lookup_prop "tables" props <> JNull
  | Throws e => exists msg, e = Error ("Error parsing schema: " +:+ msg)
  end.
Proof.
  destruct (extractSchemaFromCode parse content) as [v|e] eqn:H.
  - apply (extractSchemaFromCode_Returns parse content). exact H.
  - unfold extractSchemaFromCode, rethrow in H.
    match type of H with
    | match ?o with _ => _ end = _ => destruct o; [discriminate|]
    end.
    injection H as <-. eauto.
Qed.

(** X4. A program without any export statement is rejected with "Schema
    export must be an object": a constant [schema] that is declared but not
    exported is not found. *)
Theorem unexported_schema_is_rejected (content : string) (body : Program) :
  parse content = ParsedAs body ->
  no_exports body = true ->
  extractSchemaFromCode parse content
  = Throws (Error "Error parsing schema: Schema export must be an object").
Proof.
  intros Hp Hn. unfold extractSchemaFromCode. rewrite Hp. cbn.
  assert (find_schemaNode body = None) as ->; [|reflexivity].
  unfold find_schemaNode.
  assert (forall whole acc, default_export whole body acc = acc) as Hd.
  { intros whole. unfold no_exports in Hn. clear Hp.
    induction body as [|st body IH]; intros acc; [reflexivity|].
    cbn in Hn. apply andb_true_iff in Hn as [Hst Hn].
    destruct st; try discriminate; cbn; apply IH; exact Hn. }
  rewrite named_export_none, Hd; [reflexivity|].
  intros st Hin. unfold no_exports in Hn.
  rewrite forallb_forall in Hn. specialize (Hn st Hin).
  destruct st; try discriminate; reflexivity.
Qed.

End ReadingProperties.

Lemma first_existing_file_decides_witness :
  readSchemaFromConfig babel_for_two_files (parser_table [])
    (only_ts_config broken_ts_text) "."
  = readSchemaFromConfig babel_for_two_files (parser_table []) two_config_files "." /\
  readSchemaFromConfig babel_for_two_files (parser_table []) two_config_files "."
  = Throws (Error "Error reading basic.config.ts: Error parsing schema: Schema export must be an object").
Proof.
  destruct (first_existing_file_decides babel_for_two_files (parser_table [])
              two_config_files (only_ts_config broken_ts_text) "."
              [] "basic.config.ts" ["basic.config.js"; "basic.config.json"])
    as (Heq & _ & _).
  - reflexivity.
  - intros g [].
  - vm_compute. eauto.
  - vm_compute. reflexivity.
  - split; [exact Heq|]. vm_compute. reflexivity.
Defined.

Lemma unexported_schema_is_rejected_witness :
  extractSchemaFromCode
    (parser_table
       [("const schema = {};",
         [TopLevel (VariableDeclaration
                      {| vd_id := Identifier "schema";
                         vd_init := Some (ObjectExpression []) |} [])])])
    "const schema = {};"
  = Throws (Error "Error parsing schema: Schema export must be an object").
Proof.
  apply (unexported_schema_is_rejected _ "const schema = {};"
           [TopLevel (VariableDeclaration
                        {| vd_id := Identifier "schema";
                           vd_init := Some (ObjectExpression []) |} [])]);
    reflexivity.
Defined.

(** X5. An exported constant [schema] takes precedence over any default
    export; of several such constants the last one is used. *)
Theorem named_export_wins (before : Program) (st : Statement) (after : Program)
    (init : Node) :
  exported_schema st = Some init ->
  (forall st', In st' after -> exported_schema st' = None) ->
  find_schemaNode (before ++ st :: after) = Some init.
Proof.
  intros Hst Hafter. unfold find_schemaNode.
  assert (named_export (before ++ st :: after) None = Some init) as ->;
    [|reflexivity].
  generalize (@None Node) as acc.
  induction before as [|st0 before IH]; intros acc.
  - cbn [List.app]. rewrite named_export_step, Hst.
    apply named_export_none. exact Hafter.
  - cbn [List.app]. rewrite named_export_step. apply IH.
Qed.

Lemma named_export_wins_witness :
  find_schemaNode (both_exports ts_config_literal) = Some ts_config_literal.
Proof.
  apply (named_export_wins [ExportDefaultDeclaration (ObjectExpression [])] _ []);
    [reflexivity | intros st' []].
Defined.

(** ** convertAstToObject *)

Lemma Node_induction (P : Node -> Prop) :
  (forall properties,
     Forall (fun m => match m with
                      | ObjectProperty _ value => P value
                      | OtherMember _ => True
                      end) properties ->
     P (ObjectExpression properties)) ->
  (forall elements,
     Forall (fun e => match e with Some n => P n | None => True end) elements ->
     P (ArrayExpression elements)) ->
  (forall s, P (StringLiteral s)) -> (forall n, P (NumericLiteral n)) ->
  (forall b, P (BooleanLiteral b)) -> P NullLiteral ->
  (forall name, P (Identifier name)) -> (forall t, P (OtherNode t)) ->
  forall node, P node.
Proof.
  intros Ho Ha Hs Hn Hb Hnull Hi Ht.
  fix IH 1. intros [properties|elements|s|n|b| |name|t].
  - apply Ho. induction properties as [|[key value|ty] properties IHp];
      constructor; [apply IH | exact IHp | exact I | exact IHp].
  - apply Ha. induction elements as [|[n|] elements IHe];
      constructor; [apply IH | exact IHe | exact I | exact IHe].
  - apply Hs.
  - apply Hn.
  - apply Hb.
  - exact Hnull.
  - apply Hi.
  - apply Ht.
Qed.

Lemma set_prop_keys (k : string) (v : JsVal) (obj : list (string * JsVal)) :
  map fst (set_prop k v obj)
  = if existsb (String.eqb k) (map fst obj)
    then map fst obj else map fst obj ++ [k].
Proof.
  induction obj as [|[k' v'] obj IH]; cbn; [reflexivity|].
  rewrite (String.eqb_sym k k').
  destruct (String.eqb k' k); cbn; [reflexivity|].
  rewrite IH. destruct (existsb (String.eqb k) (map fst obj)); reflexivity.
Qed.

Lemma distinct_snoc (keys : list string) (k : string) :
  distinct keys = true -> existsb (String.eqb k) keys = false ->
  distinct (keys ++ [k]) = true.
Proof.
  induction keys as [|x keys IH]; cbn; intros Hd Hk; [reflexivity|].
  apply andb_true_iff in Hd as [Hx Hd].
  apply orb_false_iff in Hk as [Hkx Hk].
  rewrite IH by assumption. rewrite andb_true_r.
  rewrite existsb_app. cbn. rewrite orb_false_r.
  apply negb_true_iff in Hx. rewrite Hx. cbn.
  rewrite String.eqb_sym, Hkx. reflexivity.
Qed.

Lemma set_prop_tidy (k : string) (v : JsVal) (obj : list (string * JsVal)) :
  tidy (JObj obj) = true -> tidy v = true -> tidy (JObj (set_prop k v obj)) = true.
Proof.
  cbn [tidy]. intros H Hv. apply andb_true_iff in H as [Hd Hf].
  apply andb_true_iff. split.
  - rewrite set_prop_keys.
    destruct (existsb (String.eqb k) (map fst obj)) eqn:Hk; [exact Hd|].
    apply distinct_snoc; assumption.
  - clear Hd. induction obj as [|[k' v'] obj IH]; cbn in *.
    + rewrite Hv. reflexivity.
    + apply andb_true_iff in Hf as [Hv' Hf].
      destruct (String.eqb k' k); cbn.
      * rewrite Hv, Hf. reflexivity.
      * rewrite Hv', IH by exact Hf. reflexivity.
Qed.

(** X6. Whatever convertAstToObject returns holds no [undefined], and all
    its objects, at every depth, have distinct keys. *)
Theorem convertAstToObject_tidy (node : Node) (v : JsVal) :
  convertAstToObject node = Returns v -> tidy v = true.
Proof.
  revert v.
  induction node as [properties IH|elements IH|s|n|b| |name|t]
    using Node_induction; intros v H; cbn in H;
    try (injection H as <-; reflexivity); try discriminate.
  - assert (forall obj, tidy (JObj obj) = true ->
              convert_properties convertAstToObject properties obj = Returns v ->
              tidy v = true) as Hloop.
    { clear H. induction IH as [|[key value|ty] properties Hm _ IHp];
        intros obj Hobj H; cbn in H.
      - injection H as <-. exact Hobj.
      - destruct (getPropertyKey key) as [k|]; [|discriminate].
        destruct (convertAstToObject value) as [x|] eqn:Hx; [|discriminate].
        apply (IHp (set_prop k x obj)); [|exact H].
        apply set_prop_tidy; [exact Hobj | apply Hm; reflexivity].
      - eauto. }
    apply (Hloop []); [reflexivity | exact H].
  - assert (forall acc, forallb tidy acc = true ->
              convert_elements convertAstToObject elements acc = Returns v ->
              tidy v = true) as Hloop.
    { clear H. induction IH as [|[e|] elements He _ IHe];
        intros acc Hacc H; cbn in H.
      - injection H as <-. exact Hacc.
      - destruct (convertAstToObject e) as [x|] eqn:Hx; [|discriminate].
        apply (IHe (acc ++ [x])); [|exact H].
        rewrite forallb_app, Hacc. cbn. rewrite (He x eq_refl). reflexivity.
      - apply (IHe (acc ++ [JNull])); [|exact H].
        rewrite forallb_app, Hacc. reflexivity. }
    apply (Hloop []); [reflexivity | exact H].
  - destruct (String.eqb name "true"); [injection H as <-; reflexivity|].
    destruct (String.eqb name "false"); [injection H as <-; reflexivity|].
    destruct (String.eqb name "null"); [injection H as <-; reflexivity|].
    discriminate.
Qed.

Lemma convertAstToObject_tidy_witness :
  tidy (JObj [("a", JNum 3); ("b", JNum 2)]) = true.
Proof.
  apply (convertAstToObject_tidy (ObjectExpression repeated_key_literal)).
  reflexivity.
Defined.

Lemma lookup_set_prop_same (k : string) (v : JsVal) (obj : list (string * JsVal)) :
  lookup_prop k (set_prop k v obj) = v.
Proof.
  induction obj as [|[k' v'] obj IH]; cbn.
  - rewrite String.eqb_refl. reflexivity.
  - destruct (String.eqb k' k) eqn:Hk; cbn; rewrite Hk; [reflexivity|exact IH].
Qed.

Lemma lookup_set_prop_other (k k' : string) (v : JsVal)
    (obj : list (string * JsVal)) :
  k' <> k -> lookup_prop k (set_prop k' v obj) = lookup_prop k obj.
Proof.
  intros Hne. induction obj as [|[k0 v0] obj IH]; cbn.
  - destruct (String.eqb_spec k' k); [contradiction|reflexivity].
  - destruct (String.eqb_spec k0 k') as [->|Hk0]; cbn.
    + destruct (String.eqb_spec k' k); [contradiction|reflexivity].
    + rewrite IH. reflexivity.
Qed.

Lemma convert_properties_app (conv : Node -> Outcome JsVal)
    (before after : list (ObjectMember Node)) :
  forall obj r,
    convert_properties conv (before ++ after) obj = Returns r ->
    exists obj', convert_properties conv before obj = Returns (JObj obj') /\
                 convert_properties conv after obj' = Returns r.
Proof.
  induction before as [|[key value|ty] before IH]; intros obj r H;
    cbn [List.app] in H.
  - exists obj. split; [reflexivity|exact H].
  - cbn in H |- *.
    destruct (getPropertyKey key) as [k|]; [|discriminate].
    destruct (conv value) as [x|]; [|discriminate]. eauto.
  - cbn in H |- *. eauto.
Qed.

Lemma convert_properties_keeps (conv : Node -> Outcome JsVal) (k : string)
    (props : list (ObjectMember Node)) :
  (forall key value, In (ObjectProperty key value) props ->
                     getPropertyKey key <> Returns k) ->
  forall obj obj',
    convert_properties conv props obj = Returns (JObj obj') ->
    lookup_prop k obj' = lookup_prop k obj.
Proof.
  induction props as [|[key value|ty] props IH]; intros Hk obj obj' H; cbn in H.
  - injection H as <-. reflexivity.
  - destruct (getPropertyKey key) as [k'|] eqn:Hkey; [|discriminate].
    destruct (conv value) as [x|]; [|discriminate].
    rewrite (IH (fun key0 value0 Hin => Hk key0 value0 (or_intror Hin)) _ _ H).
    apply lookup_set_prop_other. intros ->.
    apply (Hk key value); [left; reflexivity|exact Hkey].
  - apply (IH (fun key0 value0 Hin => Hk key0 value0 (or_intror Hin)) _ _ H).
Qed.

(** X7. When an object literal names a key more than once, the converted
    object holds the value of the last property with that key. *)
Theorem last_property_wins (before : list (ObjectMember Node)) (key value : Node)
    (after : list (ObjectMember Node)) (k : string) (obj : list (string * JsVal)) :
  getPropertyKey key = Returns k ->
  (forall key' value', In (ObjectProperty key' value') after ->
                       getPropertyKey key' <> Returns k) ->
  convertAstToObject (ObjectExpression (before ++ ObjectProperty key value :: after))
    = Returns (JObj obj) ->
  convertAstToObject value = Returns (lookup_prop k obj).
Proof.
  intros Hkey Hafter H. cbn [convertAstToObject] in H.
  apply convert_properties_app in H as (obj1 & _ & H).
  cbn in H. rewrite Hkey in H.
  destruct (convertAstToObject value) as [x|] eqn:Hx; [|discriminate].
  rewrite (convert_properties_keeps _ k _ Hafter _ _ H).
  rewrite lookup_set_prop_same. reflexivity.
Qed.

Lemma last_property_wins_witness :
  convertAstToObject (NumericLiteral 3)
  = Returns (lookup_prop "a" [("a", JNum 3); ("b", JNum 2)]).
Proof.
  apply (last_property_wins
           [ObjectProperty (Identifier "a") (NumericLiteral 1);
            ObjectProperty (Identifier "b") (NumericLiteral 2)]
           (StringLiteral "a") (NumericLiteral 3) [] "a").
  - reflexivity.
  - intros key' value' [].
  - reflexivity.
Defined.

(** ** The matcher finds whatever the expression describes *)

Lemma strip_prefix_app (text s : string) :
  strip_prefix text (text +:+ s) = Some s.
Proof.
  induction text as [|a text IH]; cbn; [reflexivity|].
  rewrite Ascii.eqb_refl. exact IH.
Qed.

Lemma star_complete {R} (p : ascii -> bool) (w s : string)
    (k : string -> option R) (res : R) :
  all_chars p w = true -> k s = Some res ->
  exists res', star p (w +:+ s) k = Some res'.
Proof.
  intros Hw Hk. induction w as [|c w IH]; cbn in *.
  - destruct s as [|c s]; cbn; [eauto|].
    destruct (p c); [|eauto].
    destruct (star p s k); eauto.
  - apply andb_true_iff in Hw as [Hc Hw]. rewrite Hc.
    destruct (IH Hw) as [res' ->]. eauto.
Qed.

Lemma run_complete {R} (r : Regex) (w : string) (c : list string) :
  Matches r w c ->
  forall (s : string) (caps : list string)
         (k : string -> list string -> option R) (res : R),
    k s (caps ++ c) = Some res ->
    exists res', run r (w +:+ s) caps k = Some res'.
Proof.
  induction 1 as [text|p ch Hp|p w Hw|r1 r2 w1 w2 c1 c2 _ IH1 _ IH2|r w c _ IH];
    intros s caps k res Hk; cbn [run].
  - rewrite strip_prefix_app. rewrite List.app_nil_r in Hk. eauto.
  - cbn. rewrite Hp. rewrite List.app_nil_r in Hk. eauto.
  - rewrite List.app_nil_r in Hk.
    apply (star_complete p w s (fun s' => k s' caps) res Hw Hk).
  - rewrite string_app_assoc.
    rewrite List.app_assoc in Hk.
    destruct (IH2 s (caps ++ c1) k res Hk) as [res2 H2].
    apply (IH1 (w2 +:+ s) caps (fun s' caps' => run r2 s' caps' k) res2 H2).
  - apply (IH s caps (fun s' caps' => k s' (caps' ++ [consumed (w +:+ s) s'])) res).
    rewrite consumed_app, <- List.app_assoc. exact Hk.
Qed.

Lemma test_complete (r : Regex) (w : string) (c : list string)
    (before after : string) :
  Matches r w c -> test r (before +:+ w +:+ after) = true.
Proof.
  intros M. induction before as [|ch before IH]; cbn [String.append test].
  - destruct (run_complete r w c M after [] (fun rest caps => Some (caps, rest))
                (c, after) eq_refl) as [res Hres].
    unfold match_here.
    destruct (w +:+ after); cbn [test]; unfold match_here; rewrite Hres;
      reflexivity.
  - destruct (match_here r (String ch (before +:+ w +:+ after))); [reflexivity|].
    exact IH.
Qed.

Lemma test_sound (r : Regex) (s : string) :
  test r s = true ->
  exists before w after caps,
    s = before +:+ w +:+ after /\ Matches r w caps.
Proof.
  induction s as [|ch s IH]; cbn [test].
  - destruct (match_here r "") as [[caps rest]|] eqn:Hm; [|discriminate].
    intros _. apply match_here_sound in Hm as (w & Hs & M).
    exists "", w, rest, caps. split; [exact Hs|exact M].
  - destruct (match_here r (String ch s)) as [[caps rest]|] eqn:Hm.
    + intros _. apply match_here_sound in Hm as (w & Hs & M).
      exists "", w, rest, caps. split; [exact Hs|exact M].
    + intros H. destruct (IH H) as (before & w & after & caps & -> & M).
      exists (String ch before), w, after, caps. split; [reflexivity|exact M].
Qed.

Lemma object_region_Matches (g : string) :
  object_region g ->
  Matches (Seq (Chars "{") (Seq (Plus not_semicolon) (Chars "}"))) g [].
Proof.
  intros (body & -> & Hne & Hall).
  destruct body as [|b body]; [contradiction|].
  cbn in Hall. apply andb_true_iff in Hall as [Hb Hall].
  change (@nil string) with (@nil string ++ (([] ++ []) ++ [])).
  apply Matches_seq; [constructor|].
  change (String b body +:+ "}") with ((String b "" +:+ body) +:+ "}").
  apply Matches_seq; [|constructor].
  apply Matches_seq; constructor; assumption.
Qed.

(** What a match of one of the three patterns is made of. *)
Lemma assignment_head_inv (words : Regex) (w : string) (caps : list string) :
  Matches (assignment_of words) w caps ->
  exists w0 w1 g c0,
    w = (w0 +:+ w1) +:+ g +:+ ";" /\ Matches words w0 c0 /\
    Matches (Seq (Star white_space) (Seq (Chars "=") (Star white_space))) w1 [] /\
    object_region g.
Proof.
  intros H. unfold assignment_of, Plus in H.
  inversion H as [| | |? ? wa wbc ca cbc HA HBC|]; subst; clear H.
  inversion HA as [| | | |? ? cA HA']; subst; clear HA.
  inversion HA' as [| | |? ? w0 w1 c0 c1 H0 H1|]; subst; clear HA'.
  assert (c1 = []) as ->.
  { apply Matches_groups in H1. cbn in H1. destruct c1; [reflexivity|discriminate]. }
  inversion HBC as [| | |? ? wb wc cb cc HB HC|]; subst; clear HBC.
  inversion HC as [| | | |? ? cC HC']; subst; clear HC.
  inversion HC'; subst; clear HC'.
  inversion HB as [| | | |? ? cB HB']; subst; clear HB.
  inversion HB' as [| | |? ? x1 x2 y1 y2 G1 G2|]; subst; clear HB'.
  inversion G1; subst; clear G1.
  inversion G2 as [| | |? ? x3 x4 y3 y4 G3 G4|]; subst; clear G2.
  inversion G4; subst; clear G4.
  inversion G3 as [| | |? ? x5 x6 y5 y6 G5 G6|]; subst; clear G3.
  inversion G5 as [|? ch Hch| | |]; subst; clear G5.
  inversion G6 as [| |? ? Hs| |]; subst; clear G6.
  exists w0, w1, ("{" +:+ String ch x6 +:+ "}"), c0.
  split; [reflexivity|]. split; [exact H0|].
  split; [exact H1|].
  exists (String ch x6). split; [reflexivity|]. split; [discriminate|].
  cbn. rewrite Hch, Hs. reflexivity.
Qed.

Lemma has_assignment_of_pattern (pattern : Regex) (content : string) :
  In pattern patterns -> test pattern content = true ->
  has_schema_assignment content.
Proof.
  intros Hin Ht.
  apply test_sound in Ht as (before & w & after & caps & -> & M).
  unfold patterns in Hin.
  assert (exists lead w1 g,
            w = (lead +:+ "schema" +:+ w1) +:+ g +:+ ";" /\
            Matches (Seq (Star white_space) (Seq (Chars "=") (Star white_space)))
              w1 [] /\
            object_region g) as (lead & w1 & g & -> & M1 & Hg).
  { destruct Hin as [<-|[<-|[<-|[]]]];
      apply assignment_head_inv in M as (w0 & w1 & g & c0 & -> & M0 & M1 & Hg).
    - inversion M0 as [| | |? ? a b ca cb Ha Hb|]; subst.
      inversion Hb as [| | |? ? a' b' ca' cb' Ha' Hb'|]; subst.
      inversion Hb'; subst.
      exists ("const" +:+ a'), w1, g.
      inversion Ha; subst.
      rewrite !string_app_assoc. auto.
    - inversion M0 as [| | |? ? a b ca cb Ha Hb|]; subst.
      inversion Hb as [| | |? ? a1 b1 ca1 cb1 Ha1 Hb1|]; subst.
      inversion Hb1 as [| | |? ? a2 b2 ca2 cb2 Ha2 Hb2|]; subst.
      inversion Hb2 as [| | |? ? a3 b3 ca3 cb3 Ha3 Hb3|]; subst.
      inversion Hb3; subst. inversion Ha; subst. inversion Ha2; subst.
      exists ("export" +:+ a1 +:+ "const" +:+ a3), w1, g.
      rewrite !string_app_assoc. auto.
    - inversion M0; subst. exists "", w1, g. auto. }
  exists (before +:+ lead), ("schema" +:+ w1), g, after.
  split; [rewrite !string_app_assoc; reflexivity|].
  split; [|exact Hg].
  unfold schema_equals.
  change (@nil string) with (@nil string ++ @nil string).
  apply Matches_seq; [constructor|exact M1].
Qed.

(** X8. updateSchemaInCode returns an updated text exactly when the
    content holds [schema], optional white space, [=], optional white
    space, an object region and a semicolon; otherwise it throws "Could not
    update schema in config file".  In particular an empty literal [{}] and
    a literal followed by anything but a semicolon are not updated. *)
Theorem updateSchemaInCode_succeeds_iff (content : string) (newSchema : Schema) :
  (has_schema_assignment content <->
   exists updated, updateSchemaInCode content newSchema = Returns updated) /\
  (~ has_schema_assignment content <->
   updateSchemaInCode content newSchema
   = Throws (Error "Could not update schema in config file")).
Proof.
  assert (has_schema_assignment content ->
          exists updated, updateSchemaInCode content newSchema = Returns updated)
    as Hyes.
  { intros (before & w & g & after & -> & Mw & Hg).
    assert (test (assignment_of (Chars "schema"))
              (before +:+ (w +:+ g +:+ ";") +:+ after) = true) as Ht.
    { apply (test_complete _ _ [w; g; ";"]).
      unfold assignment_of.
      change [w; g; ";"] with (([] ++ [w]) ++ ([] ++ [g]) ++ ([] ++ [";"])).
      apply Matches_seq; [constructor; exact Mw|].
      apply Matches_seq; [constructor; apply object_region_Matches; exact Hg|].
      constructor. constructor. }
    rewrite !string_app_assoc in Ht.
    unfold updateSchemaInCode, patterns. cbn [replace_first_matching].
    rewrite Ht.
    repeat match goal with
           | |- context [if ?b then _ else _] => destruct b
           end; eauto. }
  assert (~ has_schema_assignment content ->
          updateSchemaInCode content newSchema
          = Throws (Error "Could not update schema in config file")) as Hno.
  { intros Hn. apply updateSchemaInCode_no_match.
    intros pattern Hin. destruct (test pattern content) eqn:Ht; [|reflexivity].
    exfalso. apply Hn. eapply has_assignment_of_pattern; eauto. }
  split; split; auto.
  - intros [updated Hu] .
    destruct (updateSchemaInCode content newSchema) as [u|e] eqn:H;
      [|discriminate].
    unfold updateSchemaInCode in H.
    assert (exists pattern, In pattern patterns /\ test pattern content = true)
      as (pattern & Hin & Ht).
    { revert H. generalize patterns as ps.
      induction ps as [|p ps IH]; cbn; [discriminate|].
      destruct (test p content) eqn:Ht; [eauto|].
      intros H. destruct (IH H) as (q & Hq & Hqt). eauto. }
    eapply has_assignment_of_pattern; eauto.
  - intros H Hhas. destruct (Hyes Hhas) as [u Hu]. congruence.
Qed.

(** Two texts without such an assignment. *)
Example empty_or_cast_literal_is_not_updated :
  updateSchemaInCode "const schema = {};" (schema_at 1)
  = Throws (Error "Could not update schema in config file") /\
  updateSchemaInCode "const schema = {a} as const;" (schema_at 1)
  = Throws (Error "Could not update schema in config file").
Proof. split; vm_compute; reflexivity. Qed.

(** ** What readSchemaFromConfig and saveSchemaToConfig guarantee *)

Section ConfigFileProperties.

Variable parse : string -> Parsed Program.
Variable JSON_parse : string -> Parsed JsVal.

(** X9. A result of readSchemaFromConfig names one of the three config
    files, which exists; its projectId is the truthy project_id property of
    its schema; and when the file is a .ts or .js file, the projectId is a
    string and the schema has a numeric version, whereas for the .json
    file the schema is whatever JSON.parse returned. *)
Theorem readSchemaFromConfig_result (fs : FileSystem) (dir : string)
    (r : SchemaFileResult) :
  readSchemaFromConfig parse JSON_parse fs dir = Returns (Some r) ->
  exists filename content,
    In filename possibleFiles /\
    filePath r = path_join dir filename /\
    fs !! filePath r = Some (RegularFile content) /\
    get_prop (schema r) "project_id" = Returns (projectId r) /\
    truthy (projectId r) = true /\
    (endsWith filename ".json" = false ->
     exists pid n, projectId r = JStr pid /\ version (schema r) = Some n) /\
    (endsWith filename ".json" = true ->
     JSON_parse content = ParsedAs (schema r)).
Proof.
  unfold readSchemaFromConfig. intros H.
  apply read_first_Some in H as (before & filename & after & Hfiles & _ & Hr).
  unfold read_config_file, fs_access, fs_readFile in Hr.
  destruct (fs !! path_join dir filename) as [[content| |why]|] eqn:Hfs;
    cbn in Hr; try discriminate.
  exists filename, content.
  split; [rewrite Hfiles; apply in_elt|].
  destruct (endsWith filename ".json") eqn:Hjson.
  - destruct (JSON_parse content) as [v|] eqn:Hp; cbn in Hr; [|discriminate].
    destruct (get_prop v "project_id") as [pid|] eqn:Hpid; cbn in Hr;
      [|discriminate].
    destruct (truthy pid) eqn:Ht; cbn in Hr; [|discriminate].
    injection Hr as <-. cbn. rewrite Hfs.
    split; [reflexivity|]. split; [reflexivity|]. split; [exact Hpid|].
    split; [exact Ht|]. split; [discriminate|]. intros _. reflexivity.
  - destruct (extractSchemaFromCode parse content) as [v|] eqn:Hx; cbn in Hr;
      [|discriminate].
    destruct (get_prop v "project_id") as [pid|] eqn:Hpid; cbn in Hr;
      [|discriminate].
    destruct (truthy pid) eqn:Ht; cbn in Hr; [|discriminate].
    injection Hr as <-. cbn. rewrite Hfs.
    split; [reflexivity|]. split; [reflexivity|]. split; [exact Hpid|].
    split; [exact Ht|]. split; [|discriminate]. intros _.
    apply extractSchemaFromCode_Returns in Hx
      as (props & p & n & -> & Hp & _ & Hv & _).
    cbn in Hpid. injection Hpid as <-.
    exists p, n. cbn. rewrite Hv. auto.
Qed.

Lemma readSchemaFromConfig_reads_file (fs : FileSystem) (dir : string)
    (r : SchemaFileResult) :
  readSchemaFromConfig parse JSON_parse fs dir = Returns (Some r) ->
  exists filename content,
    In filename possibleFiles /\
    filePath r = path_join dir filename /\
    fs !! filePath r = Some (RegularFile content).
Proof.
  unfold readSchemaFromConfig. intros H.
  apply read_first_Some in H as (before & filename & after & Hfiles & _ & Hr).
  unfold read_config_file, fs_access, fs_readFile in Hr.
  destruct (fs !! path_join dir filename) as [[content| |why]|] eqn:Hfs;
    cbn in Hr; try discriminate.
  exists filename, content.
  split; [rewrite Hfiles; apply in_elt|].
  destruct (endsWith filename ".json");
    match type of Hr with
    | context [JSON_parse ?c] => destruct (JSON_parse c); cbn in Hr; [|discriminate]
    | context [extractSchemaFromCode ?p ?c] =>
        destruct (extractSchemaFromCode p c); cbn in Hr; [|discriminate]
    end;
    match type of Hr with
    | context [get_prop ?v ?k] => destruct (get_prop v k); cbn in Hr; [|discriminate]
    end;
    match type of Hr with
    | context [truthy ?v] => destruct (truthy v); cbn in Hr; [|discriminate]
    end;
    injection Hr as <-; cbn; rewrite Hfs; auto.
Qed.

(** What saveSchemaToConfig does to the files. *)
Lemma saveSchemaToConfig_effect (schema : Schema) (fs fs' : FileSystem)
    (dir : string) (out : Outcome string) :
  saveSchemaToConfig parse JSON_parse schema fs dir = (out, fs') ->
  match out with
  | Returns path =>
      exists filename text,
        In filename possibleFiles /\ path = path_join dir filename /\
        fs' = <[path := RegularFile text]> fs
  | Throws _ => fs' = fs
  end.
Proof.
  unfold saveSchemaToConfig. intros H.
  destruct (readSchemaFromConfig parse JSON_parse fs dir)
    as [[existing|]|e0] eqn:Hread.
  - destruct (readSchemaFromConfig_reads_file _ _ _ Hread)
      as (filename & content & Hin & Hpath & Hfs).
    unfold fs_readFile, fs_writeFile in H. rewrite Hfs in H.
    destruct (updateSchemaInCode content schema) as [updated|e1].
    + injection H as <- <-. exists filename, updated. auto.
    + injection H as <- <-. auto.
  - pose proof (proj1 (readSchemaFromConfig_null_iff _ _ _ _) Hread) as Habsent.
    unfold fs_writeFile in H.
    rewrite (Habsent "basic.config.ts") in H by (left; reflexivity).
    injection H as <- <-.
    exists "basic.config.ts", (generateConfigContent schema).
    split; [left; reflexivity|]. auto.
  - injection H as <- <-. auto.
Qed.

(** X10. Whatever the schema, saveSchemaToConfig changes at most one file,
    and that file is one of the three config files of the directory: when
    it returns a path, the file at that path holds new text and everything
    else is as before; when it throws, nothing has changed.  No file is ever
    removed. *)
Theorem saveSchemaToConfig_frame (schema : Schema) (fs fs' : FileSystem)
    (dir : string) (out : Outcome string) :
  saveSchemaToConfig parse JSON_parse schema fs dir = (out, fs') ->
  match out with
  | Returns path =>
      exists filename text,
        In filename possibleFiles /\ path = path_join dir filename /\
        fs' = <[path := RegularFile text]> fs
  | Throws _ => fs' = fs
  end /\
  (forall q, is_Some (fs !! q) -> is_Some (fs' !! q)).
Proof.
  intros H. apply saveSchemaToConfig_effect in H.
  split; [exact H|].
  intros q Hq. destruct out as [path|e]; [|subst; exact Hq].
  destruct H as (filename & text & _ & _ & ->).
  destruct (decide (path = q)) as [->|Hne];
    [rewrite lookup_insert_eq; eauto | rewrite lookup_insert_ne; auto].
Qed.

End ConfigFileProperties.

Lemma readSchemaFromConfig_result_witness :
  exists filename content,
    In filename possibleFiles /\
    "./basic.config.ts" = path_join "." filename /\
    only_ts_config ts_config_text !! "./basic.config.ts"
      = Some (RegularFile content) /\
    get_prop (schema_at 1) "project_id" = Returns (JStr "p1") /\
    truthy (JStr "p1") = true /\
    (endsWith filename ".json" = false ->
     exists pid n, JStr "p1" = JStr pid /\ version (schema_at 1) = Some n) /\
    (endsWith filename ".json" = true ->
     parser_table [] content = ParsedAs (schema_at 1)).
Proof.
  apply (readSchemaFromConfig_result babel_stand_in (parser_table [])
           (only_ts_config ts_config_text) "."
           {| schema := schema_at 1; projectId := JStr "p1";
              filePath := "./basic.config.ts" |}).
  vm_compute. reflexivity.
Defined.

Lemma saveSchemaToConfig_frame_witness :
  (exists filename text,
     In filename possibleFiles /\
     "./basic.config.ts" = path_join "." filename /\
     <["./basic.config.ts" := RegularFile ts_config_saved]>
       (only_ts_config ts_config_text)
     = <["./basic.config.ts" := RegularFile text]> (only_ts_config ts_config_text)) /\
  (forall q, is_Some (only_ts_config ts_config_text !! q) ->
             is_Some (<["./basic.config.ts" := RegularFile ts_config_saved]>
                        (only_ts_config ts_config_text) !! q)).
Proof.
  apply (saveSchemaToConfig_frame babel_stand_in (parser_table []) (schema_at 2)
           (only_ts_config ts_config_text) _ "." (Returns "./basic.config.ts")).
  vm_compute. reflexivity.
Defined.

(** ** The comparator and the analyzers *)

(** X11. On schemas with numeric versions (a missing one counting as 0),
    swapping the two schemas swaps the version numbers and turns ahead into
    behind and behind into ahead, while equal stays equal; the comparator
    never answers current. *)
Theorem compareVersions_swap (a b : Schema) (l r : Z) :
  has_version a l -> has_version b r ->
  c_localVersion (compareVersions a b) = l /\
  c_remoteVersion (compareVersions a b) = r /\
  c_localVersion (compareVersions b a) = r /\
  c_remoteVersion (compareVersions b a) = l /\
  (c_status (compareVersions a b) = VAhead
   <-> c_status (compareVersions b a) = VBehind) /\
  (c_status (compareVersions a b) = VBehind
   <-> c_status (compareVersions b a) = VAhead) /\
  (c_status (compareVersions a b) = VEqual
   <-> c_status (compareVersions b a) = VEqual) /\
  c_status (compareVersions a b) <> VCurrent.
Proof.
  intros Ha Hb.
  unfold compareVersions. cbn [c_status c_localVersion c_remoteVersion].
  rewrite (or_zero_has_version _ _ Ha), (or_zero_has_version _ _ Hb).
  do 4 (split; [reflexivity|]).
  destruct (Z.eqb_spec l r), (Z.eqb_spec r l), (Z.gtb_spec l r), (Z.gtb_spec r l);
    repeat split; intros; try discriminate; try congruence; try lia.
Qed.

Lemma compareVersions_swap_witness :
  c_localVersion (compareVersions (schema_at 2) (schema_at 1)) = 2 /\
  c_remoteVersion (compareVersions (schema_at 2) (schema_at 1)) = 1 /\
  c_localVersion (compareVersions (schema_at 1) (schema_at 2)) = 1 /\
  c_remoteVersion (compareVersions (schema_at 1) (schema_at 2)) = 2 /\
  (c_status (compareVersions (schema_at 2) (schema_at 1)) = VAhead
   <-> c_status (compareVersions (schema_at 1) (schema_at 2)) = VBehind) /\
  (c_status (compareVersions (schema_at 2) (schema_at 1)) = VBehind
   <-> c_status (compareVersions (schema_at 1) (schema_at 2)) = VAhead) /\
  (c_status (compareVersions (schema_at 2) (schema_at 1)) = VEqual
   <-> c_status (compareVersions (schema_at 1) (schema_at 2)) = VEqual) /\
  c_status (compareVersions (schema_at 2) (schema_at 1)) <> VCurrent.
Proof.
  apply (compareVersions_swap (schema_at 2) (schema_at 1) 2 1);
    (eexists; split; [reflexivity|]; left; reflexivity).
Defined.

Ltac analyzer_cases comparison api :=
  destruct (c_status comparison);
    [ | | | destruct ((c_localVersion comparison =? 0)
                      && (c_remoteVersion comparison =? 0)) ];
    run_flow;
    repeat match goal with
           | |- context [validateSchema api ?s] =>
               destruct (validateSchema api s) as [?v|?e]; cbn
           | |- context [match reports_errors ?v with _ => _ end] =>
               destruct (reports_errors v); cbn
           | |- context [compareSchema api ?s] =>
               destruct (compareSchema api s) as [?c|?e]; cbn
           | |- context [match cmp_valid ?c with _ => _ end] =>
               destruct (cmp_valid c); cbn
           end.

Lemma analyzer_logs (localConfig : SchemaFileResult)
    (remoteSchema : Schema) (comparison : Comparison) (api : ApiClient)
    (log : list ApiCall) :
  let s := schema localConfig in
  let push := snd (analyzePushAction localConfig remoteSchema comparison api log) in
  let pull := snd (analyzePullAction localConfig remoteSchema comparison api log) in
  let stat := snd (analyzeStatus localConfig remoteSchema comparison api log) in
  (push = log \/ push = log ++ [ValidateSchemaCall s]
   \/ push = log ++ [CompareSchemaCall s]) /\
  (pull = log \/ pull = log ++ [CompareSchemaCall s]) /\
  (stat = log \/ stat = log ++ [ValidateSchemaCall s]
   \/ stat = log ++ [CompareSchemaCall s]) /\
  push = stat.
Proof.
  cbv zeta. unfold analyzePushAction, analyzePullAction, analyzeStatus.
  analyzer_cases comparison api; auto 6.
Qed.

(** X12. The analyzers never throw, and they make at most one API call,
    always on the local schema: the push and status analyzers the same
    call, a validation or a comparison, the pull analyzer a comparison
    only; none of them fetches or pushes a schema, and the calls made
    before are left in the log. *)
Theorem analyzers_make_one_call_at_most (localConfig : SchemaFileResult)
    (remoteSchema : Schema) (comparison : Comparison) (api : ApiClient)
    (log : list ApiCall) :
  let s := schema localConfig in
  let push := analyzePushAction localConfig remoteSchema comparison api log in
  let pull := analyzePullAction localConfig remoteSchema comparison api log in
  let stat := analyzeStatus localConfig remoteSchema comparison api log in
  ((exists r, fst push = Returns r) /\ (exists r, fst pull = Returns r) /\
   (exists r, fst stat = Returns r)) /\
  (snd push = log \/ snd push = log ++ [ValidateSchemaCall s]
   \/ snd push = log ++ [CompareSchemaCall s]) /\
  (snd pull = log \/ snd pull = log ++ [CompareSchemaCall s]) /\
  snd stat = snd push.
Proof.
  cbv zeta. split.
  - destruct (analyzers_return api localConfig remoteSchema comparison log)
      as ((r1 & l1 & ->) & (r2 & l2 & ->) & (r3 & l3 & ->)). cbn.
    repeat split; eexists; reflexivity.
  - pose proof (analyzer_logs localConfig remoteSchema comparison api log) as H.
    cbv zeta in H. destruct H as (H1 & H2 & _ & H4).
    split; [exact H1|]. split; [exact H2|]. symmetry. exact H4.
Qed.

(** X13. The push analyzer attaches validation errors only to an invalid
    result that needs no confirmation, and they are exactly the errors the
    validation endpoint returned with [valid: false]; the pull analyzer
    never attaches any. *)
Theorem validationErrors_come_from_validation (localConfig : SchemaFileResult)
    (remoteSchema : Schema) (comparison : Comparison) (api : ApiClient)
    (log log' : list ApiCall) (r : ActionResult) (errs : list ValidationError) :
  (analyzePushAction localConfig remoteSchema comparison api log = (Returns r, log') ->
   validationErrors r = Some errs ->
   status r = Invalid /\ needsConfirmation r = false /\
   exists v, validateSchema api (schema localConfig) = Returns v /\
             valid v = false /\ errors v = Some errs) /\
  (analyzePullAction localConfig remoteSchema comparison api log = (Returns r, log') ->
   validationErrors r = None).
Proof.
  unfold analyzePushAction, analyzePullAction. split.
  - destruct (c_status comparison);
      [ | | | destruct ((c_localVersion comparison =? 0)
                        && (c_remoteVersion comparison =? 0)) ];
      run_flow;
      repeat match goal with
             | |- context [validateSchema api ?s] =>
                 destruct (validateSchema api s) as [?v|?e] eqn:?Hv; cbn
             | |- context [match reports_errors ?v with _ => _ end] =>
                 destruct (reports_errors v) eqn:?Hr; cbn
             | |- context [compareSchema api ?s] =>
                 destruct (compareSchema api s) as [?c|?e]; cbn
             | |- context [match cmp_valid ?c with _ => _ end] =>
                 destruct (cmp_valid c); cbn
             end;
      intros H; injection H as <- _; cbn; intros He; try discriminate;
      (split; [reflexivity|]); (split; [reflexivity|]);
      match goal with
      | Hr : reports_errors ?v = true |- _ =>
          exists v; (split; [reflexivity|]);
          unfold reports_errors in Hr; apply andb_true_iff in Hr as [Hr _];
          apply negb_true_iff in Hr; auto
      end.
  - analyzer_cases comparison api;
      intros H; injection H as <- _; reflexivity.
Qed.

Lemma validationErrors_come_from_validation_witness :
  let errs := [{| ve_message := "must have required property 'type'";
                  instancePath := "/tables/a" |}] in
  let api := api_answering (Returns {| valid := false; errors := Some errs |})
               answer_same in
  exists r, fst (pushFlow api (config_at 3) (schema_at 2)) = Returns r /\
            status r = Invalid /\ needsConfirmation r = false /\
            validationErrors r = Some errs.
Proof.
  cbv zeta. eexists. split; [reflexivity|].
  destruct (proj1 (validationErrors_come_from_validation
                     (config_at 3) (schema_at 2)
                     (compareVersions (schema_at 3) (schema_at 2))
                     (api_answering
                        (Returns {| valid := false;
                                    errors := Some [{| ve_message := "must have required property 'type'";
                                                       instancePath := "/tables/a" |}] |})
                        answer_same)
                     [] _ _
                     [{| ve_message := "must have required property 'type'";
                         instancePath := "/tables/a" |}])
                  eq_refl eq_refl) as (Hs & Hn & _).
  split; [exact Hs|]. split; [exact Hn|reflexivity].
Defined.

(** X14. The statuses each analyzer can return: push never answers conflict
    or no-schema, pull never answers invalid or no-schema, status never
    answers no-schema; and on the comparator's verdict of a pair of schemas
    each of them answers behind exactly when the comparator says behind. *)
Theorem analyzer_status_ranges (api : ApiClient) (localConfig : SchemaFileResult)
    (remoteSchema : Schema) :
  (forall comparison log r log',
     analyzePushAction localConfig remoteSchema comparison api log = (Returns r, log') ->
     status r <> Conflict /\ status r <> NoSchema) /\
  (forall comparison log r log',
     analyzePullAction localConfig remoteSchema comparison api log = (Returns r, log') ->
     status r <> Invalid /\ status r <> NoSchema) /\
  (forall comparison log r log',
     analyzeStatus localConfig remoteSchema comparison api log = (Returns r, log') ->
     sr_status r <> NoSchema) /\
  let behind :=
    c_status (compareVersions (schema localConfig) remoteSchema) = VBehind in
  (pushStatus api localConfig remoteSchema = Some Behind <-> behind) /\
  (pullStatus api localConfig remoteSchema = Some Behind <-> behind) /\
  (statusStatus api localConfig remoteSchema = Some Behind <-> behind).
Proof.
  split; [|split; [|split]].
  - intros comparison log r log'. unfold analyzePushAction.
    analyzer_cases comparison api;
      intros H; injection H as <- _; cbn; split; discriminate.
  - intros comparison log r log'. unfold analyzePullAction.
    analyzer_cases comparison api;
      intros H; injection H as <- _; cbn; split; discriminate.
  - intros comparison log r log'. unfold analyzeStatus.
    analyzer_cases comparison api;
      intros H; injection H as <- _; cbn; discriminate.
  - cbv zeta.
    pose proof (compareVersions_cases (schema localConfig) remoteSchema) as Hc.
    cbv zeta in Hc. unfold_flows.
    set (c := compareVersions (schema localConfig) remoteSchema) in *.
    destruct Hc as [[Hs _]|[[Hs _]|[Hs _]]]; rewrite Hs;
      try destruct ((c_localVersion c =? 0) && (c_remoteVersion c =? 0));
      run_flow;
      repeat match goal with
             | |- context [validateSchema api ?s] =>
                 destruct (validateSchema api s) as [?v|?e]; cbn
             | |- context [match reports_errors ?v with _ => _ end] =>
                 destruct (reports_errors v); cbn
             | |- context [compareSchema api ?s] =>
                 destruct (compareSchema api s) as [?c|?e]; cbn
             | |- context [match cmp_valid ?c with _ => _ end] =>
                 destruct (cmp_valid c); cbn
             end;
      repeat split; intros; congruence.
Qed.

Lemma analyzer_status_ranges_witness :
  status (baseResult (JStr "p1")
            (compareVersions (schema_at 1) (schema_at 2)) Behind
            ["Your local schema is behind the remote version.";
             "Did you mean to pull instead?";
             "Use 'basic pull' to get the latest changes."]) <> Conflict /\
  pushStatus (api_answering answer_valid answer_same) (config_at 1) (schema_at 2)
  = Some Behind.
Proof.
  destruct (analyzer_status_ranges (api_answering answer_valid answer_same)
              (config_at 1) (schema_at 2)) as (Hpush & _ & _ & Hb & _).
  split.
  - apply (Hpush (compareVersions (schema_at 1) (schema_at 2)) [] _ []).
    reflexivity.
  - apply Hb. reflexivity.
Defined.

(** ** What the check on mount and the key handler leave behind *)

Ltac check_cases :=
  repeat match goal with
         | |- context [isOnline ?e] => destruct (isOnline e); cbn
         | |- context [getToken ?e] => destruct (getToken e) as [[|]|]; cbn
         | |- context [readSchemaFromConfig ?a ?b ?c ?d] =>
             destruct (readSchemaFromConfig a b c d) as [[?lc|]|] eqn:?Hread; cbn
         | |- context [getProjectSchema ?a ?b] =>
             destruct (getProjectSchema a b) as [?fetched|] eqn:?Hfetch; cbn
         | |- context [analyzePushAction ?a ?b ?c ?d ?e] =>
             pose proof (analyzer_logs a b c d e) as Hlog; cbv zeta in Hlog;
             destruct (analyzePushAction a b c d e) as [[?r|] ?log] eqn:?Ha; cbn in *
         | |- context [analyzePullAction ?a ?b ?c ?d ?e] =>
             pose proof (analyzer_logs a b c d e) as Hlog; cbv zeta in Hlog;
             destruct (analyzePullAction a b c d e) as [[?r|] ?log] eqn:?Ha; cbn in *
         | |- context [analyzeStatus ?a ?b ?c ?d ?e] =>
             pose proof (analyzer_logs a b c d e) as Hlog; cbv zeta in Hlog;
             destruct (analyzeStatus a b c d e) as [[?r|] ?log] eqn:?Ha; cbn in *
         end.

Lemma push_mount_world (env : Env) (fs : FileSystem) :
  let m := PushApp.mount env fs in
  PushApp.history m = [PushApp.initial; PushApp.state m] /\
  files (PushApp.world m) = fs /\ saves (PushApp.world m) = [].
Proof.
  unfold PushApp.mount, PushApp.checkPushStatus. check_cases;
    repeat split.
Qed.

Lemma push_mount_calls (env : Env) (fs : FileSystem) (pid : string) (s : Schema) :
  ~ In (PushProjectSchemaCall pid s) (calls (PushApp.world (PushApp.mount env fs))).
Proof.
  unfold PushApp.mount, PushApp.checkPushStatus. check_cases;
    try (intros []; fail);
    try (intros [H|[]]; discriminate);
    destruct Hlog as ([-> | [-> | ->]] & _); cbn; intuition discriminate.
Qed.

Lemma push_mount_phase (env : Env) (fs : FileSystem) :
  let s0 := PushApp.state (PushApp.mount env fs) in
  (PushApp.phase s0 = PushApp.error /\ PushApp.statusResult s0 = None) \/
  (PushApp.phase s0 = PushApp.no_action /\
   exists r, PushApp.statusResult s0 = Some r /\
             needsConfirmation r = false /\ status r <> Ahead) \/
  (PushApp.phase s0 = PushApp.confirming /\
   exists r, PushApp.statusResult s0 = Some r /\
             needsConfirmation r = true /\ status r = Ahead).
Proof.
  unfold PushApp.mount, PushApp.checkPushStatus. check_cases;
    try (left; split; reflexivity).
  - pose proof (analyzePushAction_confirmation _ _ _ _ _ _ _ Ha) as Hconf.
    destruct (needsConfirmation r) eqn:Hn.
    + right; right. split; [reflexivity|]. exists r.
      split; [reflexivity|]. split; [exact Hn|]. exact (proj1 Hconf eq_refl).
    + right; left. split; [reflexivity|]. exists r.
      split; [reflexivity|]. split; [exact Hn|].
      intros Hs. pose proof (proj2 Hconf Hs). discriminate.
  - right; left. split; [reflexivity|]. exists no_schema_result.
    split; [reflexivity|]. split; [reflexivity|]. discriminate.
Qed.

(** What handlePush leaves behind: an error, or success with the result of
    a push request for the schema it has just read. *)
Lemma push_now_cases (env : Env) (s : PushApp.PushState) (w : World) :
  let out := PushApp.push_now env s w in
  (PushApp.phase (fst out) = PushApp.error /\
   PushApp.pushResult (fst out) = None /\
   files (snd out) = files w /\ saves (snd out) = saves w /\
   (calls (snd out) = calls w \/
    exists localConfig,
      readSchemaFromConfig (babel_parse env) (json_parse env) (files w) (cwd env)
        = Returns (Some localConfig) /\
      calls (snd out)
      = calls w ++ [PushProjectSchemaCall (js_to_string (projectId localConfig))
                      (schema localConfig)])) \/
  (exists r localConfig,
     PushApp.statusResult s = Some r /\
     readSchemaFromConfig (babel_parse env) (json_parse env) (files w) (cwd env)
       = Returns (Some localConfig) /\
     pushProjectSchema (apiClient env) (js_to_string (projectId localConfig))
       (schema localConfig) = Returns tt /\
     fst out = {| PushApp.phase := PushApp.success;
                  PushApp.error_text := None;
                  PushApp.statusResult := None;
                  PushApp.pushResult :=
                    Some {| tr_projectId := projectId localConfig;
                            oldVersion := remoteVersion r;
                            newVersion := or_zero (version (schema localConfig));
                            tr_filePath := filePath localConfig |} |} /\
     snd out = {| files := files w;
                  calls := calls w ++
                           [PushProjectSchemaCall
                              (js_to_string (projectId localConfig))
                              (schema localConfig)];
                  saves := saves w |}).
Proof.
  unfold PushApp.push_now.
  destruct (PushApp.statusResult s) as [r|]; [|left; cbn; auto 6].
  destruct (readSchemaFromConfig (babel_parse env) (json_parse env) (files w) (cwd env))
    as [[lc|]|e] eqn:Hread; try (left; cbn; auto 6; fail).
  destruct (pushProjectSchema (apiClient env) (js_to_string (projectId lc)) (schema lc))
    as [[]|e] eqn:Hpush.
  - right. exists r, lc. cbn. auto 6.
  - left. cbn. split; [reflexivity|]. split; [reflexivity|].
    split; [reflexivity|]. split; [reflexivity|]. right. eauto.
Qed.

Lemma push_now_rests (env : Env) (s : PushApp.PushState) (w : World) :
  PushApp.phase (fst (PushApp.push_now env s w)) <> PushApp.confirming.
Proof.
  destruct (push_now_cases env s w) as [(H & _)|(r & lc & _ & _ & _ & H & _)];
    rewrite H; discriminate.
Qed.

Lemma push_useInput_shape (env : Env) (fs : FileSystem) (app : PushApp.App)
    (key : Key) :
  push_shape env fs app -> push_shape env fs (PushApp.useInput env app key).
Proof.
  intros H. pose proof H as H0. unfold push_shape in H0. cbv zeta in H0.
  set (m := PushApp.mount env fs) in *. set (s0 := PushApp.state m) in *.
  destruct H0 as [(Hs & Hw & Hh)|[(Hc & Hs & Hw & Hh)|(Hc & Hs & Hw & Hh)]].
  - destruct (PushApp.phase s0) eqn:Hp;
      try (rewrite push_useInput_idle by (rewrite Hs, Hp; discriminate);
           exact H).
    unfold PushApp.useInput. rewrite Hs, Hp.
    destruct (upArrow key || downArrow key); [left; cbn; auto|].
    assert (push_shape env fs
              (PushApp.set_state app (PushApp.with_phase s0 PushApp.no_action)
                 (PushApp.world app))) as Hno.
    { right; left. cbn. rewrite Hh, Hw. auto. }
    destruct (return_ key).
    + destruct (PushApp.selectedOption app); [|exact Hno].
      right; right. unfold PushApp.handlePush. rewrite Hs, Hw.
      fold m. fold s0.
      destruct (PushApp.push_now env s0 (PushApp.world m)) as [final w'].
      cbn. rewrite Hh. auto.
    + destruct (escape key || String.eqb (input key) "q"); [exact Hno|].
      exact H.
  - rewrite push_useInput_idle by (rewrite Hs; cbn; discriminate). exact H.
  - rewrite push_useInput_idle by (rewrite Hs; apply push_now_rests). exact H.
Qed.

Lemma push_run_shape (env : Env) (fs : FileSystem) (keys : list Key) :
  push_shape env fs (PushApp.run env fs keys).
Proof.
  unfold PushApp.run.
  assert (push_shape env fs (PushApp.mount env fs)) as H.
  { left. pose proof (push_mount_world env fs) as (Hh & _). cbv zeta in Hh. auto. }
  revert H. generalize (PushApp.mount env fs).
  induction keys as [|k keys IH]; intros app H; cbn; [exact H|].
  apply IH, push_useInput_shape, H.
Qed.

(** The push analyzer answers ahead only after the server has validated
    the local schema and reported no errors. *)
Lemma analyzePushAction_Ahead (localConfig : SchemaFileResult)
    (remoteSchema : Schema) (comparison : Comparison) (api : ApiClient)
    (log log' : list ApiCall) (r : ActionResult) :
  analyzePushAction localConfig remoteSchema comparison api log = (Returns r, log') ->
  status r = Ahead ->
  c_status comparison = VAhead /\
  log' = log ++ [ValidateSchemaCall (schema localConfig)] /\
  (exists v, validateSchema api (schema localConfig) = Returns v /\
             reports_errors v = false) /\
  localVersion r = c_localVersion comparison /\
  remoteVersion r = c_remoteVersion comparison.
Proof.
  unfold analyzePushAction.
  destruct (c_status comparison) eqn:Hc;
    [ | | | destruct ((c_localVersion comparison =? 0)
                      && (c_remoteVersion comparison =? 0)) ];
    run_flow;
    try destruct (validateSchema api (schema localConfig)) as [v|] eqn:Hv; cbn;
    try destruct (compareSchema api (schema localConfig)) as [c|]; cbn;
    try destruct (reports_errors v) eqn:Hr; try destruct (cmp_valid c); cbn;
    intros H; injection H as <- <-; cbn; intros Hs; try discriminate Hs;
    (split; [reflexivity|]); (split; [reflexivity|]);
    (split; [exists v; auto|]); auto.
Qed.

Lemma compareVersions_VAhead (a b : Schema) :
  c_status (compareVersions a b) = VAhead ->
  c_localVersion (compareVersions a b) = or_zero (version a) /\
  c_remoteVersion (compareVersions a b) = or_zero (version b) /\
  or_zero (version b) < or_zero (version a).
Proof.
  unfold compareVersions. cbn.
  destruct (Z.eqb_spec (or_zero (version a)) (or_zero (version b)));
    [discriminate|].
  destruct (Z.gtb_spec (or_zero (version a)) (or_zero (version b)));
    [|discriminate].
  intros _. repeat split. lia.
Qed.

(** What the check has found when it asks for confirmation. *)
Lemma push_mount_confirming (env : Env) (fs : FileSystem) :
  let m := PushApp.mount env fs in
  PushApp.phase (PushApp.state m) = PushApp.confirming ->
  exists localConfig fetched r,
    isOnline env = true /\ getToken env = Returns true /\
    readSchemaFromConfig (babel_parse env) (json_parse env) fs (cwd env)
      = Returns (Some localConfig) /\
    getProjectSchema (apiClient env) (js_to_string (projectId localConfig))
      = Returns fetched /\
    analyzePushAction localConfig
      (default (empty_remote (projectId localConfig)) fetched)
      (compareVersions (schema localConfig)
         (default (empty_remote (projectId localConfig)) fetched))
      (apiClient env) [GetProjectSchemaCall (js_to_string (projectId localConfig))]
      = (Returns r, calls (PushApp.world m)) /\
    PushApp.statusResult (PushApp.state m) = Some r /\
    needsConfirmation r = true.
Proof.
  unfold PushApp.mount, PushApp.checkPushStatus. check_cases;
    try discriminate.
  destruct (needsConfirmation r) eqn:Hn; [|discriminate].
  intros _. exists lc, fetched, r. auto 10.
Qed.

(** ** The push command as a whole *)

(** ** Sessions of the push command *)

Lemma files_after_snoc (fs : FileSystem) (events : list Event) (e : Event) :
  files_after fs (events ++ [e])
  = match e with
    | FilesChanged fs' => fs'
    | Pressed _ => files_after fs events
    end.
Proof. unfold files_after. rewrite fold_left_app. reflexivity. Qed.

Lemma with_files_same (w : World) : with_files w (files w) = w.
Proof. destruct w; reflexivity. Qed.

(** Without a change made by others, the files are those of the start. *)
Lemma files_after_keys (fs : FileSystem) (events : list Event) :
  (forall fs', ~ In (FilesChanged fs') events) -> files_after fs events = fs.
Proof.
  induction events as [|e events IH] using rev_ind; [reflexivity|].
  intros H. rewrite files_after_snoc. destruct e as [key|fs'].
  - apply IH. intros fs' Hin. apply (H fs'), in_or_app. auto.
  - contradiction (H fs'). apply in_or_app. right. left. reflexivity.
Qed.

(** A session in which nobody else touches the files is a run. *)
Lemma push_session_keys (env : Env) (fs : FileSystem) (keys : list Key) :
  push_session env fs (map Pressed keys) = PushApp.run env fs keys.
Proof.
  unfold push_session, PushApp.run. generalize (PushApp.mount env fs).
  induction keys as [|k keys IH]; intros app; cbn; [reflexivity|apply IH].
Qed.

Lemma push_event_shape (env : Env) (fs : FileSystem) (events : list Event)
    (app : PushApp.App) (e : Event) :
  push_session_shape env fs events app ->
  push_session_shape env fs (events ++ [e]) (push_event env app e).
Proof.
  intros H. unfold push_session_shape in *. cbv zeta in *.
  set (m := PushApp.mount env fs) in *. set (s0 := PushApp.state m) in *.
  rewrite files_after_snoc.
  destruct e as [key|fs']; cbn [push_event].
  - destruct H as [(Hs & Hw & Hh)
                  |[(Hc & Hs & Hw & Hh)
                   |(Hc & before & k & after & Hev & Hk & Hs & Hw & Hh)]].
    + destruct (PushApp.phase s0) eqn:Hp;
        try (rewrite push_useInput_idle by (rewrite Hs, Hp; discriminate);
             left; auto).
      unfold PushApp.useInput. rewrite Hs, Hp.
      destruct (upArrow key || downArrow key); [left; cbn; auto|].
      assert (PushApp.state
                (PushApp.set_state app (PushApp.with_phase s0 PushApp.no_action)
                   (PushApp.world app))
              = PushApp.with_phase s0 PushApp.no_action /\
              PushApp.world
                (PushApp.set_state app (PushApp.with_phase s0 PushApp.no_action)
                   (PushApp.world app))
              = with_files (PushApp.world m) (files_after fs events) /\
              PushApp.history
                (PushApp.set_state app (PushApp.with_phase s0 PushApp.no_action)
                   (PushApp.world app))
              = [PushApp.initial; s0; PushApp.with_phase s0 PushApp.no_action])
        as Hno by (cbn; rewrite Hh, Hw; auto).
      destruct (return_ key) eqn:Hret.
      * destruct (PushApp.selectedOption app); [|right; left; tauto].
        right; right. split; [reflexivity|].
        exists events, key, []. split; [reflexivity|]. split; [exact Hret|].
        unfold PushApp.handlePush. rewrite Hs, Hw.
        destruct (PushApp.push_now env s0
                    (with_files (PushApp.world m) (files_after fs events)))
          as [final w'].
        cbn. rewrite Hh, with_files_same. auto.
      * destruct (escape key || String.eqb (input key) "q");
          [right; left; tauto|left; auto].
    + rewrite push_useInput_idle by (rewrite Hs; cbn; discriminate).
      right; left. auto.
    + rewrite push_useInput_idle by (rewrite Hs; apply push_now_rests).
      right; right. split; [exact Hc|].
      exists before, k, (after ++ [Pressed key]).
      split; [rewrite Hev, <- app_assoc; reflexivity|]. split; [exact Hk|].
      rewrite files_after_snoc. auto.
  - destruct H as [(Hs & Hw & Hh)
                  |[(Hc & Hs & Hw & Hh)
                   |(Hc & before & k & after & Hev & Hk & Hs & Hw & Hh)]].
    + left. cbn. rewrite Hw. auto.
    + right; left. cbn. rewrite Hw. auto.
    + right; right. split; [exact Hc|].
      exists before, k, (after ++ [FilesChanged fs']).
      split; [rewrite Hev, <- app_assoc; reflexivity|]. split; [exact Hk|].
      rewrite files_after_snoc. cbn. rewrite Hw. auto.
Qed.

Lemma push_session_snoc (env : Env) (fs : FileSystem) (events : list Event)
    (e : Event) :
  push_session env fs (events ++ [e])
  = push_event env (push_session env fs events) e.
Proof. unfold push_session. rewrite fold_left_app. reflexivity. Qed.

Lemma push_session_has_shape (env : Env) (fs : FileSystem) (events : list Event) :
  push_session_shape env fs events (push_session env fs events).
Proof.
  induction events as [|e events IH] using rev_ind.
  - left. pose proof (push_mount_world env fs) as (Hh & Hf & _).
    cbv zeta in Hh, Hf. cbn.
    split; [reflexivity|]. split; [|exact Hh].
    rewrite <- (with_files_same (PushApp.world (PushApp.mount env fs))) at 1.
    rewrite Hf. reflexivity.
  - rewrite push_session_snoc. apply push_event_shape, IH.
Qed.

(** X15. Whatever keys are pressed, and whatever others do to the files
    in the meantime, the phases the push command goes through form one of
    the six paths of its state diagram, the last state set is the current
    one, and saveSchemaToConfig is never invoked. *)
Theorem push_follows_state_diagram (env : Env) (fs : FileSystem)
    (events : list Event) :
  let app := push_session env fs events in
  In (map PushApp.phase (PushApp.history app)) push_paths /\
  last (PushApp.history app) = Some (PushApp.state app) /\
  saves (PushApp.world app) = [].
Proof.
  cbv zeta.
  pose proof (push_session_has_shape env fs events) as Hshape.
  pose proof (push_mount_world env fs) as (_ & _ & Hsv).
  pose proof (push_mount_phase env fs) as Hphase.
  cbv zeta in *. unfold push_session_shape in Hshape. cbv zeta in Hshape.
  set (app := push_session env fs events) in *.
  set (m := PushApp.mount env fs) in *.
  destruct Hshape as [(Hs & Hw & Hh)
                     |[(Hc & Hs & Hw & Hh)
                      |(Hc & before & key & after & Hev & Hk & Hs & Hw & Hh)]];
    rewrite Hh, Hs, Hw;
    cbn [map last PushApp.phase PushApp.initial PushApp.with_phase
         saves with_files].
  - split; [|auto].
    destruct Hphase as [(-> & _)|[(-> & _)|(-> & _)]]; cbn; auto.
  - rewrite Hc. split; [|auto]. cbn; auto.
  - rewrite Hc.
    destruct (push_now_cases env (PushApp.state m)
                (with_files (PushApp.world m) (files_after fs before)))
      as [(Hp & _ & _ & Hs' & _)|(r & lc & _ & _ & _ & Hp & Hw')].
    + rewrite Hp, Hs'. split; [|auto]. cbn; auto 10.
    + rewrite Hp, Hw'. split; [|auto]. cbn; auto 10.
Qed.

(** X16. A schema is published only after the check found the local
    schema ahead of the remote one, the server validated the schema the
    check read without errors, and the user pressed Enter.  What is
    published is the schema the config file holds at that moment:
    handlePush reads the file again and sends what it finds without a
    second check.  The requests made are then exactly the fetch, the
    validation of the schema checked and the push of the schema read on
    confirmation; the two schemas are the same when the files are then as
    they were at the check. *)
Theorem push_publishes_after_validated_check (env : Env) (fs : FileSystem)
    (events : list Event) (pid : string) (sch : Schema) :
  let app := push_session env fs events in
  In (PushProjectSchemaCall pid sch) (calls (PushApp.world app)) ->
  exists checked fetched r v before key after confirmed,
    readSchemaFromConfig (babel_parse env) (json_parse env) fs (cwd env)
      = Returns (Some checked) /\
    getProjectSchema (apiClient env) (js_to_string (projectId checked))
      = Returns fetched /\
    c_status (compareVersions (schema checked)
                (default (empty_remote (projectId checked)) fetched)) = VAhead /\
    PushApp.statusResult (PushApp.state (PushApp.mount env fs)) = Some r /\
    status r = Ahead /\
    validateSchema (apiClient env) (schema checked) = Returns v /\
    reports_errors v = false /\
    events = before ++ Pressed key :: after /\ return_ key = true /\
    readSchemaFromConfig (babel_parse env) (json_parse env)
      (files_after fs before) (cwd env) = Returns (Some confirmed) /\
    pid = js_to_string (projectId confirmed) /\
    sch = schema confirmed /\
    calls (PushApp.world app)
      = [GetProjectSchemaCall (js_to_string (projectId checked));
         ValidateSchemaCall (schema checked);
         PushProjectSchemaCall pid sch] /\
    In PushApp.pushing (map PushApp.phase (PushApp.history app)) /\
    (files_after fs before = fs -> confirmed = checked).
Proof.
  cbv zeta.
  pose proof (push_session_has_shape env fs events) as Hshape.
  pose proof (push_mount_world env fs) as (_ & Hf & _).
  pose proof (push_mount_calls env fs pid sch) as Hnone.
  pose proof (push_mount_confirming env fs) as Hconf.
  cbv zeta in *. unfold push_session_shape in Hshape. cbv zeta in Hshape.
  set (app := push_session env fs events) in *.
  set (m := PushApp.mount env fs) in *.
  destruct Hshape as [(Hs & Hw & Hh)
                     |[(Hc & Hs & Hw & Hh)
                      |(Hc & before & key & after & Hev & Hk & Hs & Hw & Hh)]];
    rewrite Hw, Hh; try (intros Hin; contradiction).
  destruct (Hconf Hc) as (lc & fetched & r & _ & _ & Hread & Hfetch & Ha & Hr & Hn).
  pose proof (proj1 (analyzePushAction_confirmation _ _ _ _ _ _ _ Ha) Hn) as Hst.
  destruct (analyzePushAction_Ahead _ _ _ _ _ _ _ Ha Hst)
    as (Hahead & Hlog & (v & Hv & Hrep) & _).
  set (w1 := with_files (PushApp.world m) (files_after fs before)) in *.
  assert (exists lc',
            readSchemaFromConfig (babel_parse env) (json_parse env)
              (files_after fs before) (cwd env) = Returns (Some lc') /\
            calls (PushApp.push_now env (PushApp.state m) w1).2
            = calls (PushApp.world m)
              ++ [PushProjectSchemaCall (js_to_string (projectId lc')) (schema lc')]
            \/ calls (PushApp.push_now env (PushApp.state m) w1).2
               = calls (PushApp.world m)) as Hcalls.
  { destruct (push_now_cases env (PushApp.state m) w1)
      as [(_ & _ & _ & _ & [Heq|(lc' & Hread' & Heq)])
         |(r' & lc' & _ & Hread' & _ & _ & Hw')].
    - exists lc. right. exact Heq.
    - exists lc'. left. auto.
    - exists lc'. left. rewrite Hw'. auto. }
  cbn [calls with_files].
  destruct Hcalls as (lc' & [(Hread' & Heq)|Heq]); rewrite Heq;
    [|intros Hin; contradiction].
  intros Hin. apply in_app_or in Hin as [Hin|Hin]; [contradiction|].
  destruct Hin as [Hin|[]]. injection Hin as <- <-.
  exists lc, fetched, r, v, before, key, after, lc'.
  rewrite Hlog. cbn.
  repeat (split; [first [assumption | reflexivity | auto; fail]|]).
  intros Hsame. rewrite Hsame, Hread in Hread'. congruence.
Qed.

Lemma push_publishes_after_validated_check_witness :
  let env := env_with_remote None in
  let fs := only_ts_config ts_config_text in
  let events := [Pressed key_enter] in
  let app := push_session env fs events in
  exists checked fetched r v before key after confirmed,
    readSchemaFromConfig (babel_parse env) (json_parse env) fs (cwd env)
      = Returns (Some checked) /\
    getProjectSchema (apiClient env) (js_to_string (projectId checked))
      = Returns fetched /\
    c_status (compareVersions (schema checked)
                (default (empty_remote (projectId checked)) fetched)) = VAhead /\
    PushApp.statusResult (PushApp.state (PushApp.mount env fs)) = Some r /\
    status r = Ahead /\
    validateSchema (apiClient env) (schema checked) = Returns v /\
    reports_errors v = false /\
    events = before ++ Pressed key :: after /\ return_ key = true /\
    readSchemaFromConfig (babel_parse env) (json_parse env)
      (files_after fs before) (cwd env) = Returns (Some confirmed) /\
    "p1" = js_to_string (projectId confirmed) /\
    schema_at 1 = schema confirmed /\
    calls (PushApp.world app)
      = [GetProjectSchemaCall (js_to_string (projectId checked));
         ValidateSchemaCall (schema checked);
         PushProjectSchemaCall "p1" (schema_at 1)] /\
    In PushApp.pushing (map PushApp.phase (PushApp.history app)) /\
    (files_after fs before = fs -> confirmed = checked).
Proof.
  apply (push_publishes_after_validated_check (env_with_remote None)
           (only_ts_config ts_config_text) [Pressed key_enter] "p1" (schema_at 1)).
  vm_compute. auto.
Defined.

(** The config file is rewritten between the check and the answer: the
    schema published (version 2) is not the one that was validated
    (version 1). *)
Example push_after_edit_is_not_validated :
  calls (PushApp.world
           (push_session (env_with_remote None) (only_ts_config ts_config_text)
              [FilesChanged (only_ts_config ts_config_saved); Pressed key_enter]))
  = [GetProjectSchemaCall "p1"; ValidateSchemaCall (schema_at 1);
     PushProjectSchemaCall "p1" (schema_at 2)].
Proof. vm_compute. reflexivity. Qed.

(** X17. A push that ends in success has published the schema the config
    file held when the user pressed Enter, and the result it shows names
    that file and project, that schema's version as the new one and the
    remote version found by the check as the old one; the command then
    exits with code 0.  The check had found the local version greater than
    the remote one, so the new version shown is greater than the old one
    when the files are, on confirmation, as they were at the check. *)
Theorem push_success_reports_versions (env : Env) (fs : FileSystem)
    (events : list Event) :
  let app := push_session env fs events in
  PushApp.phase (PushApp.state app) = PushApp.success ->
  exists r before key after confirmed result,
    PushApp.statusResult (PushApp.state (PushApp.mount env fs)) = Some r /\
    status r = Ahead /\
    remoteVersion r < localVersion r /\
    events = before ++ Pressed key :: after /\ return_ key = true /\
    readSchemaFromConfig (babel_parse env) (json_parse env)
      (files_after fs before) (cwd env) = Returns (Some confirmed) /\
    pushProjectSchema (apiClient env) (js_to_string (projectId confirmed))
      (schema confirmed) = Returns tt /\
    PushApp.pushResult (PushApp.state app) = Some result /\
    tr_projectId result = projectId confirmed /\
    tr_filePath result = filePath confirmed /\
    newVersion result = or_zero (version (schema confirmed)) /\
    oldVersion result = remoteVersion r /\
    (files_after fs before = fs -> oldVersion result < newVersion result) /\
    push_exit_code (PushApp.state app) = Some 0.
Proof.
  cbv zeta.
  pose proof (push_session_has_shape env fs events) as Hshape.
  pose proof (push_mount_phase env fs) as Hphase.
  pose proof (push_mount_confirming env fs) as Hconf.
  cbv zeta in *. unfold push_session_shape in Hshape. cbv zeta in Hshape.
  set (app := push_session env fs events) in *.
  set (m := PushApp.mount env fs) in *.
  destruct Hshape as [(Hs & Hw & Hh)
                     |[(Hc & Hs & Hw & Hh)
                      |(Hc & before & key & after & Hev & Hk & Hs & Hw & Hh)]];
    rewrite Hs.
  - destruct Hphase as [(-> & _)|[(-> & _)|(-> & _)]]; discriminate.
  - cbn. discriminate.
  - destruct (Hconf Hc) as (lc & fetched & r & _ & _ & Hread & _ & Ha & Hr & Hn).
    pose proof (proj1 (analyzePushAction_confirmation _ _ _ _ _ _ _ Ha) Hn) as Hst.
    destruct (analyzePushAction_Ahead _ _ _ _ _ _ _ Ha Hst)
      as (Hahead & _ & _ & Hlv & Hrv).
    apply compareVersions_VAhead in Hahead as (Hlocal & Hremote & Hlt).
    set (w1 := with_files (PushApp.world m) (files_after fs before)) in *.
    destruct (push_now_cases env (PushApp.state m) w1)
      as [(Hp & _)|(r' & lc' & Hr' & Hread' & Hpush & Hp & _)].
    + rewrite Hp. discriminate.
    + cbn [files with_files w1] in Hread'.
      rewrite Hr in Hr'. injection Hr' as <-.
      rewrite Hp. intros _. exists r, before, key, after, lc'. eexists.
      split; [exact Hr|]. split; [exact Hst|].
      split; [rewrite Hlv, Hrv, Hlocal, Hremote; exact Hlt|].
      split; [exact Hev|]. split; [exact Hk|].
      split; [exact Hread'|]. split; [exact Hpush|].
      split; [reflexivity|]. cbn.
      split; [reflexivity|]. split; [reflexivity|]. split; [reflexivity|].
      split; [reflexivity|]. split; [|reflexivity].
      intros Hsame. rewrite Hsame, Hread in Hread'. injection Hread' as <-.
      rewrite Hrv, Hremote. exact Hlt.
Qed.

Lemma push_success_reports_versions_witness :
  let env := env_with_remote None in
  let fs := only_ts_config ts_config_text in
  let events := [Pressed key_enter] in
  let app := push_session env fs events in
  exists r before key after confirmed result,
    PushApp.statusResult (PushApp.state (PushApp.mount env fs)) = Some r /\
    status r = Ahead /\
    remoteVersion r < localVersion r /\
    events = before ++ Pressed key :: after /\ return_ key = true /\
    readSchemaFromConfig (babel_parse env) (json_parse env)
      (files_after fs before) (cwd env) = Returns (Some confirmed) /\
    pushProjectSchema (apiClient env) (js_to_string (projectId confirmed))
      (schema confirmed) = Returns tt /\
    PushApp.pushResult (PushApp.state app) = Some result /\
    tr_projectId result = projectId confirmed /\
    tr_filePath result = filePath confirmed /\
    newVersion result = or_zero (version (schema confirmed)) /\
    oldVersion result = remoteVersion r /\
    (files_after fs before = fs -> oldVersion result < newVersion result) /\
    push_exit_code (PushApp.state app) = Some 0.
Proof.
  apply (push_success_reports_versions (env_with_remote None)
           (only_ts_config ts_config_text) [Pressed key_enter]).
  vm_compute. reflexivity.
Defined.

(** The config file is rewritten between the check and the answer: the
    check compared version 2 with the remote version 1, the push sends
    version 1 and reports a step from 1 to 1. *)
Example push_after_edit_reports_no_increase :
  let app := push_session (env_with_remote (Some (schema_at 1)))
               (only_ts_config ts_config_saved)
               [FilesChanged (only_ts_config ts_config_text); Pressed key_enter] in
  PushApp.phase (PushApp.state app) = PushApp.success /\
  PushApp.pushResult (PushApp.state app)
  = Some {| tr_projectId := JStr "p1"; oldVersion := 1; newVersion := 1;
            tr_filePath := "./basic.config.ts" |}.
Proof. vm_compute. split; reflexivity. Qed.

Lemma analyzePushAction_status (localConfig : SchemaFileResult)
    (remoteSchema : Schema) (comparison : Comparison) (api : ApiClient)
    (log log' : list ApiCall) (r : ActionResult) :
  analyzePushAction localConfig remoteSchema comparison api log = (Returns r, log') ->
  status r = Ahead \/ status r = Invalid \/ status r = Current \/ status r = Behind.
Proof.
  unfold analyzePushAction.
  analyzer_cases comparison api; intros H; injection H as <- _; cbn; auto.
Qed.

Lemma analyzePullAction_status (localConfig : SchemaFileResult)
    (remoteSchema : Schema) (comparison : Comparison) (api : ApiClient)
    (log log' : list ApiCall) (r : ActionResult) :
  analyzePullAction localConfig remoteSchema comparison api log = (Returns r, log') ->
  status r = Behind \/ status r = Conflict \/ status r = Current \/ status r = Ahead.
Proof.
  unfold analyzePullAction.
  analyzer_cases comparison api; intros H; injection H as <- _; cbn; auto.
Qed.

(** The status the check stores is the analyzer's or that of a missing
    config file. *)
Lemma push_mount_status (env : Env) (fs : FileSystem) (r : ActionResult) :
  PushApp.statusResult (PushApp.state (PushApp.mount env fs)) = Some r ->
  status r = Ahead \/ status r = Invalid \/ status r = Current \/
  status r = Behind \/ status r = NoSchema.
Proof.
  unfold PushApp.mount, PushApp.checkPushStatus. check_cases;
    try discriminate; intros H; injection H as <-.
  - apply analyzePushAction_status in Ha. intuition.
  - cbn. auto 6.
Qed.

Ltac settle_iff :=
  split; intros;
  first [congruence | solve [auto] | solve [intuition congruence]].

(** X18. The push command comes to rest in every phase but confirming:
    the state it has reached schedules no exit exactly while it asks for
    confirmation, exit code 1 exactly in the error phase and exit code 0
    exactly after success or no-action; and when it rests in no-action, the
    status line reads "Unknown status", with no next steps, exactly when the
    user was asked to confirm and declined. *)
Theorem push_exit_and_display (env : Env) (fs : FileSystem) (keys : list Key) :
  let app := PushApp.run env fs keys in
  let s := PushApp.state app in
  (push_exit_code s = None <-> PushApp.phase s = PushApp.confirming) /\
  (push_exit_code s = Some 1 <-> PushApp.phase s = PushApp.error) /\
  (push_exit_code s = Some 0 <->
   PushApp.phase s = PushApp.success \/ PushApp.phase s = PushApp.no_action) /\
  (PushApp.phase s = PushApp.no_action ->
   exists r, PushApp.statusResult s = Some r /\
     (PushStatusDisplay.getStatusDescription (status r) = "Unknown status"
      <-> In PushApp.confirming (map PushApp.phase (PushApp.history app))) /\
     (PushStatusDisplay.getNextSteps (status r) = []
      <-> In PushApp.confirming (map PushApp.phase (PushApp.history app)))).
Proof.
  cbv zeta.
  pose proof (push_run_shape env fs keys) as Hshape.
  pose proof (push_mount_phase env fs) as Hphase.
  pose proof (push_mount_status env fs) as Hstatus.
  cbv zeta in *. unfold push_shape in Hshape. cbv zeta in Hshape.
  set (app := PushApp.run env fs keys) in *.
  set (m := PushApp.mount env fs) in *.
  set (s0 := PushApp.state m) in *.
  assert (forall st, st <> Ahead ->
            st = Ahead \/ st = Invalid \/ st = Current \/ st = Behind \/ st = NoSchema ->
            PushStatusDisplay.getStatusDescription st <> "Unknown status" /\
            PushStatusDisplay.getNextSteps st <> []) as Hknown.
  { intros st Hne [->|[->|[->|[->| ->]]]]; try congruence; cbn; split; discriminate. }
  destruct Hshape as [(Hs & Hw & Hh)|[(Hc & Hs & Hw & Hh)|(Hc & Hs & Hw & Hh)]];
    rewrite Hs, Hh.
  - destruct Hphase as [(Hp & Hr)|[(Hp & r & Hr & _ & Hne)|(Hp & r & Hr & _ & He)]];
      unfold push_exit_code; rewrite Hp, ?Hr; cbn;
      (split; [settle_iff|]); (split; [settle_iff|]); (split; [settle_iff|]);
      try (intros ?; congruence).
    intros _. exists r. split; [reflexivity|].
    destruct (Hknown (status r) Hne (Hstatus r Hr)) as (Hd & Hn).
    rewrite Hp.
    split; (split; [congruence|intros [?|[?|[]]]; discriminate]).
  - destruct Hphase as [(Hp & _)|[(Hp & _)|(Hp & r & Hr & _ & He)]];
      try congruence.
    unfold push_exit_code. cbn. rewrite Hr, Hp.
    split; [settle_iff|]. split; [settle_iff|]. split; [settle_iff|].
    intros _. exists r. split; [reflexivity|]. rewrite He. cbn.
    split; (split; [auto|reflexivity]).
  - destruct (push_now_cases env s0 (PushApp.world m))
      as [(Hp & Hr & _)|(r' & lc' & _ & _ & _ & Hp & _)];
      unfold push_exit_code; rewrite ?Hp, ?Hr; cbn;
      (split; [settle_iff|]); (split; [settle_iff|]); (split; [settle_iff|]);
      intros ?; congruence.
Qed.

Lemma push_exit_and_display_witness :
  let app := PushApp.run (env_with_remote None) (only_ts_config ts_config_text)
               [key_escape] in
  push_exit_code (PushApp.state app) = Some 0 /\
  exists r, PushApp.statusResult (PushApp.state app) = Some r /\
    (PushStatusDisplay.getStatusDescription (status r) = "Unknown status"
     <-> In PushApp.confirming (map PushApp.phase (PushApp.history app))) /\
    (PushStatusDisplay.getNextSteps (status r) = []
     <-> In PushApp.confirming (map PushApp.phase (PushApp.history app))).
Proof.
  destruct (push_exit_and_display (env_with_remote None)
              (only_ts_config ts_config_text) [key_escape]) as (_ & _ & H0 & Hd).
  split; [apply H0; right; vm_compute; reflexivity|].
  apply Hd. vm_compute. reflexivity.
Defined.

(** ** The pull command as a whole *)

Lemma pull_mount_world (env : Env) (fs : FileSystem) :
  let m := PullApp.mount env fs in
  PullApp.history m = [PullApp.initial; PullApp.state m] /\
  files (PullApp.world m) = fs /\ saves (PullApp.world m) = [].
Proof.
  unfold PullApp.mount, PullApp.checkPullStatus. check_cases;
    repeat split.
Qed.

Lemma pull_mount_calls (env : Env) (fs : FileSystem) :
  Forall reads_only (calls (PullApp.world (PullApp.mount env fs))).
Proof.
  unfold PullApp.mount, PullApp.checkPullStatus. check_cases;
    try (constructor; fail);
    try (repeat constructor; fail);
    destruct Hlog as (_ & [-> | ->] & _); repeat constructor.
Qed.

Lemma pull_mount_phase (env : Env) (fs : FileSystem) :
  let s0 := PullApp.state (PullApp.mount env fs) in
  (PullApp.phase s0 = PullApp.error /\ PullApp.statusResult s0 = None) \/
  (PullApp.phase s0 = PullApp.no_action /\
   exists r, PullApp.statusResult s0 = Some r /\
             needsConfirmation r = false /\
             (status r = Current \/ status r = Ahead \/ status r = NoSchema)) \/
  (PullApp.phase s0 = PullApp.confirming /\
   exists r, PullApp.statusResult s0 = Some r /\
             needsConfirmation r = true /\
             (status r = Behind \/ status r = Conflict)).
Proof.
  unfold PullApp.mount, PullApp.checkPullStatus. check_cases;
    try (left; split; reflexivity).
  - pose proof (analyzePullAction_confirmation _ _ _ _ _ _ _ Ha) as Hconf.
    pose proof (analyzePullAction_status _ _ _ _ _ _ _ Ha) as Hst.
    destruct (needsConfirmation r) eqn:Hn.
    + right; right. split; [reflexivity|]. exists r.
      split; [reflexivity|]. split; [exact Hn|]. exact (proj1 Hconf eq_refl).
    + right; left. split; [reflexivity|]. exists r.
      split; [reflexivity|]. split; [exact Hn|].
      destruct Hst as [Hs|[Hs|[Hs|Hs]]]; auto;
        assert (false = true) by (apply Hconf; auto); discriminate.
  - right; left. split; [reflexivity|]. exists no_schema_result.
    split; [reflexivity|]. split; [reflexivity|]. auto.
Qed.

Lemma pull_mount_confirming (env : Env) (fs : FileSystem) :
  let m := PullApp.mount env fs in
  PullApp.phase (PullApp.state m) = PullApp.confirming ->
  exists localConfig r,
    readSchemaFromConfig (babel_parse env) (json_parse env) fs (cwd env)
      = Returns (Some localConfig) /\
    PullApp.statusResult (PullApp.state m) = Some r.
Proof.
  unfold PullApp.mount, PullApp.checkPullStatus. check_cases;
    try discriminate.
  intros _. exists lc, r. auto.
Qed.

(** Saving over a config file that is read: the file is updated in place. *)
Lemma saveSchemaToConfig_existing (parse : string -> Parsed Program)
    (JSON_parse : string -> Parsed JsVal) (sch : Schema) (fs fs' : FileSystem)
    (dir : string) (localConfig : SchemaFileResult) (out : Outcome string) :
  readSchemaFromConfig parse JSON_parse fs dir = Returns (Some localConfig) ->
  saveSchemaToConfig parse JSON_parse sch fs dir = (out, fs') ->
  exists content,
    fs !! filePath localConfig = Some (RegularFile content) /\
    match out with
    | Returns path =>
        path = filePath localConfig /\
        exists text,
          updateSchemaInCode content sch = Returns text /\
          fs' = <[filePath localConfig := RegularFile text]> fs
    | Throws e => updateSchemaInCode content sch = Throws e /\ fs' = fs
    end.
Proof.
  intros Hread. unfold saveSchemaToConfig. rewrite Hread.
  destruct (readSchemaFromConfig_reads_file _ _ _ _ _ Hread)
    as (filename & content & _ & _ & Hfs).
  unfold fs_readFile, fs_writeFile. rewrite Hfs. intros H.
  exists content. split; [reflexivity|].
  destruct (updateSchemaInCode content sch) as [text|e];
    injection H as <- <-; eauto.
Qed.

Lemma pull_now_cases (env : Env) (s : PullApp.PullState) (w : World) :
  let out := PullApp.pull_now env s w in
  (PullApp.phase (fst out) = PullApp.error /\
   PullApp.pullResult (fst out) = None /\
   files (snd out) = files w /\
   (exists more, calls (snd out) = calls w ++ more /\ Forall reads_only more)) \/
  (exists r localConfig remoteSchema content text,
     PullApp.statusResult s = Some r /\
     readSchemaFromConfig (babel_parse env) (json_parse env) (files w) (cwd env)
       = Returns (Some localConfig) /\
     getProjectSchema (apiClient env) (js_to_string (projectId localConfig))
       = Returns (Some remoteSchema) /\
     files w !! filePath localConfig = Some (RegularFile content) /\
     updateSchemaInCode content remoteSchema = Returns text /\
     fst out = {| PullApp.phase := PullApp.success;
                  PullApp.error_text := None;
                  PullApp.statusResult := None;
                  PullApp.pullResult :=
                    Some {| tr_projectId := projectId localConfig;
                            oldVersion := or_zero (version (schema localConfig));
                            newVersion := or_zero (version remoteSchema);
                            tr_filePath := filePath localConfig |} |} /\
     snd out = {| files := <[filePath localConfig := RegularFile text]> (files w);
                  calls := calls w ++
                           [GetProjectSchemaCall
                              (js_to_string (projectId localConfig))];
                  saves := saves w ++ [remoteSchema] |}).
Proof.
  unfold PullApp.pull_now.
  assert (forall l : list ApiCall, exists more, l = l ++ more /\ Forall reads_only more)
    as Hsame.
  { intros l. exists []. rewrite app_nil_r. auto. }
  destruct (PullApp.statusResult s) as [r|]; [|left; cbn; auto 6].
  destruct (readSchemaFromConfig (babel_parse env) (json_parse env) (files w) (cwd env))
    as [[lc|]|e] eqn:Hread; try (left; cbn; auto 6; fail).
  assert (exists more,
            calls w ++ [GetProjectSchemaCall (js_to_string (projectId lc))]
            = calls w ++ more /\ Forall reads_only more) as Hget.
  { eexists. split; [reflexivity|]. repeat constructor. }
  destruct (getProjectSchema (apiClient env) (js_to_string (projectId lc)))
    as [[remote|]|e] eqn:Hfetch; try (left; cbn; auto 6; fail).
  cbn [files calls saves].
  destruct (saveSchemaToConfig (babel_parse env) (json_parse env) remote
              (files w) (cwd env)) as [out fs'] eqn:Hsave.
  destruct (saveSchemaToConfig_existing _ _ _ _ _ _ _ _ Hread Hsave)
    as (content & Hfs & Hout).
  destruct out as [path|e].
  - destruct Hout as (-> & text & Hupd & ->).
    right. exists r, lc, remote, content, text. cbn. auto 10.
  - destruct Hout as (_ & ->). left. cbn. auto 6.
Qed.

Lemma pull_now_rests (env : Env) (s : PullApp.PullState) (w : World) :
  PullApp.phase (fst (PullApp.pull_now env s w)) <> PullApp.confirming.
Proof.
  destruct (pull_now_cases env s w)
    as [(H & _)|(r & lc & remote & content & text & _ & _ & _ & _ & _ & H & _)];
    rewrite H; discriminate.
Qed.

Lemma pull_useInput_idle (env : Env) (app : PullApp.App) (key : Key) :
  PullApp.phase (PullApp.state app) <> PullApp.confirming ->
  PullApp.useInput env app key = app.
Proof.
  unfold PullApp.useInput.
  destruct (PullApp.phase (PullApp.state app)); congruence.
Qed.

Lemma pull_useInput_shape (env : Env) (fs : FileSystem) (app : PullApp.App)
    (key : Key) :
  pull_shape env fs app -> pull_shape env fs (PullApp.useInput env app key).
Proof.
  intros H. pose proof H as H0. unfold pull_shape in H0. cbv zeta in H0.
  set (m := PullApp.mount env fs) in *. set (s0 := PullApp.state m) in *.
  destruct H0 as [(Hs & Hw & Hh)|[(Hc & Hs & Hw & Hh)|(Hc & Hs & Hw & Hh)]].
  - destruct (PullApp.phase s0) eqn:Hp;
      try (rewrite pull_useInput_idle by (rewrite Hs, Hp; discriminate);
           exact H).
    unfold PullApp.useInput. rewrite Hs, Hp.
    destruct (upArrow key || downArrow key); [left; cbn; auto|].
    assert (pull_shape env fs
              (PullApp.set_state app (PullApp.with_phase s0 PullApp.no_action)
                 (PullApp.world app))) as Hno.
    { right; left. cbn. rewrite Hh, Hw. auto. }
    destruct (return_ key).
    + destruct (PullApp.selectedOption app); [|exact Hno].
      right; right. unfold PullApp.handlePull. rewrite Hs, Hw.
      fold m. fold s0.
      destruct (PullApp.pull_now env s0 (PullApp.world m)) as [final w'].
      cbn. rewrite Hh. auto.
    + destruct (escape key || String.eqb (input key) "q"); [exact Hno|].
      exact H.
  - rewrite pull_useInput_idle by (rewrite Hs; cbn; discriminate). exact H.
  - rewrite pull_useInput_idle by (rewrite Hs; apply pull_now_rests). exact H.
Qed.

Lemma pull_run_shape (env : Env) (fs : FileSystem) (keys : list Key) :
  pull_shape env fs (PullApp.run env fs keys).
Proof.
  unfold PullApp.run.
  assert (pull_shape env fs (PullApp.mount env fs)) as H.
  { left. pose proof (pull_mount_world env fs) as (Hh & _). cbv zeta in Hh. auto. }
  revert H. generalize (PullApp.mount env fs).
  induction keys as [|k keys IH]; intros app H; cbn; [exact H|].
  apply IH, pull_useInput_shape, H.
Qed.

(** X19. Whatever keys are pressed, the phases the pull command goes
    through form one of the six paths of its state diagram, the last state
    set is the current one, and the command only ever asks the server to
    fetch or to compare: it validates and publishes nothing. *)
Theorem pull_follows_state_diagram (env : Env) (fs : FileSystem)
    (keys : list Key) :
  let app := PullApp.run env fs keys in
  In (map PullApp.phase (PullApp.history app)) pull_paths /\
  last (PullApp.history app) = Some (PullApp.state app) /\
  Forall reads_only (calls (PullApp.world app)).
Proof.
  cbv zeta.
  pose proof (pull_run_shape env fs keys) as Hshape.
  pose proof (pull_mount_calls env fs) as Hcalls.
  pose proof (pull_mount_phase env fs) as Hphase.
  cbv zeta in *. unfold pull_shape in Hshape. cbv zeta in Hshape.
  set (app := PullApp.run env fs keys) in *.
  set (m := PullApp.mount env fs) in *.
  destruct Hshape as [(Hs & Hw & Hh)|[(Hc & Hs & Hw & Hh)|(Hc & Hs & Hw & Hh)]];
    rewrite Hh, Hs, Hw; cbn [map last PullApp.phase PullApp.initial PullApp.with_phase].
  - split; [|auto].
    destruct Hphase as [(-> & _)|[(-> & _)|(-> & _)]]; cbn; auto.
  - rewrite Hc. split; [|auto]. cbn; auto.
  - rewrite Hc.
    destruct (pull_now_cases env (PullApp.state m) (PullApp.world m))
      as [(Hp & _ & _ & more & Hmore & Hro)
         |(r & lc & remote & content & text & _ & _ & _ & _ & _ & Hp & Hw')].
    + rewrite Hp, Hmore. split; [cbn; auto 10|]. split; [reflexivity|].
      apply Forall_app; auto.
    + rewrite Hp, Hw'. split; [cbn; auto 10|]. split; [reflexivity|].
      cbn. apply Forall_app. split; [exact Hcalls|]. repeat constructor.
Qed.

(** ** Sessions of the pull command *)

Lemma pull_session_keys (env : Env) (fs : FileSystem) (keys : list Key) :
  pull_session env fs (map Pressed keys) = PullApp.run env fs keys.
Proof.
  unfold pull_session, PullApp.run. generalize (PullApp.mount env fs).
  induction keys as [|k keys IH]; intros app; cbn; [reflexivity|apply IH].
Qed.






Lemma pull_mount_status (env : Env) (fs : FileSystem) (r : ActionResult) :
  PullApp.statusResult (PullApp.state (PullApp.mount env fs)) = Some r ->
  status r = Behind \/ status r = Conflict \/ status r = Current \/
  status r = Ahead \/ status r = NoSchema.
Proof.
  unfold PullApp.mount, PullApp.checkPullStatus. check_cases;
    try discriminate; intros H; injection H as <-.
  - apply analyzePullAction_status in Ha. intuition.
  - cbn. auto 6.
Qed.

(** X21. The pull command comes to rest in every phase but confirming:
    the state it has reached schedules no exit exactly while it asks for
    confirmation, exit code 1 exactly in the error phase and exit code 0
    exactly after success or no-action; and when it rests in no-action, the
    user was asked and declined exactly when the status is behind or
    conflict, and the status line reads "Unknown status", with no next
    steps, exactly when the status is behind. *)
Theorem pull_exit_and_display (env : Env) (fs : FileSystem) (keys : list Key) :
  let app := PullApp.run env fs keys in
  let s := PullApp.state app in
  (pull_exit_code s = None <-> PullApp.phase s = PullApp.confirming) /\
  (pull_exit_code s = Some 1 <-> PullApp.phase s = PullApp.error) /\
  (pull_exit_code s = Some 0 <->
   PullApp.phase s = PullApp.success \/ PullApp.phase s = PullApp.no_action) /\
  (PullApp.phase s = PullApp.no_action ->
   exists r, PullApp.statusResult s = Some r /\
     (In PullApp.confirming (map PullApp.phase (PullApp.history app))
      <-> status r = Behind \/ status r = Conflict) /\
     (PullStatusDisplay.getStatusDescription (status r) = "Unknown status"
      <-> status r = Behind) /\
     (PullStatusDisplay.getNextSteps (status r) = [] <-> status r = Behind)).
Proof.
  cbv zeta.
  pose proof (pull_run_shape env fs keys) as Hshape.
  pose proof (pull_mount_phase env fs) as Hphase.
  pose proof (pull_mount_status env fs) as Hstatus.
  cbv zeta in *. unfold pull_shape in Hshape. cbv zeta in Hshape.
  set (app := PullApp.run env fs keys) in *.
  set (m := PullApp.mount env fs) in *.
  set (s0 := PullApp.state m) in *.
  assert (forall st,
            st = Behind \/ st = Conflict \/ st = Current \/ st = Ahead \/ st = NoSchema ->
            (PullStatusDisplay.getStatusDescription st = "Unknown status"
             <-> st = Behind) /\
            (PullStatusDisplay.getNextSteps st = [] <-> st = Behind)) as Hshown.
  { intros st [->|[->|[->|[->| ->]]]]; cbn; split; split;
      intros; (discriminate || reflexivity). }
  destruct Hshape as [(Hs & Hw & Hh)|[(Hc & Hs & Hw & Hh)|(Hc & Hs & Hw & Hh)]];
    rewrite Hs, Hh.
  - destruct Hphase as [(Hp & Hr)|[(Hp & r & Hr & _ & Hst)|(Hp & r & Hr & _ & Hst)]];
      unfold pull_exit_code; rewrite Hp, ?Hr; cbn;
      (split; [settle_iff|]); (split; [settle_iff|]); (split; [settle_iff|]);
      try (intros ?; congruence).
    intros _. exists r. split; [reflexivity|].
    split; [|exact (Hshown _ (Hstatus r Hr))].
    rewrite Hp. split.
    + intros [?|[?|[]]]; discriminate.
    + intros [Hb|Hb]; rewrite Hb in Hst;
        destruct Hst as [?|[?|?]]; discriminate.
  - destruct Hphase as [(Hp & _)|[(Hp & _)|(Hp & r & Hr & _ & Hst)]];
      try congruence.
    unfold pull_exit_code. cbn. rewrite Hr, Hp.
    split; [settle_iff|]. split; [settle_iff|]. split; [settle_iff|].
    intros _. exists r. split; [reflexivity|].
    split; [|exact (Hshown _ (Hstatus r Hr))].
    split; auto.
  - destruct (pull_now_cases env s0 (PullApp.world m))
      as [(Hp & Hr & _)
         |(r & lc & remote & content & text & _ & _ & _ & _ & _ & Hp & _)];
      unfold pull_exit_code; rewrite ?Hp, ?Hr; cbn;
      (split; [settle_iff|]); (split; [settle_iff|]); (split; [settle_iff|]);
      intros ?; congruence.
Qed.

Lemma pull_exit_and_display_witness :
  let app := PullApp.run (env_with_remote (Some (schema_at 2)))
               (only_ts_config ts_config_text) [key_escape] in
  pull_exit_code (PullApp.state app) = Some 0 /\
  exists r, PullApp.statusResult (PullApp.state app) = Some r /\
    (In PullApp.confirming (map PullApp.phase (PullApp.history app))
     <-> status r = Behind \/ status r = Conflict) /\
    (PullStatusDisplay.getStatusDescription (status r) = "Unknown status"
     <-> status r = Behind) /\
    (PullStatusDisplay.getNextSteps (status r) = [] <-> status r = Behind).
Proof.
  destruct (pull_exit_and_display (env_with_remote (Some (schema_at 2)))
              (only_ts_config ts_config_text) [key_escape]) as (_ & _ & H0 & Hd).
  split; [apply H0; right; vm_compute; reflexivity|].
  apply Hd. vm_compute. reflexivity.
Defined.

(** ** The status command, and the three commands side by side *)

Lemma status_run_cases (env : Env) (fs : FileSystem) :
  let out := StatusApp.run env fs in
  files (snd out) = fs /\ saves (snd out) = [] /\
  StatusApp.loading (fst out) = false /\
  calls (snd out) = calls (PushApp.world (PushApp.mount env fs)).
Proof.
  unfold StatusApp.run, StatusApp.checkStatus, PushApp.mount,
    PushApp.checkPushStatus.
  destruct (isOnline env); cbn; [|auto].
  destruct (getToken env) as [[|]|]; cbn; auto.
  destruct (readSchemaFromConfig (babel_parse env) (json_parse env) fs (cwd env))
    as [[lc|]|]; cbn; auto.
  destruct (getProjectSchema (apiClient env) (js_to_string (projectId lc)))
    as [fetched|]; cbn; auto.
  match goal with
  | |- context [analyzeStatus ?a ?b ?c ?d ?e] =>
      pose proof (analyzer_logs a b c d e) as (_ & _ & _ & Hsame);
      cbv zeta in Hsame;
      destruct (analyzeStatus a b c d e) as [[r|] log];
      destruct (analyzePushAction a b c d e) as [[r'|] log']
  end; cbn in *; auto.
Qed.

Lemma analyzeStatus_messages (localConfig : SchemaFileResult)
    (remoteSchema : Schema) (comparison : Comparison) (api : ApiClient)
    (log log' : list ApiCall) (r : StatusResult) :
  analyzeStatus localConfig remoteSchema comparison api log = (Returns r, log') ->
  StatusDisplay.statusMessages r <> [] /\
  sr_message r
  = ["Project ID: " +:+ js_to_string (projectId localConfig)]
    ++ (if sr_remoteVersion r >? 0
        then ["Remote schema version: " +:+ show (sr_remoteVersion r)] else [])
    ++ StatusDisplay.statusMessages r.
Proof.
  unfold analyzeStatus.
  analyzer_cases comparison api; intros H; injection H as <- _;
    unfold StatusDisplay.statusMessages;
    cbn [sr_message sr_remoteVersion];
    destruct (c_remoteVersion comparison >? 0);
    split; try discriminate; reflexivity.
Qed.

Lemma analyzeStatus_header (localConfig : SchemaFileResult)
    (remoteSchema : Schema) (comparison : Comparison) (api : ApiClient)
    (log log' : list ApiCall) (r : StatusResult) :
  analyzeStatus localConfig remoteSchema comparison api log = (Returns r, log') ->
  sr_status r <> NoSchema /\ sr_projectId r = projectId localConfig.
Proof.
  unfold analyzeStatus.
  analyzer_cases comparison api; intros H; injection H as <- _; cbn;
    split; (discriminate || reflexivity).
Qed.

(** X22. Whatever the status command shows, the lines under the status
    are the analyzer's messages without the header lines, in order: the
    filter of StatusDisplay removes the project-id line and the
    remote-version line the messages begin with, and nothing else; at
    least one line is left; and a state with a result carries no error. *)
Theorem status_display_drops_only_the_header (env : Env) (fs : FileSystem)
    (r : StatusResult) :
  StatusApp.result (fst (StatusApp.run env fs)) = Some r ->
  sr_message r = status_header r ++ StatusDisplay.statusMessages r /\
  StatusDisplay.statusMessages r <> [] /\
  StatusApp.error (fst (StatusApp.run env fs)) = None.
Proof.
  unfold StatusApp.run, StatusApp.checkStatus.
  destruct (isOnline env); cbn; [|discriminate].
  destruct (getToken env) as [[|]|]; cbn; try discriminate.
  destruct (readSchemaFromConfig (babel_parse env) (json_parse env) fs (cwd env))
    as [[lc|]|]; cbn; try discriminate.
  - destruct (getProjectSchema (apiClient env) (js_to_string (projectId lc)))
      as [fetched|e]; cbn.
    + match goal with
      | |- context [analyzeStatus ?a ?b ?c ?d ?e] =>
          destruct (analyzeStatus a b c d e) as [[r'|] log] eqn:Ha
      end; cbn; [|discriminate].
      intros H. injection H as ->.
      destruct (analyzeStatus_messages _ _ _ _ _ _ _ Ha) as (Hne & Hmsg).
      destruct (analyzeStatus_header _ _ _ _ _ _ _ Ha) as (Hns & Hpid).
      split; [|auto]. rewrite Hmsg at 1. unfold status_header.
      rewrite Hpid.
      destruct (sr_status r); try reflexivity. contradiction.
    + intros H. injection H as <-. repeat split. discriminate.
  - intros H. injection H as <-. repeat split. discriminate.
Qed.

Lemma status_display_drops_only_the_header_witness :
  let r := StatusApp.fetch_failed_result
             {| schema := schema_at 1; projectId := JStr "p1";
                filePath := "./basic.config.ts" |} (Error "HTTP 500") in
  sr_message r = status_header r ++ StatusDisplay.statusMessages r /\
  StatusDisplay.statusMessages r <> [] /\
  StatusApp.error (fst (StatusApp.run env_fetch_fails
                          (only_ts_config ts_config_text))) = None.
Proof.
  apply (status_display_drops_only_the_header env_fetch_fails
           (only_ts_config ts_config_text)).
  vm_compute. reflexivity.
Defined.

(** X23. The status command only looks at the server: it makes at most
    two requests, none of them a push, and they are exactly the requests
    the check of the push command makes; it always stops loading, and ends
    with an error or with a result, never both and never neither. *)
Theorem status_only_looks (env : Env) (fs : FileSystem) :
  let out := StatusApp.run env fs in
  calls (snd out) = calls (PushApp.world (PushApp.mount env fs)) /\
  (length (calls (snd out)) <= 2)%nat /\
  (forall pid sch, ~ In (PushProjectSchemaCall pid sch) (calls (snd out))) /\
  StatusApp.loading (fst out) = false /\
  (StatusApp.error (fst out) = None <-> is_Some (StatusApp.result (fst out))).
Proof.
  cbv zeta.
  destruct (status_run_cases env fs) as (_ & _ & Hl & Hc).
  split; [exact Hc|].
  split; [|split; [|split; [exact Hl|]]].
  - unfold StatusApp.run, StatusApp.checkStatus. check_cases; try lia.
    + destruct Hlog as (_ & _ & [-> | [-> | ->]] & _); cbn; lia.
    + destruct Hlog as (_ & _ & [-> | [-> | ->]] & _); cbn; lia.
  - intros pid sch. rewrite Hc. apply push_mount_calls.
  - unfold StatusApp.run, StatusApp.checkStatus. check_cases;
      split; intros H; try discriminate; try reflexivity; eauto;
      destruct H; discriminate.
Qed.

Lemma push_mount_first_call (env : Env) (fs : FileSystem) :
  let m := PushApp.mount env fs in
  calls (PushApp.world m) = [] /\
  PushApp.phase (PushApp.state m) <> PushApp.confirming \/
  exists c rest, calls (PushApp.world m) = c :: rest /\
                 ready_and_fetching env fs c.
Proof.
  unfold PushApp.mount, PushApp.checkPushStatus, ready_and_fetching.
  check_cases; try (left; split; [reflexivity|discriminate]);
    right; try destruct Hlog as ([-> | [-> | ->]] & _); cbn;
    eexists; eexists; (split; [reflexivity|]); eauto 6.
Qed.

Lemma pull_mount_first_call (env : Env) (fs : FileSystem) :
  let m := PullApp.mount env fs in
  calls (PullApp.world m) = [] /\
  PullApp.phase (PullApp.state m) <> PullApp.confirming \/
  exists c rest, calls (PullApp.world m) = c :: rest /\
                 ready_and_fetching env fs c.
Proof.
  unfold PullApp.mount, PullApp.checkPullStatus, ready_and_fetching.
  check_cases; try (left; split; [reflexivity|discriminate]);
    right; try destruct Hlog as (_ & [-> | ->] & _); cbn;
    eexists; eexists; (split; [reflexivity|]); eauto 6.
Qed.

(** X24. None of the three commands sends a request unless it is online,
    logged in and has read a config file, and the first request any of them
    sends fetches the schema of the project that file names; this holds for
    push and pull whatever keys are pressed. *)
Theorem first_request_fetches_the_project (env : Env) (fs : FileSystem)
    (keys : list Key) (c : ApiCall) (rest : list ApiCall) :
  calls (snd (StatusApp.run env fs)) = c :: rest \/
  calls (PushApp.world (PushApp.run env fs keys)) = c :: rest \/
  calls (PullApp.world (PullApp.run env fs keys)) = c :: rest ->
  ready_and_fetching env fs c.
Proof.
  pose proof (push_mount_first_call env fs) as Hpush.
  pose proof (pull_mount_first_call env fs) as Hpull.
  pose proof (push_run_shape env fs keys) as Hshape.
  pose proof (pull_run_shape env fs keys) as Hshape'.
  destruct (status_run_cases env fs) as (_ & _ & _ & Hsame).
  cbv zeta in *. unfold push_shape, pull_shape in *. cbv zeta in *.
  intros [H|[H|H]].
  - rewrite Hsame in H.
    destruct Hpush as [(Hnil & _)|(c' & rest' & Heq & Hready)]; [congruence|].
    rewrite Heq in H. injection H as <- _. exact Hready.
  - destruct Hshape as [(_ & Hw & _)|[(_ & _ & Hw & _)|(Hc & _ & Hw & _)]];
      rewrite Hw in H;
      (destruct Hpush as [(Hnil & Hnc)|(c' & rest' & Heq & Hready)];
       [congruence|]);
      try (rewrite Heq in H; injection H as <- _; exact Hready).
    destruct (push_now_cases env (PushApp.state (PushApp.mount env fs))
                (PushApp.world (PushApp.mount env fs)))
      as [(_ & _ & _ & _ & [Hcalls|(lc & _ & Hcalls)])
         |(r & lc & _ & _ & _ & _ & Hw')];
      [rewrite Hcalls in H|rewrite Hcalls in H|rewrite Hw' in H; cbn in H];
      rewrite Heq in H; injection H as <- _; exact Hready.
  - destruct Hshape' as [(_ & Hw & _)|[(_ & _ & Hw & _)|(Hc & _ & Hw & _)]];
      rewrite Hw in H;
      (destruct Hpull as [(Hnil & Hnc)|(c' & rest' & Heq & Hready)];
       [congruence|]);
      try (rewrite Heq in H; injection H as <- _; exact Hready).
    destruct (pull_now_cases env (PullApp.state (PullApp.mount env fs))
                (PullApp.world (PullApp.mount env fs)))
      as [(_ & _ & _ & more & Hcalls & _)
         |(r & lc & remote & content & text & _ & _ & _ & _ & _ & _ & Hw')];
      [rewrite Hcalls in H|rewrite Hw' in H; cbn in H];
      rewrite Heq in H; injection H as <- _; exact Hready.
Qed.

Lemma first_request_fetches_the_project_witness :
  ready_and_fetching (env_with_remote None) (only_ts_config ts_config_text)
    (GetProjectSchemaCall "p1").
Proof.
  apply (first_request_fetches_the_project (env_with_remote None)
           (only_ts_config ts_config_text) [key_enter]
           (GetProjectSchemaCall "p1")
           [ValidateSchemaCall (schema_at 1);
            PushProjectSchemaCall "p1" (schema_at 1)]).
  right; left. vm_compute. reflexivity.
Defined.

(** X25. When the remote schema cannot be fetched, the status command
    still ends with a result, of status invalid, whose one line under the
    status reports the failure, whereas the push and the pull command end
    in the error phase with that same line as the error, make no further
    request, and exit with code 1, whatever keys are pressed. *)
Theorem fetch_failure_in_each_command (env : Env) (fs : FileSystem)
    (localConfig : SchemaFileResult) (e : Thrown) (keys : list Key) :
  isOnline env = true ->
  getToken env = Returns true ->
  readSchemaFromConfig (babel_parse env) (json_parse env) fs (cwd env)
    = Returns (Some localConfig) ->
  getProjectSchema (apiClient env) (js_to_string (projectId localConfig))
    = Throws e ->
  let line := "Error fetching remote schema: " +:+ error_message e in
  let fetch := [GetProjectSchemaCall (js_to_string (projectId localConfig))] in
  (exists r, StatusApp.run env fs
             = (StatusApp.finished r,
                {| files := fs; calls := fetch; saves := [] |}) /\
             sr_status r = Invalid /\
             StatusDisplay.statusMessages r = [line]) /\
  (let app := PushApp.run env fs keys in
   PushApp.state app = PushApp.failed line /\
   calls (PushApp.world app) = fetch /\
   push_exit_code (PushApp.state app) = Some 1) /\
  (let app := PullApp.run env fs keys in
   PullApp.state app = PullApp.failed line /\
   calls (PullApp.world app) = fetch /\
   pull_exit_code (PullApp.state app) = Some 1).
Proof.
  intros Honline Htoken Hread Hfetch. cbv zeta.
  split; [|split].
  - exists (StatusApp.fetch_failed_result localConfig e).
    unfold StatusApp.run, StatusApp.checkStatus.
    rewrite Honline, Htoken. cbn. rewrite Hread. cbn. rewrite Hfetch.
    repeat split.
  - assert (PushApp.mount env fs
            = {| PushApp.state :=
                   PushApp.failed ("Error fetching remote schema: "
                                   +:+ error_message e);
                 PushApp.selectedOption := yes;
                 PushApp.world :=
                   {| files := fs;
                      calls := [GetProjectSchemaCall
                                  (js_to_string (projectId localConfig))];
                      saves := [] |};
                 PushApp.history :=
                   [PushApp.initial;
                    PushApp.failed ("Error fetching remote schema: "
                                    +:+ error_message e)] |}) as Hm.
    { unfold PushApp.mount, PushApp.checkPushStatus.
      rewrite Honline, Htoken. cbn. rewrite Hread. cbn. rewrite Hfetch.
      reflexivity. }
    unfold PushApp.run. rewrite Hm, push_run_idle by (cbn; discriminate).
    repeat split.
  - assert (PullApp.mount env fs
            = {| PullApp.state :=
                   PullApp.failed ("Error fetching remote schema: "
                                   +:+ error_message e);
                 PullApp.selectedOption := yes;
                 PullApp.world :=
                   {| files := fs;
                      calls := [GetProjectSchemaCall
                                  (js_to_string (projectId localConfig))];
                      saves := [] |};
                 PullApp.history :=
                   [PullApp.initial;
                    PullApp.failed ("Error fetching remote schema: "
                                    +:+ error_message e)] |}) as Hm.
    { unfold PullApp.mount, PullApp.checkPullStatus.
      rewrite Honline, Htoken. cbn. rewrite Hread. cbn. rewrite Hfetch.
      reflexivity. }
    unfold PullApp.run. rewrite Hm, pull_run_idle by (cbn; discriminate).
    repeat split.
Qed.

Lemma fetch_failure_in_each_command_witness :
  let env := env_fetch_fails in
  let fs := only_ts_config ts_config_text in
  let line := "Error fetching remote schema: HTTP 500" in
  let fetch := [GetProjectSchemaCall "p1"] in
  (exists r, StatusApp.run env fs
             = (StatusApp.finished r,
                {| files := fs; calls := fetch; saves := [] |}) /\
             sr_status r = Invalid /\
             StatusDisplay.statusMessages r = [line]) /\
  (let app := PushApp.run env fs [key_enter] in
   PushApp.state app = PushApp.failed line /\
   calls (PushApp.world app) = fetch /\
   push_exit_code (PushApp.state app) = Some 1) /\
  (let app := PullApp.run env fs [key_enter] in
   PullApp.state app = PullApp.failed line /\
   calls (PullApp.world app) = fetch /\
   pull_exit_code (PullApp.state app) = Some 1).
Proof.
  apply (fetch_failure_in_each_command env_fetch_fails
           (only_ts_config ts_config_text)
           {| schema := schema_at 1; projectId := JStr "p1";
              filePath := "./basic.config.ts" |}
           (Error "HTTP 500") [key_enter]);
    vm_compute; reflexivity.
Defined.

(** ** Updating a config file that saveSchemaToConfig has generated *)

Lemma star_last {R} (p : ascii -> bool) (a b : string) (c : ascii)
    (k : string -> option R) (x : R) :
  all_chars p a = true -> p c = true ->
  star p b k = None ->
  k (String c b) = Some x ->
  star p (a +:+ String c b) k = Some x.
Proof.
  intros Ha Hc Hb Hk. induction a as [|a0 a IH]; cbn.
  - rewrite Hc, Hb. exact Hk.
  - cbn in Ha. apply andb_true_iff in Ha as [H0 Ha].
    rewrite H0, IH by exact Ha. reflexivity.
Qed.

Lemma test_at (r : Regex) (before s : string) (res : list string * string) :
  match_here r s = Some res -> test r (before +:+ s) = true.
Proof.
  intros H. induction before as [|c before IH]; cbn [String.append test].
  - destruct s; cbn [test]; rewrite H; reflexivity.
  - destruct (match_here r (String c (before +:+ s))); [reflexivity|exact IH].
Qed.

Lemma replace_all_unmatched (r : Regex) (template before : string)
    (c : ascii) (s : string) :
  match_here r (String c s) = None ->
  replace_all r template before 0 (String c s)
  = String c (replace_all r template (before +:+ String c "") 0 s).
Proof. intros H. cbn [replace_all]. rewrite H. reflexivity. Qed.

Lemma replace_all_skip_any (r : Regex) (template w before s : string) :
  replace_all r template before (String.length w) (w +:+ s)
  = replace_all r template (before +:+ w) 0 s.
Proof.
  revert before. induction w as [|c w IH]; intros before; cbn.
  - rewrite string_app_nil_r. reflexivity.
  - rewrite IH, string_app_assoc. reflexivity.
Qed.

Lemma replace_all_matched (r : Regex) (template before w rest : string)
    (caps : list string) :
  w <> "" ->
  match_here r (w +:+ rest) = Some (caps, rest) ->
  replace_all r template before 0 (w +:+ rest)
  = expand template w before rest caps
    +:+ replace_all r template (before +:+ w) 0 rest.
Proof.
  intros Hw Hm. destruct w as [|c w]; [contradiction|].
  change (String c w +:+ rest) with (String c (w +:+ rest)) in *.
  cbn [replace_all]. rewrite Hm.
  change (String c (w +:+ rest)) with (String c w +:+ rest).
  rewrite consumed_app. cbn [String.length].
  rewrite replace_all_skip_any, string_app_assoc. reflexivity.
Qed.

Local Arguments consumed : simpl never.
Local Arguments not_semicolon : simpl never.

Ltac eval_white_space :=
  repeat match goal with
         | |- context [white_space (Ascii ?a ?b ?c ?d ?e ?f ?g ?h)] =>
             let v := eval vm_compute in (white_space (Ascii a b c d e f g h)) in
             change (white_space (Ascii a b c d e f g h)) with v
         end.

(** The first pattern, met at the assignment that generateConfigContent
    writes, takes the whole object region. *)
Lemma match_here_const_schema (body rest : string) :
  body <> "" -> all_chars not_semicolon body = true ->
  match_here const_schema_pattern ("const schema = {" +:+ body +:+ "};" +:+ rest)
  = Some (["const schema = "; "{" +:+ body +:+ "}"; ";"], rest).
Proof.
  intros Hne Hall. destruct body as [|b0 body]; [contradiction|].
  cbn in Hall. apply andb_true_iff in Hall as [Hb0 Hall].
  unfold match_here, const_schema_pattern, assignment_of, Plus. cbn.
  repeat (progress eval_white_space; cbn). rewrite Hb0.
  erewrite (star_last not_semicolon body (String ";" rest) "}");
    [|exact Hall|reflexivity|reflexivity|cbn; reflexivity].
  cbn. repeat f_equal.
  - exact (consumed_app "const schema = " _).
  - replace (body +:+ String "}" (String ";" rest))
      with ((body +:+ "}") +:+ String ";" rest)
      by (rewrite string_app_assoc; reflexivity).
    exact (consumed_app (String "{" (String b0 (body +:+ "}"))) _).
  - exact (consumed_app ";" rest).
Qed.

(** Updating a generated text: the comment lines and the export are
    kept, and the declaration is the expansion of the template at the one
    match, whose captures are the words of the declaration, the printed
    schema and the semicolon. *)
Lemma updateSchemaInCode_generated (s1 s2 : Schema) :
  object_region (JSON_stringify s1) ->
  exists matched before,
    updateSchemaInCode (generateConfigContent s1) s2
    = Returns
        (("// Basic Project Configuration" +:+ newline +:+
          "// see the docs for more info: https://docs.basic.tech"
          +:+ newline +:+ newline)
         +:+ expand ("$1" +:+ JSON_stringify s2 +:+ "$3") matched before
               (newline +:+ newline +:+ "export default schema;" +:+ newline)
               ["const schema = "; JSON_stringify s1; ";"]
         +:+ newline +:+ newline +:+ "export default schema;" +:+ newline).
Proof.
  intros (body & HJ & Hne & Hall).
  unfold updateSchemaInCode, generateConfigContent. rewrite HJ.
  set (J2 := JSON_stringify s2) in *. clearbody J2.
  unfold patterns. cbn [replace_first_matching].
  fold const_schema_pattern.
  set (tail := newline +:+ newline +:+ "export default schema;" +:+ newline).
  set (w := "const schema = " +:+ ("{" +:+ body +:+ "}") +:+ ";").
  assert (match_here const_schema_pattern (w +:+ tail)
          = Some (["const schema = "; "{" +:+ body +:+ "}"; ";"], tail)) as Hm.
  { replace (w +:+ tail) with ("const schema = {" +:+ body +:+ "};" +:+ tail).
    - apply match_here_const_schema; assumption.
    - unfold w. cbn. rewrite !string_app_assoc. reflexivity. }
  assert (w <> "") as Hw by discriminate.
  replace ("const schema = " +:+ ("{" +:+ body +:+ "}") +:+ ";" +:+ tail)
    with (w +:+ tail)
    by (unfold w; cbn; rewrite !string_app_assoc; reflexivity).
  clearbody w.
  set (prefix := "// Basic Project Configuration" +:+ newline +:+
                 "// see the docs for more info: https://docs.basic.tech"
                 +:+ newline +:+ newline).
  change ("// Basic Project Configuration" +:+ newline +:+
          "// see the docs for more info: https://docs.basic.tech" +:+
          newline +:+ newline +:+ w +:+ tail) with (prefix +:+ w +:+ tail).
  rewrite (test_at const_schema_pattern prefix (w +:+ tail) _ Hm).
  exists w. eexists. f_equal.
  subst prefix. remember (w +:+ tail) as wt eqn:Hwt.
  cbn [String.append newline].
  repeat (rewrite replace_all_unmatched by (lazy; reflexivity)).
  subst wt. rewrite (replace_all_matched _ _ _ _ _ _ Hw Hm).
  subst tail. cbn [String.append newline].
  repeat (rewrite replace_all_unmatched by (lazy; reflexivity)).
  cbn [replace_all].
  change (match_here const_schema_pattern "") with (@None (list string * string)).
  cbn [String.append]. rewrite !string_app_assoc. reflexivity.
Qed.

(** X26. Updating the text that generateConfigContent makes of one schema
    with a second schema gives the text generateConfigContent makes of the
    second, provided the printed first schema is an object region (braces
    around at least one character, with no semicolon) and the printed second
    schema, an object, holds no dollar sign; but the text generated for the
    empty object cannot be updated at all. *)
Theorem update_of_generated_content (s1 s2 : Schema)
    (props : list (string * JsVal)) :
  (object_region (JSON_stringify s1) ->
   no_dollar (JSON_stringify (JObj props)) = true ->
   updateSchemaInCode (generateConfigContent s1) (JObj props)
   = Returns (generateConfigContent (JObj props))) /\
  updateSchemaInCode (generateConfigContent (JObj [])) s2
  = Throws (Error "Could not update schema in config file").
Proof.
  split.
  2: { apply updateSchemaInCode_no_match.
       intros pattern [<-|[<-|[<-|[]]]]; vm_compute; reflexivity. }
  intros Hregion Hnd.
  destruct (JSON_stringify_object_head props) as [J' HJ2].
  destruct (updateSchemaInCode_generated s1 (JObj props) Hregion)
    as (matched & before & ->).
  rewrite (expand_template (JSON_stringify (JObj props)) _ _ _ _ _ _ "{" J'
             HJ2 eq_refl Hnd).
  unfold generateConfigContent. f_equal.
  cbn [String.append newline]. rewrite !string_app_assoc. reflexivity.
Qed.

Lemma update_of_generated_content_witness :
  updateSchemaInCode (generateConfigContent (schema_at 1)) (schema_at 2)
  = Returns (generateConfigContent (schema_at 2)).
Proof.
  apply (proj1 (update_of_generated_content (schema_at 1) JNull _)).
  - exists (substring 1 (String.length (JSON_stringify (schema_at 1)) - 2)
              (JSON_stringify (schema_at 1))).
    split; [vm_compute; reflexivity|]. split; [vm_compute; discriminate|].
    vm_compute. reflexivity.
  - vm_compute. reflexivity.
Defined.

(** ** Saving a schema that holds dollar signs *)

Section DollarSigns.

Variable parse : string -> Parsed Program.
Variable JSON_parse : string -> Parsed JsVal.

(** The result read from a directory whose basic.config.ts exists comes
    from that file. *)
Lemma readSchemaFromConfig_ts_first (fs : FileSystem) (dir : string)
    (r : SchemaFileResult) :
  is_Some (fs !! path_join dir "basic.config.ts") ->
  readSchemaFromConfig parse JSON_parse fs dir = Returns (Some r) ->
  filePath r = path_join dir "basic.config.ts".
Proof.
  intros Hex H. unfold readSchemaFromConfig in H.
  apply read_first_Some in H as (before & filename & after & Hfiles & Hbefore & Hr).
  apply read_config_file_path in Hr as (-> & _).
  destruct before as [|g before].
  - cbn in Hfiles. unfold possibleFiles in Hfiles. injection Hfiles as <- _.
    reflexivity.
  - cbn in Hfiles. unfold possibleFiles in Hfiles. injection Hfiles as <- _.
    rewrite (Hbefore "basic.config.ts") in Hex by (left; reflexivity).
    destruct Hex; discriminate.
Qed.

(** C8, evaluated where the code departs from it: a well-formed schema
    with a table named [a$$b], saved over a config file the CLI generated.
    updateSchemaInCode hands the printed schema to String.replace inside
    the replacement text, where two dollar signs stand for one: the file
    written is the one the CLI generates for the schema with the table
    [a$b], and that other schema is what readSchemaFromConfig then
    returns. *)
Theorem save_rewrites_dollar_signs (fs : FileSystem) (dir : string)
    (old : Schema) (existing : SchemaFileResult) :
  fs !! path_join dir "basic.config.ts"
    = Some (RegularFile (generateConfigContent old)) ->
  object_region (JSON_stringify old) ->
  readSchemaFromConfig parse JSON_parse fs dir = Returns (Some existing) ->
  parse (generateConfigContent schema_with_dollar)
    = ParsedAs (ts_config_body (literal_of schema_with_dollar)) ->
  let path := path_join dir "basic.config.ts" in
  let fs' := <[path := RegularFile (generateConfigContent schema_with_dollar)]> fs in
  well_formed schema_with_dollars /\
  saveSchemaToConfig parse JSON_parse schema_with_dollars fs dir
    = (Returns path, fs') /\
  readSchemaFromConfig parse JSON_parse fs' dir
    = Returns (Some {| schema := schema_with_dollar;
                       projectId := JStr "p1";
                       filePath := path |}) /\
  schema_with_dollar <> schema_with_dollars.
Proof.
  intros Hfs Hregion Hread Hparse path fs'.
  split; [|split; [|split; [|discriminate]]].
  - split; [reflexivity|].
    eexists _, "p1", 2, _. split; [reflexivity|].
    repeat split; try reflexivity. discriminate.
  - pose proof (readSchemaFromConfig_ts_first fs dir existing
                  ltac:(rewrite Hfs; eauto) Hread) as Hpath.
    unfold saveSchemaToConfig. rewrite Hread, Hpath.
    unfold fs_readFile, fs_writeFile. rewrite Hfs.
    destruct (updateSchemaInCode_generated old schema_with_dollars Hregion)
      as (matched & before & ->).
    subst fs'. f_equal.
  - unfold readSchemaFromConfig, possibleFiles. cbn [read_first].
    unfold read_config_file, fs_access, fs_readFile.
    subst fs' path. rewrite lookup_insert_eq.
    remember (generateConfigContent schema_with_dollar) as text eqn:Htext.
    cbn. unfold extractSchemaFromCode. rewrite Hparse. reflexivity.
Qed.

End DollarSigns.

Lemma save_rewrites_dollar_signs_witness :
  let fs := only_ts_config (generateConfigContent (schema_at 1)) in
  let path := path_join "." "basic.config.ts" in
  let fs' := <[path := RegularFile (generateConfigContent schema_with_dollar)]> fs in
  well_formed schema_with_dollars /\
  saveSchemaToConfig babel_for_dollars (parser_table []) schema_with_dollars fs "."
    = (Returns path, fs') /\
  readSchemaFromConfig babel_for_dollars (parser_table []) fs' "."
    = Returns (Some {| schema := schema_with_dollar;
                       projectId := JStr "p1";
                       filePath := path |}) /\
  schema_with_dollar <> schema_with_dollars.
Proof.
  apply (save_rewrites_dollar_signs babel_for_dollars (parser_table [])
           (only_ts_config (generateConfigContent (schema_at 1))) "."
           (schema_at 1) (config_at 1)).
  - reflexivity.
  - exists (substring 1 (String.length (JSON_stringify (schema_at 1)) - 2)
              (JSON_stringify (schema_at 1))).
    split; [vm_compute; reflexivity|]. split; [vm_compute; discriminate|].
    vm_compute. reflexivity.
  - vm_compute. reflexivity.
  - vm_compute. reflexivity.
Defined.

(** ** Errors and the API client *)

(** X27. handleError returns an error of the CLI unchanged, so applying
    it twice is applying it once; for anything else it never makes up an
    ApiError or a status code, so the 404 test of getProjectSchema sees
    through it; and of another Error it keeps the message exactly when it
    files the error as unknown, replacing it otherwise by one of three fixed
    messages with two suggestions, the network pattern taking precedence. *)
Theorem handleError_classifies (x : Errors.Raised) :
  Errors.handleError (Errors.Cli (Errors.handleError x)) = Errors.handleError x /\
  Errors.is_not_found (Errors.Cli (Errors.handleError x)) = Errors.is_not_found x /\
  ((exists e, x = Errors.Cli e) \/
   Errors.class (Errors.handleError x) <> Errors.ApiErrorClass /\
   Errors.statusCode (Errors.handleError x) = None) /\
  (forall msg, x = Errors.Plain msg ->
     let e := Errors.handleError x in
     (Errors.includes msg "ENOTFOUND" || Errors.includes msg "network" = true ->
      e = Errors.NetworkError) /\
     (Errors.code e = "UNKNOWN_ERROR" /\ Errors.message e = msg /\
      Errors.suggestions e = None \/
      Errors.code e <> "UNKNOWN_ERROR" /\
      In (Errors.message e)
         ["Network connection failed"; "Authentication failed";
          "Invalid schema format"] /\
      exists a b, Errors.suggestions e = Some [a; b])).
Proof.
  split; [reflexivity|]. split; [|split].
  - destruct x as [e|msg|]; [reflexivity| |reflexivity].
    unfold Errors.handleError.
    repeat match goal with
           | |- context [if ?b then _ else _] => destruct b
           end; reflexivity.
  - destruct x as [e|msg|]; [left; eauto| |right; cbn; split; [discriminate|reflexivity]].
    right. unfold Errors.handleError.
    repeat match goal with
           | |- context [if ?b then _ else _] => destruct b
           end; cbn; split; (discriminate || reflexivity).
  - intros msg ->. cbv zeta. unfold Errors.handleError. split.
    + intros ->. reflexivity.
    + repeat match goal with
             | |- context [if ?b then _ else _] => destruct b
             end; cbn;
        first [ left; repeat split; reflexivity
              | right; split; [discriminate|]; split; [auto|eauto] ].
Qed.

Lemma handleError_classifies_witness :
  let e := Errors.handleError
             (Errors.Plain "getaddrinfo ENOTFOUND api.basic.tech") in
  (Errors.includes "getaddrinfo ENOTFOUND api.basic.tech" "ENOTFOUND"
   || Errors.includes "getaddrinfo ENOTFOUND api.basic.tech" "network" = true ->
   e = Errors.NetworkError) /\
  (Errors.code e = "UNKNOWN_ERROR" /\
   Errors.message e = "getaddrinfo ENOTFOUND api.basic.tech" /\
   Errors.suggestions e = None \/
   Errors.code e <> "UNKNOWN_ERROR" /\
   In (Errors.message e)
      ["Network connection failed"; "Authentication failed";
       "Invalid schema format"] /\
   exists a b, Errors.suggestions e = Some [a; b]).
Proof.
  destruct (handleError_classifies
              (Errors.Plain "getaddrinfo ENOTFOUND api.basic.tech"))
    as (_ & _ & _ & H).
  apply (H "getaddrinfo ENOTFOUND api.basic.tech"). reflexivity.
Defined.

Section ApiClientProperties.

Variable getToken : Api.Result (option Api.Token).
Variable fetch : Api.Request -> Api.Result Api.Response.

(** The failures of [request], by where they arise. *)
Lemma request_Raise (endpoint : string) (options : Api.RequestInit)
    (e : Errors.Raised) :
  Api.request getToken fetch endpoint options = Api.Raise e ->
  (exists x, e = Errors.Cli (Errors.handleError x) /\
             (getToken = Api.Raise x \/
              (exists req, fetch req = Api.Raise x) \/
              (exists req response,
                 fetch req = Api.Ok response /\ Api.ok response = false /\
                 Api.text response = Api.Raise x) \/
              (exists req response errorText,
                 fetch req = Api.Ok response /\ Api.ok response = false /\
                 Api.text response = Api.Ok errorText /\
                 x = Errors.Cli
                       (Errors.ApiError
                          ("API Error: " +:+ show (Api.status response)
                           +:+ " - " +:+ errorText)
                          (Some (Api.status response)) None)))) \/
  (exists req response,
     fetch req = Api.Ok response /\ Api.ok response = true /\
     Api.json response = Api.Raise e).
Proof.
  unfold Api.request.
  destruct getToken as [token|x] eqn:Ht.
  2: { intros H. injection H as <-. left. exists x. auto. }
  match goal with
  | |- context [fetch ?r] => set (req := r); destruct (fetch req) as [response|x] eqn:Hf
  end.
  2: { intros H. injection H as <-. left. exists x. eauto 6. }
  destruct (Api.ok response) eqn:Hok; cbn.
  - intros H. right. eauto.
  - destruct (Api.text response) as [errorText|x] eqn:Htext;
      intros H; injection H as <-; left.
    + match goal with
      | |- exists x, Errors.Cli ?c = _ /\ _ => exists (Errors.Cli c)
      end.
      split; [reflexivity|]. right; right; right.
      exists req, response, errorText. auto.
    + exists x. split; [reflexivity|]. right; right; left. eauto.
Qed.

(** X28. An error that [request] raises has gone through handleError,
    and so is an error of the CLI, unless it is the failure to read the
    body of a successful response as JSON, which is raised as it is; and a
    response that is not ok, whose text can be read, is raised as an
    ApiError that carries the status and names it and the text in its
    message. *)
Theorem request_raises_cli_errors (endpoint : string)
    (options : Api.RequestInit) :
  (forall e,
     Api.request getToken fetch endpoint options = Api.Raise e ->
     (exists c, e = Errors.Cli c) \/
     (exists req response,
        fetch req = Api.Ok response /\ Api.ok response = true /\
        Api.json response = Api.Raise e)) /\
  (forall token response errorText,
     getToken = Api.Ok token ->
     fetch {| Api.url := Api.API_BASE +:+ endpoint;
              Api.method := Api.init_method options;
              Api.body := Api.init_body options;
              Api.authorization :=
                match token with
                | Some t => Some ("Bearer " +:+ Api.access_token t)
                | None => None
                end |} = Api.Ok response ->
     Api.ok response = false ->
     Api.text response = Api.Ok errorText ->
     Api.request getToken fetch endpoint options
     = Api.Raise (Errors.Cli
                    (Errors.ApiError
                       ("API Error: " +:+ show (Api.status response)
                        +:+ " - " +:+ errorText)
                       (Some (Api.status response)) None))).
Proof.
  split.
  - intros e H. apply request_Raise in H as [(x & -> & _)|H]; eauto.
  - intros token response errorText Ht Hf Hok Htext.
    unfold Api.request. rewrite Ht, Hf, Hok, Htext. reflexivity.
Qed.

(** X29. getProjectSchema never raises an ApiError of status 404: a
    response of status 404 whose text can be read makes it return null, as
    does a body whose data is an empty array, whereas for a non-empty array
    it returns the schema property of the first element; and when the
    request cannot be sent because the host is not found, it raises the
    network error of the CLI, whose message no longer names the cause. *)
Theorem getProjectSchema_not_found_is_null (projectId : string)
    (token : option Api.Token) :
  getToken = Api.Ok token ->
  (forall e, Api.getProjectSchema getToken fetch projectId = Api.Raise e ->
             Errors.is_not_found e = false) /\
  (forall response errorText,
     fetch (schema_request token projectId) = Api.Ok response ->
     Api.ok response = false -> Api.status response = 404 ->
     Api.text response = Api.Ok errorText ->
     Api.getProjectSchema getToken fetch projectId = Api.Ok JNull) /\
  (forall response other items,
     fetch (schema_request token projectId) = Api.Ok response ->
     Api.ok response = true ->
     Api.json response = Api.Ok (JObj (("data", JArr items) :: other)) ->
     Api.getProjectSchema getToken fetch projectId
     = match items with
       | [] => Api.Ok JNull
       | first :: _ => Api.prop first "schema"
       end) /\
  (forall msg,
     fetch (schema_request token projectId) = Api.Raise (Errors.Plain msg) ->
     Errors.includes msg "ENOTFOUND" = true ->
     Api.getProjectSchema getToken fetch projectId
     = Api.Raise (Errors.Cli Errors.NetworkError) /\
     Errors.message Errors.NetworkError = "Network connection failed").
Proof.
  intros Ht. split; [|split; [|split]].
  - intros e. unfold Api.getProjectSchema.
    match goal with
    | |- context [Errors.is_not_found ?x] => idtac
    end.
    match goal with
    | |- match ?a with _ => _ end = _ -> _ => destruct a as [v|x]
    end; [discriminate|].
    destruct (Errors.is_not_found x) eqn:Hnf; [discriminate|].
    intros H. injection H as <-. exact Hnf.
  - intros response errorText Hf Hok Hst Htext.
    unfold Api.getProjectSchema, Api.request.
    rewrite Ht. fold (schema_request token projectId).
    unfold schema_request in *. cbn in *. rewrite Hf, Hok. cbn.
    rewrite Htext, Hst. reflexivity.
  - intros response other items Hf Hok Hj.
    unfold Api.getProjectSchema, Api.request.
    rewrite Ht. unfold schema_request in *. cbn in *. rewrite Hf, Hok. cbn.
    rewrite Hj. cbn.
    destruct items as [|first items]; [reflexivity|].
    cbn. rewrite Nat2Z.inj_succ.
    destruct (Z.succ (Z.of_nat (length items))) eqn:Hz; try lia;
      destruct first; reflexivity.
  - intros msg Hf Hinc. split; [|reflexivity].
    unfold Api.getProjectSchema, Api.request.
    rewrite Ht. unfold schema_request in *. cbn in *. rewrite Hf.
    unfold Errors.handleError. rewrite Hinc. reflexivity.
Qed.

End ApiClientProperties.

Lemma request_raises_cli_errors_witness :
  Api.request some_token (server_answering 500 "boom" JNull) "/project"
    Api.no_options
  = Api.Raise (Errors.Cli
                 (Errors.ApiError "API Error: 500 - boom" (Some 500) None)).
Proof.
  apply (proj2 (request_raises_cli_errors some_token
                  (server_answering 500 "boom" JNull) "/project" Api.no_options)
           (Some {| Api.access_token := "t0" |})
           {| Api.ok := false; Api.status := 500;
              Api.text := Api.Ok "boom"; Api.json := Api.Ok JNull |}
           "boom");
    reflexivity.
Defined.

Lemma getProjectSchema_not_found_is_null_witness :
  Api.getProjectSchema some_token (server_answering 404 "not found" JNull) "p1"
  = Api.Ok JNull.
Proof.
  destruct (getProjectSchema_not_found_is_null some_token
              (server_answering 404 "not found" JNull) "p1"
              (Some {| Api.access_token := "t0" |}) eq_refl) as (_ & H & _).
  apply (H {| Api.ok := false; Api.status := 404;
              Api.text := Api.Ok "not found"; Api.json := Api.Ok JNull |}
           "not found"); reflexivity.
Defined.
